(** * Lana AI backend: cache, fingerprint, in-flight deduplication,
      response normaliser and rate limiter

    A shallow embedding of the request-coordination core of the backend
    (backend/main.py, backend/app/api/routes/chat.py and
    backend/app/repositories/memory_cache_repository.py) together with the
    properties stated for it.

    Conventions.
    - A Python [str] is a Rocq [string]; one [ascii] stands for one code
      point in U+0000..U+00FF (Latin-1), which is the alphabet of the model.
    - Python [int] is [Z].  A clock reading (the float returned by
      [time.time()] or [time.monotonic()]) is a [Z] number of ticks, with
      [second] ticks to the second.
    - A Python [dict] used as a map is a [gmap]; a dict whose order matters
      (a parsed JSON object, the recency order of a TTLCache) is an
      association list. *)

From Stdlib Require Import ZArith List Ascii String Bool Lia.
From stdpp Require Import base option list strings gmap pretty.

Local Open Scope string_scope.
Local Open Scope Z_scope.

(** * Part I: the embedding of the code *)

(** ** Python string operations *)

Module Text.

Definition code (c : ascii) : Z := Z.of_N (N_of_ascii c).

Definition chr (z : Z) : ascii := ascii_of_N (Z.to_N z).

(** [str.isspace] on one code point below 256; the same set is matched by
    [\s] in a [str] pattern. *)
Definition isspace (c : ascii) : bool :=
  let n := code c in
  ((9 <=? n) && (n <=? 13)) || ((28 <=? n) && (n <=? 32))
  || (n =? 133) || (n =? 160).

(** [str.lower] on one code point: A-Z and the Latin-1 capitals
    U+00C0..U+00DE without the multiplication sign U+00D7. *)
Definition lower_char (c : ascii) : ascii :=
  let n := code c in
  if ((65 <=? n) && (n <=? 90))
     || ((192 <=? n) && (n <=? 222) && negb (n =? 215))
  then chr (n + 32) else c.

Fixpoint lower (s : string) : string :=
  match s with
  | EmptyString => EmptyString
  | String c s' => String (lower_char c) (lower s')
  end.

Fixpoint lstrip (s : string) : string :=
  match s with
  | EmptyString => EmptyString
  | String c s' => if isspace c then lstrip s' else s
  end.

Fixpoint rstrip (s : string) : string :=
  match s with
  | EmptyString => EmptyString
  | String c s' =>
      match rstrip s' with
      | EmptyString => if isspace c then EmptyString else String c EmptyString
      | r => String c r
      end
  end.

(** [s.strip()] *)
Definition strip (s : string) : string := rstrip (lstrip s).

(** [s.startswith(p)] *)
Fixpoint startswith (s p : string) : bool :=
  match p, s with
  | EmptyString, _ => true
  | String a p', String b s' => if Ascii.eqb a b then startswith s' p' else false
  | String _ _, EmptyString => false
  end.

(** [s.endswith(p)] *)
Definition endswith (s p : string) : bool :=
  let n := String.length s in
  let m := String.length p in
  if (m <=? n)%nat then String.eqb (substring (n - m) m s) p else false.

(** Index of the first occurrence of [sub] in [s], counted from [i]. *)
Fixpoint find_at (sub s : string) (i : nat) : option nat :=
  if startswith s sub then Some i
  else match s with
       | EmptyString => None
       | String _ s' => find_at sub s' (S i)
       end.

Fixpoint drop (n : nat) (s : string) : string :=
  match n, s with
  | O, _ => s
  | S n', String _ s' => drop n' s'
  | S _, EmptyString => EmptyString
  end.

(** [s.find(sub, start)] for [0 <= start]; -1 when there is no occurrence. *)
Definition find (s sub : string) (start : Z) : Z :=
  if Z.of_nat (String.length s) <? start then -1
  else match find_at sub (drop (Z.to_nat start) s) (Z.to_nat start) with
       | Some i => Z.of_nat i
       | None => -1
       end.

(** Index of the last occurrence of [sub] in [s], counted from [i]. *)
Fixpoint rfind_at (sub s : string) (i : nat) : option nat :=
  match s with
  | EmptyString => if startswith s sub then Some i else None
  | String _ s' =>
      match rfind_at sub s' (S i) with
      | Some j => Some j
      | None => if startswith s sub then Some i else None
      end
  end.

(** [s.rfind(sub)] *)
Definition rfind (s sub : string) : Z :=
  match rfind_at sub s 0 with
  | Some i => Z.of_nat i
  | None => -1
  end.

(** [sub in s] *)
Definition contains (s sub : string) : bool := negb (find s sub 0 =? -1).

(** [s[a:b]] for [0 <= a] and [0 <= b]. *)
Definition slice (s : string) (a b : Z) : string :=
  substring (Z.to_nat a) (Z.to_nat (b - a)) s.

(** [s.replace(old, new)] for a one-character [old]. *)
Fixpoint replace_char (old : ascii) (new : string) (s : string) : string :=
  match s with
  | EmptyString => EmptyString
  | String c s' =>
      if Ascii.eqb c old then new ++ replace_char old new s'
      else String c (replace_char old new s')
  end.

Fixpoint filter (keep : ascii -> bool) (s : string) : string :=
  match s with
  | EmptyString => EmptyString
  | String c s' => if keep c then String c (filter keep s') else filter keep s'
  end.

(** [s.encode()]: UTF-8, one byte below U+0080 and two bytes from there to
    U+00FF. *)
Fixpoint encode (s : string) : list Z :=
  match s with
  | EmptyString => []
  | String c s' =>
      let n := code c in
      if n <? 128 then n :: encode s'
      else Z.lor 192 (Z.shiftr n 6) :: Z.lor 128 (Z.land n 63) :: encode s'
  end.

End Text.

(** ** hashlib.md5 (RFC 1321) over 32-bit words held in [Z] *)

Module MD5.

Definition wrap32 (x : Z) : Z := x mod 4294967296.

Definition rotl32 (x : Z) (c : Z) : Z :=
  wrap32 (Z.lor (Z.shiftl x c) (Z.shiftr x (32 - c))).

Definition not32 (x : Z) : Z := 4294967295 - x.

Definition K : list Z :=
  [ 3614090360; 3905402710; 606105819; 3250441966; 4118548399; 1200080426;
    2821735955; 4249261313; 1770035416; 2336552879; 4294925233; 2304563134;
    1804603682; 4254626195; 2792965006; 1236535329; 4129170786; 3225465664;
    643717713; 3921069994; 3593408605; 38016083; 3634488961; 3889429448;
    568446438; 3275163606; 4107603335; 1163531501; 2850285829; 4243563512;
    1735328473; 2368359562; 4294588738; 2272392833; 1839030562; 4259657740;
    2763975236; 1272893353; 4139469664; 3200236656; 681279174; 3936430074;
    3572445317; 76029189; 3654602809; 3873151461; 530742520; 3299628645;
    4096336452; 1126891415; 2878612391; 4237533241; 1700485571; 2399980690;
    4293915773; 2240044497; 1873313359; 4264355552; 2734768916; 1309151649;
    4149444226; 3174756917; 718787259; 3951481745 ].

Definition S : list Z :=
  [ 7; 12; 17; 22; 7; 12; 17; 22; 7; 12; 17; 22; 7; 12; 17; 22;
    5; 9; 14; 20; 5; 9; 14; 20; 5; 9; 14; 20; 5; 9; 14; 20;
    4; 11; 16; 23; 4; 11; 16; 23; 4; 11; 16; 23; 4; 11; 16; 23;
    6; 10; 15; 21; 6; 10; 15; 21; 6; 10; 15; 21; 6; 10; 15; 21 ].

(** Little-endian bytes of a word and back. *)
Fixpoint le_bytes (n : nat) (x : Z) : list Z :=
  match n with
  | O => []
  | Datatypes.S n' => x mod 256 :: le_bytes n' (x / 256)
  end.

Fixpoint le_word (bs : list Z) : Z :=
  match bs with
  | [] => 0
  | b :: bs' => b + 256 * le_word bs'
  end.

(** Padding: a 1 bit, zeros up to 56 mod 64, then the bit length on 8 bytes. *)
Definition pad (msg : list Z) : list Z :=
  let len := Z.of_nat (List.length msg) in
  let zeros := Z.to_nat ((55 - len) mod 64) in
  msg ++ 128 :: List.repeat 0 zeros ++ le_bytes 8 ((8 * len) mod 2 ^ 64).

Fixpoint words (n : nat) (bs : list Z) : list Z :=
  match n with
  | O => []
  | Datatypes.S n' => le_word (firstn 4 bs) :: words n' (skipn 4 bs)
  end.

Record state := State { sa : Z; sb : Z; sc : Z; sd : Z }.

Definition init : state :=
  State 1732584193 4023233417 2562383102 271733878.

Definition round (M : list Z) (st : state) (i : Z) : state :=
  let '(State a b c d) := st in
  let '(f, g) :=
    if i <? 16 then (Z.lor (Z.land b c) (Z.land (not32 b) d), i)
    else if i <? 32 then
      (Z.lor (Z.land d b) (Z.land (not32 d) c), (5 * i + 1) mod 16)
    else if i <? 48 then (Z.lxor b (Z.lxor c d), (3 * i + 5) mod 16)
    else (Z.lxor c (Z.lor b (not32 d)), (7 * i) mod 16) in
  let f' := wrap32 (f + a + nth (Z.to_nat i) K 0 + nth (Z.to_nat g) M 0) in
  State d (wrap32 (b + rotl32 f' (nth (Z.to_nat i) S 0))) b c.

Definition block (st : state) (chunk : list Z) : state :=
  let M := words 16 chunk in
  let '(State a b c d) := fold_left (round M) (List.map Z.of_nat (seq 0 64)) st in
  State (wrap32 (sa st + a)) (wrap32 (sb st + b))
        (wrap32 (sc st + c)) (wrap32 (sd st + d)).

Fixpoint blocks (n : nat) (st : state) (bs : list Z) : state :=
  match n with
  | O => st
  | Datatypes.S n' => blocks n' (block st (firstn 64 bs)) (skipn 64 bs)
  end.

(** The 16 bytes of the digest. *)
Definition digest (msg : list Z) : list Z :=
  let p := pad msg in
  let '(State a b c d) := blocks (List.length p / 64) init p in
  le_bytes 4 a ++ le_bytes 4 b ++ le_bytes 4 c ++ le_bytes 4 d.

Definition hex_digit (n : Z) : ascii :=
  if n <? 10 then Text.chr (48 + n) else Text.chr (87 + n).

Fixpoint hex (bs : list Z) : string :=
  match bs with
  | [] => EmptyString
  | b :: bs' => String (hex_digit (b / 16)) (String (hex_digit (b mod 16)) (hex bs'))
  end.

(** [hashlib.md5(msg).hexdigest()] *)
Definition hexdigest (msg : list Z) : string := hex (digest msg).

End MD5.

(** ** Cache keys *)

(** [str(age)] for an [Optional[int]] inside an f-string. *)
Definition str_opt_int (age : option Z) : string :=
  match age with
  | Some n => pretty n
  | None => "None"
  end.

(** main.py: [get_cache_key(topic)].  The [lru_cache] decorator memoises a
    pure function and is not part of the model. *)
Definition get_cache_key (topic : string) : string :=
  let topic_clean := Text.strip (Text.lower topic) in
  "lesson:" ++ Text.slice (MD5.hexdigest (Text.encode topic_clean)) 0 16.

(** chat.py, [structured_lesson_handler]: the key under which the lesson of
    [text] and [age] is computed,
    [hashlib.md5(f"{text}|{age}".encode()).hexdigest()[:16]]. *)
Definition lesson_cache_key (text : string) (age : option Z) : string :=
  Text.slice (MD5.hexdigest (Text.encode (text ++ "|" ++ str_opt_int age))) 0 16.

(** ** JSON values and [orjson.loads] *)

Module Json.

#[local] Set Warnings "-register-all".

(** A parsed document.  Numbers keep their literal text; an object is the
    association list of its keys in insertion order. *)
Inductive json :=
| JNull
| JBool (b : bool)
| JNum (lit : string)
| JStr (s : string)
| JArr (items : list json)
| JObj (fields : list (string * json)).

(** [d[k] = v] on a dict: a key already present keeps its place. *)
Fixpoint dict_set (k : string) (v : json) (d : list (string * json)) :
  list (string * json) :=
  match d with
  | [] => [(k, v)]
  | (k', v') :: d' =>
      if String.eqb k k' then (k, v) :: d' else (k', v') :: dict_set k v d'
  end.

(** [d.get(k)] *)
Fixpoint dict_get (k : string) (d : list (string * json)) : option json :=
  match d with
  | [] => None
  | (k', v) :: d' => if String.eqb k k' then Some v else dict_get k d'
  end.

Definition dquote : ascii := "034"%char.
Definition backslash : ascii := "092"%char.

(** What a parser answers: a value and the text left over, a refusal of
    the text, the end of its fuel, or a text that leaves the alphabet of the
    model (a valid escape naming a code point beyond U+00FF), about which
    the model says nothing. *)
Inductive outcome (A : Type) :=
| Parsed (a : A) (rest : string)
| Invalid
| OutOfFuel
| Beyond.
Arguments Parsed {A} a rest.
Arguments Invalid {A}.
Arguments OutOfFuel {A}.
Arguments Beyond {A}.

Definition is_ws (c : ascii) : bool :=
  let n := Text.code c in (n =? 32) || (n =? 9) || (n =? 10) || (n =? 13).

Fixpoint skip_ws (s : string) : string :=
  match s with
  | String c s' => if is_ws c then skip_ws s' else s
  | EmptyString => EmptyString
  end.

Definition is_digit (c : ascii) : bool :=
  let n := Text.code c in (48 <=? n) && (n <=? 57).

Definition hex_value (c : ascii) : option Z :=
  let n := Text.code c in
  if (48 <=? n) && (n <=? 57) then Some (n - 48)
  else if (97 <=? n) && (n <=? 102) then Some (n - 87)
  else if (65 <=? n) && (n <=? 70) then Some (n - 55)
  else None.

(** The four hex digits after [\u]. *)
Definition parse_hex4 (s : string) : option (Z * string) :=
  match s with
  | String a (String b (String c (String d r))) =>
      match hex_value a, hex_value b, hex_value c, hex_value d with
      | Some x, Some y, Some z, Some w => Some (((x * 16 + y) * 16 + z) * 16 + w, r)
      | _, _, _, _ => None
      end
  | _ => None
  end.

(** What an escape of a code point [n] of 256 or more is, given the text
    after its four digits: a leading surrogate needs a trailing one in the
    next escape, a trailing surrogate on its own is refused, and every
    valid one leaves the alphabet of the model. *)
Definition wide_escape (n : Z) (rest : string) : outcome string :=
  if (55296 <=? n) && (n <=? 56319) then
    match rest with
    | String b (String u rest') =>
        if Ascii.eqb b backslash && Ascii.eqb u "u" then
          match parse_hex4 rest' with
          | Some (low, _) => if (56320 <=? low) && (low <=? 57343) then Beyond else Invalid
          | None => Invalid
          end
        else Invalid
    | _ => Invalid
    end
  else if (56320 <=? n) && (n <=? 57343) then Invalid
  else Beyond.

(** The characters of a string literal after its opening quote.  An escape
    that names a code point beyond U+00FF leaves the alphabet of the model
    and is answered [Beyond]. *)
Fixpoint parse_string (fuel : nat) (s : string) : outcome string :=
  match fuel with
  | O => OutOfFuel
  | S fuel' =>
      match s with
      | EmptyString => Invalid
      | String c r =>
          if Ascii.eqb c dquote then Parsed EmptyString r
          else if Ascii.eqb c backslash then
            match r with
            | EmptyString => Invalid
            | String e r' =>
                let continue (x : ascii) (rest : string) :=
                  match parse_string fuel' rest with
                  | Parsed t rest' => Parsed (String x t) rest'
                  | Invalid => Invalid
                  | OutOfFuel => OutOfFuel
                  | Beyond => Beyond
                  end in
                if Ascii.eqb e dquote then continue dquote r'
                else if Ascii.eqb e backslash then continue backslash r'
                else if Ascii.eqb e "/" then continue "/"%char r'
                else if Ascii.eqb e "b" then continue (Text.chr 8) r'
                else if Ascii.eqb e "f" then continue (Text.chr 12) r'
                else if Ascii.eqb e "n" then continue (Text.chr 10) r'
                else if Ascii.eqb e "r" then continue (Text.chr 13) r'
                else if Ascii.eqb e "t" then continue (Text.chr 9) r'
                else if Ascii.eqb e "u" then
                  match parse_hex4 r' with
                  | Some (n, r'') =>
                      if n <? 256 then continue (Text.chr n) r'' else wide_escape n r''
                  | None => Invalid
                  end
                else Invalid
            end
          else if Text.code c <? 32 then Invalid
          else match parse_string fuel' r with
               | Parsed t rest => Parsed (String c t) rest
               | Invalid => Invalid
               | OutOfFuel => OutOfFuel
               | Beyond => Beyond
               end
      end
  end.

(** The longest prefix of digits. *)
Fixpoint digits (s : string) : string * string :=
  match s with
  | String c s' =>
      if is_digit c then let '(d, r) := digits s' in (String c d, r)
      else (EmptyString, s)
  | EmptyString => (EmptyString, EmptyString)
  end.

(** The number a digit string writes, continued from [acc]. *)
Fixpoint digits_value (acc : Z) (s : string) : Z :=
  match s with
  | EmptyString => acc
  | String c s' => digits_value (10 * acc + (Text.code c - 48)) s'
  end.

(** A number literal read as [m * 10 ^ e], without its sign. *)
Definition decimal (lit : string) : Z * Z :=
  let s1 :=
    match lit with
    | String "-" r => r
    | _ => lit
    end in
  let '(int, s2) := digits s1 in
  let '(frac, s3) :=
    match s2 with
    | String "." r => digits r
    | _ => (EmptyString, s2)
    end in
  let exponent :=
    match s3 with
    | String _ r =>
        match r with
        | String "+" r' => digits_value 0 (fst (digits r'))
        | String "-" r' => - digits_value 0 (fst (digits r'))
        | _ => digits_value 0 (fst (digits r))
        end
    | EmptyString => 0
    end in
  (digits_value 0 (int ++ frac), exponent - Z.of_nat (String.length frac)).

(** Whether the literal is within the range of a double: its magnitude
    rounds to a finite double, which it does below [2^1024 - 2^970], half
    way between the largest double and [2^1024].  orjson reads an integer
    beyond 64 bits as a double, and refuses a number that would read as
    infinity. *)
Definition finite (lit : string) : bool :=
  let '(m, e) := decimal lit in
  let bound := 2 ^ 1024 - 2 ^ 970 in
  if m =? 0 then true
  else if 0 <=? e then m * 10 ^ e <? bound
  else m <? bound * 10 ^ (- e).

(** Whether the literal reads as zero: its digits are all 0, or its
    magnitude is at most [2^-1075], half the smallest double above 0, and
    rounds to 0.0. *)
Definition is_zero (lit : string) : bool :=
  let '(m, e) := decimal lit in
  (m =? 0) || ((e <? 0) && (m * 2 ^ 1075 <=? 10 ^ (- e))).

(** The number a well-formed literal parses to, when it is in range. *)
Definition number (lit rest : string) : outcome json :=
  if finite lit then Parsed (JNum lit) rest else Invalid.

(** A number literal: an optional minus sign, then 0 or a digit string
    without a leading 0, then an optional fraction (a dot and digits) and
    an optional exponent (e or E, an optional sign, digits). *)
Definition parse_number (s : string) : outcome json :=
  let '(sign, s1) :=
    match s with
    | String "-" r => ("-", r)
    | _ => ("", s)
    end in
  let '(int, s2) := digits s1 in
  let int_ok :=
    match int with
    | EmptyString => false
    | String "0" (String _ _) => false
    | _ => true
    end in
  if negb int_ok then Invalid else
  let frac :=
    match s2 with
    | String "." r =>
        let '(d, r') := digits r in
        match d with
        | EmptyString => None
        | _ => Some ("." ++ d, r')
        end
    | _ => Some ("", s2)
    end in
  match frac with
  | None => Invalid
  | Some (f, s3) =>
      match s3 with
      | String e r =>
          if Ascii.eqb e "e" || Ascii.eqb e "E" then
            let '(esign, r1) :=
              match r with
              | String "+" r' => ("+", r')
              | String "-" r' => ("-", r')
              | _ => ("", r)
              end in
            let '(d, r2) := digits r1 in
            match d with
            | EmptyString => Invalid
            | _ => number (sign ++ int ++ f ++ String e (esign ++ d)) r2
            end
          else number (sign ++ int ++ f) s3
      | EmptyString => number (sign ++ int ++ f) s3
      end
  end.

(** One value.  [depth] bounds the nesting of arrays and objects; the loops
    over the elements of one array or object run on [fuel], of which the
    length of the text is enough. *)
Fixpoint parse_value (depth : nat) (s : string) : outcome json :=
  let fuel := Datatypes.S (String.length s) in
  match skip_ws s with
  | EmptyString => Invalid
  | String c r =>
      if Ascii.eqb c dquote then
        match parse_string fuel r with
        | Parsed t rest => Parsed (JStr t) rest
        | Invalid => Invalid
        | OutOfFuel => OutOfFuel
        | Beyond => Beyond
        end
      else if Text.startswith (String c r) "true" then Parsed (JBool true) (Text.drop 4 (String c r))
      else if Text.startswith (String c r) "false" then Parsed (JBool false) (Text.drop 5 (String c r))
      else if Text.startswith (String c r) "null" then Parsed JNull (Text.drop 4 (String c r))
      else if Ascii.eqb c "[" then
        match depth with
        | O => Invalid
        | S depth' =>
            match skip_ws r with
            | String "]" rest => Parsed (JArr []) rest
            | _ =>
                (fix elements (n : nat) (acc : list json) (t : string) : outcome json :=
                   match n with
                   | O => OutOfFuel
                   | S n' =>
                       match parse_value depth' t with
                       | Parsed v t1 =>
                           match skip_ws t1 with
                           | String "," t2 => elements n' (acc ++ [v])%list t2
                           | String "]" t2 => Parsed (JArr (acc ++ [v])%list) t2
                           | _ => Invalid
                           end
                       | Invalid => Invalid
                       | OutOfFuel => OutOfFuel
                       | Beyond => Beyond
                       end
                   end) fuel [] r
            end
        end
      else if Ascii.eqb c "{" then
        match depth with
        | O => Invalid
        | S depth' =>
            match skip_ws r with
            | String "}" rest => Parsed (JObj []) rest
            | _ =>
                (fix members (n : nat) (acc : list (string * json)) (t : string) : outcome json :=
                   match n with
                   | O => OutOfFuel
                   | S n' =>
                       match skip_ws t with
                       | String q t0 =>
                           if negb (Ascii.eqb q dquote) then Invalid else
                           match parse_string fuel t0 with
                           | Parsed k t1 =>
                               match skip_ws t1 with
                               | String ":" t2 =>
                                   match parse_value depth' t2 with
                                   | Parsed v t3 =>
                                       match skip_ws t3 with
                                       | String "," t4 => members n' (dict_set k v acc) t4
                                       | String "}" t4 => Parsed (JObj (dict_set k v acc)) t4
                                       | _ => Invalid
                                       end
                                   | Invalid => Invalid
                                   | OutOfFuel => OutOfFuel
                                   | Beyond => Beyond
                                   end
                               | _ => Invalid
                               end
                           | Invalid => Invalid
                           | OutOfFuel => OutOfFuel
                           | Beyond => Beyond
                           end
                       | EmptyString => Invalid
                       end
                   end) fuel [] r
            end
        end
      else parse_number (String c r)
  end.

(** Whether the model has an answer for [text]: the parse neither leaves
    the alphabet nor runs out of fuel. *)
Definition within (text : string) : bool :=
  match parse_value 1024 text with
  | Beyond => false
  | OutOfFuel => false
  | _ => true
  end.

(** [orjson.loads(text)]: one value and nothing but white space after it.
    orjson refuses documents nested deeper than 1024 levels.  On a text
    [within] the model [None] stands for [JSONDecodeError]; on any other
    text the model has no answer, and [None] says nothing about the
    code. *)
Definition loads (text : string) : option json :=
  match parse_value 1024 text with
  | Parsed v rest =>
      match skip_ws rest with
      | EmptyString => Some v
      | _ => None
      end
  | _ => None
  end.

End Json.

(** ** The response normaliser of main.py *)

Module Normalizer.

Import Json.

(** [re.sub(r'[\x00-\x1f\x7f-\x9f]', '', content)] *)
Definition is_control (c : ascii) : bool :=
  let n := Text.code c in (n <=? 31) || ((127 <=? n) && (n <=? 159)).

Definition strip_controls (content : string) : string :=
  Text.filter (fun c => negb (is_control c)) content.

(** Whether the text matches [\s*[}\]]] at its start. *)
Fixpoint closes (s : string) : bool :=
  match s with
  | EmptyString => false
  | String c s' =>
      if Text.isspace c then closes s'
      else Ascii.eqb c "}" || Ascii.eqb c "]"
  end.

(** [re.sub(r',(\s*[}\]])', r'\1', content)]: a comma before a closing
    brace or bracket, white space between them allowed, is dropped. *)
Fixpoint drop_trailing_commas (s : string) : string :=
  match s with
  | EmptyString => EmptyString
  | String c s' =>
      if Ascii.eqb c "," && closes s' then drop_trailing_commas s'
      else String c (drop_trailing_commas s')
  end.

(** The escaping of raw line feeds, carriage returns and tabs. *)
Definition escape_breaks (content : string) : string :=
  Text.replace_char (Text.chr 9) (String backslash "t")
    (Text.replace_char (Text.chr 13) (String backslash "r")
       (Text.replace_char (Text.chr 10) (String backslash "n") content)).

(** The text between the code fences, when there are any. *)
Definition extract_fenced (content : string) : string :=
  if Text.contains content "```json" then
    let start := Text.find content "```json" 0 + 7 in
    let end_ := Text.find content "```" start in
    if negb (end_ =? -1) then Text.strip (Text.slice content start end_)
    else content
  else if Text.contains content "```" then
    let start := Text.find content "```" 0 + 3 in
    let end_ := Text.find content "```" start in
    if negb (end_ =? -1) then Text.strip (Text.slice content start end_)
    else content
  else content.

(** The text from the first opening brace to the last closing one, when
    the content is not already delimited by them. *)
Definition extract_object (content : string) : string :=
  if negb (Text.startswith content "{" && Text.endswith content "}") then
    let start_idx := Text.find content "{" 0 in
    let end_idx := Text.rfind content "}" in
    if negb (start_idx =? -1) && negb (end_idx =? -1) && (start_idx <? end_idx)
    then Text.slice content start_idx (end_idx + 1)
    else content
  else content.

(** The three repairs applied after a failed strict parse. *)
Definition repair (content : string) : string :=
  drop_trailing_commas (escape_breaks (strip_controls content)).

(** [process_lesson_content(content, topic)]; the topic is used for log
    messages only. *)
Definition process_lesson_content (content : string) (topic : string) :
  option json :=
  let content := Text.strip content in
  let content := extract_fenced content in
  let content := extract_object content in
  if Text.startswith content "{" && Text.endswith content "}" then
    match loads content with
    | Some data => Some data
    | None =>
        match loads (repair content) with
        | Some data => Some data
        | None => None
        end
    end
  else None.

(** Whether the parses made of [text], the strict one and, when that one
    fails, the one after the repairs, are [within] the model: then their
    answers are those of [orjson.loads]. *)
Definition parses_within (text : string) : bool :=
  within text
  && match loads text with
     | Some _ => true
     | None => within (repair text)
     end.

(** [html.escape(text)] *)
Fixpoint html_escape (s : string) : string :=
  match s with
  | EmptyString => EmptyString
  | String c s' =>
      (if Ascii.eqb c "&" then "&amp;"
       else if Ascii.eqb c "<" then "&lt;"
       else if Ascii.eqb c ">" then "&gt;"
       else if Ascii.eqb c dquote then "&quot;"
       else if Ascii.eqb c "'" then "&#x27;"
       else String c EmptyString) ++ html_escape s'
  end.

(** The characters removed by [sanitize_text]:
    [<], [>], both quotes, and the control characters other than tab, line
    feed and carriage return. *)
Definition is_dangerous (c : ascii) : bool :=
  let n := Text.code c in
  Ascii.eqb c "<" || Ascii.eqb c ">" || Ascii.eqb c dquote || Ascii.eqb c "'"
  || (n <=? 8) || (n =? 11) || (n =? 12) || ((14 <=? n) && (n <=? 31))
  || ((127 <=? n) && (n <=? 159)).

(** [re.sub(r'\s+', ' ', text)] *)
Fixpoint collapse_spaces (s : string) : string :=
  match s with
  | EmptyString => EmptyString
  | String c s' =>
      if Text.isspace c then
        match s' with
        | String c' _ =>
            if Text.isspace c' then collapse_spaces s'
            else String " " (collapse_spaces s')
        | EmptyString => String " " EmptyString
        end
      else String c (collapse_spaces s')
  end.

(** [sanitize_text(text)] *)
Definition sanitize_text (text : string) : string :=
  match text with
  | EmptyString => EmptyString
  | _ =>
      let text := html_escape text in
      let text := Text.filter (fun c => negb (is_dangerous c)) text in
      Text.strip (collapse_spaces text)
  end.

Record SectionItem := { title : string; content : string }.

(** [SectionItem(title=t, content=c)]: the length bounds of the fields,
    then the sanitising validator.  [None] stands for the validation error.
    A value that is not a string is refused. *)
Definition make_section (t c : json) : option SectionItem :=
  match t, c with
  | JStr t, JStr c =>
      let lt := String.length t in
      let lc := String.length c in
      if (1 <=? lt)%nat && (lt <=? 200)%nat && (10 <=? lc)%nat && (lc <=? 5000)%nat
      then Some {| title := sanitize_text t; content := sanitize_text c |}
      else None
  | _, _ => None
  end.

(** What a [for] loop over a JSON value visits; [None] where the value is
    not iterable. *)
Definition iterate (v : json) : option (list json) :=
  match v with
  | JArr items => Some items
  | JObj fields => Some (List.map (fun kv => JStr (fst kv)) fields)
  | JStr s => Some (List.map (fun c => JStr (String c EmptyString)) (list_ascii_of_string s))
  | _ => None
  end.

(** Python truth of a JSON value. *)
Definition truthy (v : json) : bool :=
  match v with
  | JNull => false
  | JBool b => b
  | JNum lit => negb (is_zero lit)
  | JStr s => negb (String.eqb s "")
  | JArr items => match items with [] => false | _ => true end
  | JObj fields => match fields with [] => false | _ => true end
  end.

Fixpoint collect_sections (items : list json) : option (list SectionItem) :=
  match items with
  | [] => Some []
  | sec :: items' =>
      match sec with
      | JObj fields =>
          match dict_get "title" fields, dict_get "content" fields with
          | Some t, Some c =>
              match make_section t c with
              | Some item =>
                  match collect_sections items' with
                  | Some rest => Some (item :: rest)
                  | None => None
                  end
              | None => None
              end
          | _, _ => collect_sections items'
          end
      | _ => collect_sections items'
      end
  end.

(** [process_sections(data)] on a parsed object; [None] where the Python
    code raises. *)
Definition process_sections (data : json) : option (list SectionItem) :=
  match data with
  | JObj fields =>
      let secs :=
        match dict_get "sections" fields with
        | Some v => iterate v
        | None => Some []
        end in
      match secs with
      | None => None
      | Some items =>
          match collect_sections items with
          | None => None
          | Some sections =>
              match dict_get "diagram_description" fields with
              | Some d =>
                  if truthy d then
                    match make_section (JStr "Diagram Description") d with
                    | Some item => Some (sections ++ [item])%list
                    | None => None
                    end
                  else Some sections
              | None => Some sections
              end
          end
      end
  | _ => None
  end.

(** A literal of the source text written with ['] for the double quote and
    [~] for the line feed. *)
Definition lit (s : string) : string :=
  Text.replace_char "~" (String (Text.chr 10) EmptyString)
    (Text.replace_char "'" (String dquote EmptyString) s).

(** The fenced document with a trailing comma. *)
Definition fenced_input : string :=
  lit "```json~{'sections':[{'title':'A','content':'Some content here'}],}~```".

End Normalizer.

(** ** cachetools.TTLCache *)

(** Clock readings are whole numbers of ticks; [second] ticks make one
    second.  The proofs use only that [second] is positive. *)
Definition second : Z := 1000000000.

Module TTLCache.

Section Cache.

Context {V : Type}.

(** One cache: its capacity, its time-to-live in seconds and its entries,
    each a key with its value and its expiry time.  The entries are kept in
    the order of the cache's [OrderedDict]: least recently used first.
    Every value has size 1.  The clock of a cache never runs backwards and
    its time-to-live is fixed, so the entries that have expired are those
    the sweep of [expire] removes. *)
Record t := Cache {
  maxsize : Z;
  ttl : Z;
  links : list (string * (V * Z))
}.

(** [TTLCache(maxsize, ttl)] *)
Definition new (maxsize ttl : Z) : t := Cache maxsize ttl [].

Fixpoint lookup (k : string) (l : list (string * (V * Z))) : option (V * Z) :=
  match l with
  | [] => None
  | (k', e) :: l' => if String.eqb k k' then Some e else lookup k l'
  end.

Fixpoint remove (k : string) (l : list (string * (V * Z))) :
  list (string * (V * Z)) :=
  match l with
  | [] => []
  | (k', e) :: l' => if String.eqb k k' then remove k l' else (k', e) :: remove k l'
  end.

(** [expire(time)]: the entries with [time < expires] stay. *)
Definition sweep (now : Z) (l : list (string * (V * Z))) : list (string * (V * Z)) :=
  List.filter (fun e => now <? snd (snd e)) l.

Definition expire (now : Z) (c : t) : t :=
  Cache (maxsize c) (ttl c) (sweep now (links c)).

(** [key in cache] *)
Definition contains (now : Z) (k : string) (c : t) : bool :=
  match lookup k (links c) with
  | Some (_, expires) => now <? expires
  | None => false
  end.

(** [cache.get(key)]: the value of an entry that has not expired, which
    becomes the most recently used one. *)
Definition get (now : Z) (k : string) (c : t) : option V * t :=
  match lookup k (links c) with
  | Some (v, expires) =>
      if now <? expires
      then (Some v, Cache (maxsize c) (ttl c) (remove k (links c) ++ [(k, (v, expires))]))
      else (None, c)
  | None => (None, c)
  end.

(** The loop [while currsize + 1 > maxsize: popitem()]: the least recently
    used entries go until one more fits. *)
Fixpoint make_room (maxsize : Z) (l : list (string * (V * Z))) :
  list (string * (V * Z)) :=
  match l with
  | [] => []
  | _ :: l' =>
      if maxsize <? Z.of_nat (List.length l) + 1 then make_room maxsize l' else l
  end.

(** [cache[key] = value].  Expired entries are swept first; a cache of
    capacity below 1 raises [ValueError] ([None] in the first component). *)
Definition setitem (now : Z) (k : string) (v : V) (c : t) : option unit * t :=
  let c1 := expire now c in
  if maxsize c <? 1 then (None, c1)
  else
    let kept :=
      match lookup k (links c1) with
      | Some _ => remove k (links c1)
      | None => make_room (maxsize c) (links c1)
      end in
    (Some tt, Cache (maxsize c) (ttl c) (kept ++ [(k, (v, now + ttl c * second))])).

(** [del cache[key]]: the entry goes, and [KeyError] ([None] in the first
    component) is raised when there is none and also when the entry that
    went had expired. *)
Definition delitem (now : Z) (k : string) (c : t) : option unit * t :=
  match lookup k (links c) with
  | Some (_, expires) =>
      (if now <? expires then Some tt else None,
       Cache (maxsize c) (ttl c) (remove k (links c)))
  | None => (None, c)
  end.

(** [len(cache)], which sweeps the expired entries. *)
Definition len (now : Z) (c : t) : Z * t :=
  let c1 := expire now c in (Z.of_nat (List.length (links c1)), c1).

(** The keys are pairwise different. *)
Definition wf (c : t) : Prop := NoDup (links c).*1.

(** The number of entries that have not expired at [now]. *)
Definition live (now : Z) (c : t) : Z := Z.of_nat (List.length (sweep now (links c))).

End Cache.

Arguments t V : clear implicits.

End TTLCache.

(** ** MemoryCacheRepository (memory_cache_repository.py) *)

Module MemoryCacheRepository.

Section Repository.

Context {V : Type}.

(** The repository: one [TTLCache] per namespace, the defaults given to the
    constructor and the counters of [_stats].  Values are Python objects
    other than [None]. *)
Record t := Repo {
  _caches : gmap string (TTLCache.t V);
  _default_ttl : Z;
  _default_maxsize : Z;
  hits : Z;
  misses : Z;
  errors : Z
}.

(** [MemoryCacheRepository(default_ttl, maxsize)] *)
Definition new (default_ttl maxsize : Z) : t :=
  Repo ∅ default_ttl maxsize 0 0 0.

Definition with_cache (namespace : string) (c : TTLCache.t V) (r : t) : t :=
  Repo (<[namespace := c]> (_caches r)) (_default_ttl r) (_default_maxsize r)
       (hits r) (misses r) (errors r).

(** [_get_cache(namespace)]: the cache of the namespace, created on first
    use. *)
Definition _get_cache (namespace : string) (r : t) : TTLCache.t V * t :=
  match _caches r !! namespace with
  | Some c => (c, r)
  | None =>
      let c := TTLCache.new (_default_maxsize r) (_default_ttl r) in
      (c, with_cache namespace c r)
  end.

(** [get(key, namespace)] at clock reading [now]. *)
Definition get (now : Z) (key namespace : string) (r : t) : option V * t :=
  let '(cache, r) := _get_cache namespace r in
  let '(val, cache) := TTLCache.get now key cache in
  let r := with_cache namespace cache r in
  match val with
  | None =>
      (None, Repo (_caches r) (_default_ttl r) (_default_maxsize r)
                  (hits r) (misses r + 1) (errors r))
  | Some v =>
      (Some v, Repo (_caches r) (_default_ttl r) (_default_maxsize r)
                    (hits r + 1) (misses r) (errors r))
  end.

Definition count_error (r : t) : t :=
  Repo (_caches r) (_default_ttl r) (_default_maxsize r)
       (hits r) (misses r) (errors r + 1).

(** [set(key, value, ttl, namespace)] at clock reading [now]: with a
    positive [ttl] a fresh cache holding this one entry takes the place of
    the namespace's cache; without one the entry goes into the cache the
    namespace has. *)
Definition set (now : Z) (key : string) (value : V) (ttl : option Z)
    (namespace : string) (r : t) : bool * t :=
  let '(cache, r) := _get_cache namespace r in
  let positive_ttl :=
    match ttl with
    | Some n => if 0 <? n then Some n else None
    | None => None
    end in
  match positive_ttl with
  | Some n =>
      let temp := TTLCache.new (TTLCache.maxsize cache) n in
      match TTLCache.setitem now key value temp with
      | (Some _, temp) => (true, with_cache namespace temp r)
      | (None, _) => (false, count_error r)
      end
  | None =>
      match TTLCache.setitem now key value cache with
      | (Some _, cache) => (true, with_cache namespace cache r)
      | (None, cache) => (false, count_error (with_cache namespace cache r))
      end
  end.

(** [delete(key, namespace)]: the test [key in cache] reads the clock at
    [now] and [del cache[key]] reads it again at [later]; an entry that
    expires between the two readings is removed with a [KeyError], which
    the [except] clause counts and answers with [False]. *)
Definition delete (now later : Z) (key namespace : string) (r : t) : bool * t :=
  let '(cache, r) := _get_cache namespace r in
  if TTLCache.contains now key cache then
    match TTLCache.delitem later key cache with
    | (Some _, cache) => (true, with_cache namespace cache r)
    | (None, cache) => (false, count_error (with_cache namespace cache r))
    end
  else (true, r).

(** [exists(key, namespace)] *)
Definition exists_ (now : Z) (key namespace : string) (r : t) : bool * t :=
  let '(cache, r) := _get_cache namespace r in
  (TTLCache.contains now key cache, r).

(** One call on the repository, with the clock reading it is made at;
    [delete] reads the clock twice. *)
Inductive call :=
| CallGet (now : Z) (key namespace : string)
| CallSet (now : Z) (key : string) (value : V) (ttl : option Z) (namespace : string)
| CallDelete (now later : Z) (key namespace : string)
| CallExists (now : Z) (key namespace : string).

Definition step (r : t) (c : call) : t :=
  match c with
  | CallGet now key namespace => snd (get now key namespace r)
  | CallSet now key value ttl namespace => snd (set now key value ttl namespace r)
  | CallDelete now later key namespace => snd (delete now later key namespace r)
  | CallExists now key namespace => snd (exists_ now key namespace r)
  end.

Definition run (calls : list call) (r : t) : t := fold_left step calls r.

End Repository.

Arguments t V : clear implicits.
Arguments call V : clear implicits.

End MemoryCacheRepository.

(** ** The in-process caches of main.py *)

Module MainCache.

(** [CACHE_CONFIG]: namespace, time-to-live in seconds, capacity. *)
Definition CACHE_CONFIG : list (string * (Z * Z)) :=
  [ ("lessons", (7200, 1000));
    ("tts", (3600, 500));
    ("history", (300, 100));
    ("popular", (86400, 50));
    ("math", (1800, 200)) ].

Section Caches.

Context {V : Type}.

(** [caches]: one [TTLCache] per configured namespace. *)
Definition caches_of (config : list (string * (Z * Z))) : gmap string (TTLCache.t V) :=
  list_to_map
    (List.map (fun nc => (fst nc, TTLCache.new (snd (snd nc)) (fst (snd nc)))) config).

Definition caches : gmap string (TTLCache.t V) := caches_of CACHE_CONFIG.

(** [get_cache(key, namespace)].  The test [if cache:] asks whether the
    cache holds an entry, not whether the namespace is configured. *)
Definition get_cache (now : Z) (key namespace : string)
    (cs : gmap string (TTLCache.t V)) : option V * gmap string (TTLCache.t V) :=
  match cs !! namespace with
  | Some cache =>
      let '(n, cache) := TTLCache.len now cache in
      if 0 <? n then
        let '(result, cache) := TTLCache.get now key cache in
        (result, <[namespace := cache]> cs)
      else (None, <[namespace := cache]> cs)
  | None => (None, cs)
  end.

(** [set_cache(key, value, ttl, namespace)]; the [ttl] argument is not
    used.  The [ValueError] of a cache without capacity, which the Python
    code lets through, is answered [false]. *)
Definition set_cache (now : Z) (key : string) (value : V) (ttl : option Z)
    (namespace : string) (cs : gmap string (TTLCache.t V)) :
  bool * gmap string (TTLCache.t V) :=
  match cs !! namespace with
  | Some cache =>
      let '(n, cache) := TTLCache.len now cache in
      if 0 <? n then
        match TTLCache.setitem now key value cache with
        | (Some _, cache) => (true, <[namespace := cache]> cs)
        | (None, cache) => (false, <[namespace := cache]> cs)
        end
      else (false, <[namespace := cache]> cs)
  | None => (false, cs)
  end.

(** The loop of [warm_cache] over the items to store. *)
Fixpoint store_all (now : Z) (items : list (string * V)) (cache : TTLCache.t V) :
  TTLCache.t V :=
  match items with
  | [] => cache
  | (key, value) :: items' =>
      store_all now items' (snd (TTLCache.setitem now key value cache))
  end.

(** [warm_cache(namespace, keys_values)]; every configured capacity is at
    least 1, so no store raises. *)
Definition warm_cache (now : Z) (namespace : string) (keys_values : list (string * V))
    (cs : gmap string (TTLCache.t V)) : bool * gmap string (TTLCache.t V) :=
  match cs !! namespace with
  | Some cache =>
      let '(n, cache) := TTLCache.len now cache in
      if 0 <? n then (true, <[namespace := store_all now keys_values cache]> cs)
      else (false, <[namespace := cache]> cs)
  | None => (false, cs)
  end.

Inductive call :=
| GetCache (now : Z) (key namespace : string)
| SetCache (now : Z) (key : string) (value : V) (ttl : option Z) (namespace : string)
| WarmCache (now : Z) (namespace : string) (keys_values : list (string * V)).

Definition step (cs : gmap string (TTLCache.t V)) (c : call) :
  gmap string (TTLCache.t V) :=
  match c with
  | GetCache now key namespace => snd (get_cache now key namespace cs)
  | SetCache now key value ttl namespace => snd (set_cache now key value ttl namespace cs)
  | WarmCache now namespace keys_values => snd (warm_cache now namespace keys_values cs)
  end.

Definition run (calls : list call) (cs : gmap string (TTLCache.t V)) :
  gmap string (TTLCache.t V) := fold_left step calls cs.

End Caches.

Arguments call V : clear implicits.

End MainCache.

(** ** RateLimitMiddleware (main.py) *)

Module RateLimit.

(** The middleware object: the default limits, the per-endpoint table
    (per minute, per hour), and the in-memory fallback store with the time
    of its last sweep.  [cleanup_interval] is in seconds. *)
Record Middleware := {
  calls_per_minute : Z;
  calls_per_hour : Z;
  endpoint_limits : gmap string (Z * Z);
  memory_store : gmap string (list Z);
  cleanup_interval : Z;
  last_cleanup : Z
}.

Definition production_limits : gmap string (Z * Z) :=
  list_to_map
    [ ("/api/structured-lesson", (20, 300));
      ("/api/structured-lesson/stream", (20, 300));
      ("/api/tts", (15, 150));
      ("/api/solve-math", (30, 400));
      ("/api/social", (50, 500)) ].

Definition development_limits : gmap string (Z * Z) :=
  list_to_map
    [ ("/api/structured-lesson", (30, 500));
      ("/api/structured-lesson/stream", (30, 500));
      ("/api/tts", (20, 200));
      ("/api/solve-math", (40, 600));
      ("/api/social", (100, 1000)) ].

(** [RateLimitMiddleware(app, calls_per_minute, calls_per_hour)], created
    at clock reading [now]; [is_prod] is whether NODE_ENV is production. *)
Definition new (calls_per_minute calls_per_hour : Z) (is_prod : bool) (now : Z) :
  Middleware :=
  {| calls_per_minute := calls_per_minute;
     calls_per_hour := calls_per_hour;
     endpoint_limits := if is_prod then production_limits else development_limits;
     memory_store := ∅;
     cleanup_interval := 300;
     last_cleanup := now |}.

Definition with_store (store : gmap string (list Z)) (m : Middleware) : Middleware :=
  {| calls_per_minute := calls_per_minute m;
     calls_per_hour := calls_per_hour m;
     endpoint_limits := endpoint_limits m;
     memory_store := store;
     cleanup_interval := cleanup_interval m;
     last_cleanup := last_cleanup m |}.

Definition with_last_cleanup (t : Z) (m : Middleware) : Middleware :=
  {| calls_per_minute := calls_per_minute m;
     calls_per_hour := calls_per_hour m;
     endpoint_limits := endpoint_limits m;
     memory_store := memory_store m;
     cleanup_interval := cleanup_interval m;
     last_cleanup := t |}.

(** [cleanup_memory_store()] at clock reading [current_time]: time stamps
    an hour old or older go, and so do the keys left without any. *)
Definition cleanup_memory_store (current_time : Z) (m : Middleware) : Middleware :=
  with_store
    (omap (fun timestamps =>
             match List.filter (fun t => current_time - t <? 3600 * second) timestamps with
             | [] => None
             | kept => Some kept
             end)
          (memory_store m))
    m.

(** [check_rate_limit_memory(key, limit, window)].  [current_time] is the
    clock reading of the check and [sweep_time] the later one made by
    [cleanup_memory_store] when the sweep is due. *)
Definition check_rate_limit_memory (key : string) (limit window : Z)
    (current_time sweep_time : Z) (m : Middleware) : (bool * Z) * Middleware :=
  let m :=
    if cleanup_interval m * second <? current_time - last_cleanup m
    then with_last_cleanup current_time (cleanup_memory_store sweep_time m)
    else m in
  let entries := default [] (memory_store m !! key) in
  let window_start := current_time - window * second in
  let kept := List.filter (fun timestamp => window_start <? timestamp) entries in
  let current_count := Z.of_nat (List.length kept) in
  if current_count <? limit then
    ((true, current_count + 1),
     with_store (<[key := (kept ++ [current_time])%list]> (memory_store m)) m)
  else
    ((false, current_count), with_store (<[key := kept]> (memory_store m)) m).

(** The Redis side: the name [redis_cache] may be undefined; when it is
    defined it is aiocache's cache object, and the server behind it is
    unreachable or holds one sorted set (member to score) per key. *)
Inductive Redis :=
| NotConfigured
| Unreachable
| Serving (db : gmap string (gmap string Z)).

(** [redis_cache._client]: aiocache's cache object has no attribute of that
    name, whatever the server does, and the access raises [AttributeError]
    ([None]). *)
Definition _client (redis : Redis) : option (gmap string (gmap string Z)) := None.

(** [check_rate_limit_redis(key, limit, window)]: on the client the
    pipeline removes the members scored up to the start of the window,
    counts what is left, adds the current second as a member and returns
    the count taken before the addition; the expiry set on the key only
    drops sets whose members have all left the window, and is left out.
    When a step raises, and the first one, which asks for the client,
    does, the [except] clause answers with the in-memory check. *)
Definition check_rate_limit_redis (key : string) (limit window : Z)
    (reading sweep_time : Z) (redis : Redis) (m : Middleware) :
  (bool * Z) * (Redis * Middleware) :=
  match _client redis with
  | Some db =>
      let current_time := reading / second in
      let window_start := current_time - window in
      let zset := default ∅ (db !! key) in
      let zset := filter (fun ms => ¬ (0 <= ms.2 <= window_start)) zset in
      let current_count := Z.of_nat (size zset) in
      let zset := <[pretty current_time := current_time]> zset in
      ((current_count <? limit, current_count), (Serving (<[key := zset]> db), m))
  | None =>
      let '(res, m) := check_rate_limit_memory key limit window reading sweep_time m in
      (res, (redis, m))
  end.

Record Request := {
  path : string;
  x_forwarded_for : option string;
  x_real_ip : option string;
  client_host : option string
}.

(** The text before the first comma. *)
Fixpoint first_field (s : string) : string :=
  match s with
  | EmptyString => EmptyString
  | String c s' => if Ascii.eqb c "," then EmptyString else String c (first_field s')
  end.

Definition nonempty (o : option string) : option string :=
  match o with
  | Some EmptyString => None
  | _ => o
  end.

(** [get_client_ip(request)] *)
Definition get_client_ip (request : Request) : string :=
  match nonempty (x_forwarded_for request) with
  | Some forwarded_for => Text.strip (first_field forwarded_for)
  | None =>
      match nonempty (x_real_ip request) with
      | Some real_ip => real_ip
      | None =>
          match client_host request with
          | Some host => host
          | None => "unknown"
          end
      end
  end.

Definition exempt_paths : list string :=
  ["/health"; "/api/health"; "/docs"; "/redoc"; "/openapi.json"].

(** The limits of an endpoint: per minute, per hour. *)
Definition limits_of (m : Middleware) (endpoint : string) : Z * Z :=
  default (calls_per_minute m, calls_per_hour m) (endpoint_limits m !! endpoint).

Definition minute_key (client_ip endpoint : string) (reading : Z) : string :=
  "rate_limit:" ++ client_ip ++ ":" ++ endpoint ++ ":minute:"
  ++ pretty (reading / (60 * second)).

Definition hour_key (client_ip endpoint : string) (reading : Z) : string :=
  "rate_limit:" ++ client_ip ++ ":" ++ endpoint ++ ":hour:"
  ++ pretty (reading / (3600 * second)).

(** The clock readings of one pass through [dispatch], in the order they
    are made. *)
Record Readings := {
  at_minute_key : Z;
  at_hour_key : Z;
  at_minute_check : Z;
  at_minute_sweep : Z;
  at_hour_check : Z;
  at_hour_sweep : Z
}.

(** What [dispatch] answers: the request goes on without rate-limit
    headers, goes on with the remaining quota of both windows, or is
    refused with status 429. *)
Inductive Outcome :=
| Exempt
| Allowed (remaining_minute remaining_hour : Z)
| TooManyRequests (retry_after limit remaining : Z).

(** [dispatch(request, call_next)] *)
Definition dispatch (request : Request) (clock : Readings)
    (redis : Redis) (m : Middleware) : Outcome * (Redis * Middleware) :=
  if bool_decide (path request ∈ exempt_paths) then (Exempt, (redis, m))
  else
    let client_ip := get_client_ip request in
    let endpoint := path request in
    let '(per_minute, per_hour) := limits_of m endpoint in
    let minute_key := minute_key client_ip endpoint (at_minute_key clock) in
    let hour_key := hour_key client_ip endpoint (at_hour_key clock) in
    let '((minute_ok, minute_count), (redis, m)) :=
      match redis with
      | NotConfigured =>
          let '(res, m) :=
            check_rate_limit_memory minute_key per_minute 60
              (at_minute_check clock) (at_minute_sweep clock) m in
          (res, (redis, m))
      | _ =>
          check_rate_limit_redis minute_key per_minute 60
            (at_minute_check clock) (at_minute_sweep clock) redis m
      end in
    let '((hour_ok, hour_count), (redis, m)) :=
      match redis with
      | NotConfigured =>
          let '(res, m) :=
            check_rate_limit_memory hour_key per_hour 3600
              (at_hour_check clock) (at_hour_sweep clock) m in
          (res, (redis, m))
      | _ =>
          check_rate_limit_redis hour_key per_hour 3600
            (at_hour_check clock) (at_hour_sweep clock) redis m
      end in
    if negb minute_ok then
      (TooManyRequests 60 per_minute (Z.max 0 (per_minute - minute_count)), (redis, m))
    else if negb hour_ok then
      (TooManyRequests 3600 per_hour (Z.max 0 (per_hour - hour_count)), (redis, m))
    else
      (Allowed (Z.max 0 (per_minute - minute_count)) (Z.max 0 (per_hour - hour_count)),
       (redis, m)).

(** Several passes of the same request, one after the other. *)
Fixpoint dispatch_all (request : Request) (clocks : list Readings)
    (redis : Redis) (m : Middleware) : list Outcome * (Redis * Middleware) :=
  match clocks with
  | [] => ([], (redis, m))
  | clock :: clocks' =>
      let '(o, (redis, m)) := dispatch request clock redis m in
      let '(os, s) := dispatch_all request clocks' redis m in
      (o :: os, s)
  end.

(** All readings of one pass are [t]. *)
Definition at_once (t : Z) : Readings := Build_Readings t t t t t t.

End RateLimit.

(** ** The lesson routes of chat.py: stub, computation and in-flight
       deduplication *)

Module Chat.

Record ClassificationItem := { type : string; description : string }.

Record SectionItem := { title : string; content : string }.

Record QuizItem := { q : string; options : list string; answer : string }.

Record StructuredLessonResponse := {
  id : option string;
  introduction : option string;
  classifications : list ClassificationItem;
  sections : list SectionItem;
  diagram : string;
  quiz : list QuizItem
}.

(** A lesson with the tag of its source; as the code stands the tag is
    always ["stub"]. *)
Definition Lesson : Type := StructuredLessonResponse * string.

(** What the upstream completion call does when it is made: it raises, or
    it returns a message whose content may be missing. *)
Inductive Upstream :=
| Raises
| Returns (content : option string).

(** What an awaited [_compute_structured_lesson] does: it runs against the
    upstream, or it breaks with an exception none of its handlers takes. *)
Inductive Compute :=
| Computes (upstream : Upstream)
| Breaks.

Definition nl : string := String (Text.chr 10) EmptyString.

Section Lessons.

(** [str(uuid.uuid4())]: the identifier drawn at the [n]-th draw. *)
Variable uuid4 : nat -> string.

Definition error_message (topic : string) : string :=
  "Unable to generate a detailed lesson about '" ++ topic
  ++ "' at this time. This could be due to high demand or a temporary issue. Please try again later or ask about a different topic.".

(** [_stub_lesson(topic, age)] with the identifier it draws. *)
Definition _stub_lesson (topic : string) (age : option Z) (identifier : string) :
  StructuredLessonResponse :=
  {| id := Some identifier;
     introduction := Some (error_message topic);
     classifications := [];
     sections :=
       [ {| title := "Service Temporarily Unavailable";
            content := error_message topic |};
         {| title := "Try These Alternatives";
            content := "1. Try rephrasing your question" ++ nl
                       ++ "2. Ask about a different topic" ++ nl
                       ++ "3. Check back in a few minutes" ++ nl
                       ++ "4. Contact support if the issue persists" |} ];
     diagram := "";
     quiz :=
       [ {| q := "What should you do when a lesson fails to generate?";
            options := [ "A) Try rephrasing the question";
                         "B) Ask about a different topic";
                         "C) Check back later";
                         "D) All of the above" ];
            answer := "D) All of the above" |} ] |}.

(** [_compute_structured_lesson(cache_key, topic, age, groq_client)].
    [groq_client] is [None] when there is no client and otherwise what the
    upstream does with this call; [drawn] counts the identifiers drawn so
    far.  With a client, the [try] block raises on its way (the completion
    call, the parse of the content, the mapping of the fields) or reaches
    the response it builds with [uuid.uuid4()]: the name [uuid] is bound in
    [_stub_lesson] and in [_run] only, each by an import of its own, so the
    call raises [NameError] before an identifier is drawn.  Either way the
    [except] clause answers with the stub, as the [else] branch does
    without a client. *)
Definition _compute_structured_lesson (cache_key topic : string) (age : option Z)
    (groq_client : option Upstream) (drawn : nat) : Lesson * nat :=
  match groq_client with
  | Some Raises => ((_stub_lesson topic age (uuid4 drawn), "stub"), S drawn)
  | Some (Returns content) => ((_stub_lesson topic age (uuid4 drawn), "stub"), S drawn)
  | None => ((_stub_lesson topic age (uuid4 drawn), "stub"), S drawn)
  end.

(** A scheduled [_run] task: the future it settles and the arguments of
    the call that created it. *)
Record Task := {
  task_future : nat;
  task_key : string;
  task_topic : string;
  task_age : option Z;
  task_client : bool
}.

(** The event loop as the lesson routes see it: the registry
    [_INFLIGHT_LESSONS] from keys to futures, the futures created so far
    (pending or done), the [_run] tasks scheduled and not yet run, the
    number of times [_compute_structured_lesson] was awaited and the number
    of identifiers drawn. *)
Record Loop := {
  _INFLIGHT_LESSONS : gmap string nat;
  futures : list (option Lesson);
  tasks : list Task;
  computations : nat;
  drawn : nat
}.

Definition empty_loop : Loop :=
  {| _INFLIGHT_LESSONS := ∅; futures := []; tasks := []; computations := 0; drawn := 0 |}.

(** [fut.done()] *)
Definition done (fut : nat) (L : Loop) : bool :=
  match futures L !! fut with
  | Some (Some _) => true
  | _ => false
  end.

(** [_get_or_compute_lesson(cache_key, topic, age, groq_client)] up to its
    [await fut]: the future the caller waits on.  A caller that finds a
    pending future joins it; otherwise it creates one, registers it and
    schedules the task that will settle it. *)
Definition _get_or_compute_lesson (cache_key topic : string) (age : option Z)
    (groq_client : bool) (L : Loop) : nat * Loop :=
  let create :=
    let fut := List.length (futures L) in
    (fut,
     {| _INFLIGHT_LESSONS := <[cache_key := fut]> (_INFLIGHT_LESSONS L);
        futures := (futures L ++ [None])%list;
        tasks := (tasks L ++ [ {| task_future := fut; task_key := cache_key;
                                  task_topic := topic; task_age := age;
                                  task_client := groq_client |} ])%list;
        computations := computations L;
        drawn := drawn L |}) in
  match _INFLIGHT_LESSONS L !! cache_key with
  | Some fut => if negb (done fut L) then (fut, L) else create
  | None => create
  end.

(** The loop runs the [i]-th scheduled [_run] task to its end: the
    computation is awaited, the future gets its result (the stub when the
    computation broke) and the key leaves the registry.  [None] when there
    is no such task.  The task is one step: the completion call is a
    blocking call and the coroutines it awaits never yield to the loop. *)
Definition _run (i : nat) (env : Compute) (L : Loop) : option Loop :=
  match tasks L !! i with
  | None => None
  | Some t =>
      let '(result, drawn) :=
        match env with
        | Computes upstream =>
            _compute_structured_lesson (task_key t) (task_topic t) (task_age t)
              (if task_client t then Some upstream else None) (drawn L)
        | Breaks =>
            let stub_result := _stub_lesson (task_topic t) (task_age t) (uuid4 (drawn L)) in
            (({| id := Some (uuid4 (S (drawn L)));
                 introduction := introduction stub_result;
                 classifications := classifications stub_result;
                 sections := sections stub_result;
                 diagram := diagram stub_result;
                 quiz := quiz stub_result |}, "stub"), S (S (drawn L)))
        end in
      Some {| _INFLIGHT_LESSONS := delete (task_key t) (_INFLIGHT_LESSONS L);
              futures := <[task_future t := Some result]> (futures L);
              tasks := delete i (tasks L);
              computations := S (computations L);
              drawn := drawn |}
  end.

(** What [await fut] is for a caller: still pending, a result received, or
    an exception raised in the caller.  The code settles its futures with
    [set_result] only. *)
Inductive Awaited :=
| Pending
| Received (result : Lesson)
| Raised.

Definition awaited (fut : nat) (L : Loop) : Awaited :=
  match futures L !! fut with
  | Some (Some result) => Received result
  | _ => Pending
  end.

(** Callers entering one after the other, each up to its [await]. *)
Fixpoint enter_all (cache_key : string) (callers : list (string * option Z * bool))
    (L : Loop) : list nat * Loop :=
  match callers with
  | [] => ([], L)
  | (topic, age, groq_client) :: callers' =>
      let '(fut, L) := _get_or_compute_lesson cache_key topic age groq_client L in
      let '(futs, L) := enter_all cache_key callers' L in
      (fut :: futs, L)
  end.

End Lessons.

End Chat.

(** ** The lesson endpoint of main.py *)

Module Main.

Record ClassificationItem := { type : string; description : string }.

Record QuizItem := { q : string; options : list string; answer : string }.

Record StructuredLessonResponse := {
  introduction : option string;
  classifications : list ClassificationItem;
  sections : list Normalizer.SectionItem;
  diagram : string;
  quiz : list QuizItem
}.

Record StructuredLessonRequest := { topic : string; age : option Z }.

(** The answer of the endpoint: the lesson with status 200, or an error
    status. *)
Inductive Http :=
| Ok200 (response : StructuredLessonResponse)
| HttpError (status_code : Z).

(** The Redis cache behind [get_cache] and [set_cache]: unreachable, or a
    map from full keys to a value and its expiry time. *)
Inductive Store :=
| Down
| Up (db : gmap string (StructuredLessonResponse * Z)).

Record Server := { cache : Store; upstream_calls : nat }.

(** [get_cache(key, namespace)]: a failure of the store counts as a miss. *)
Definition get_cache (now : Z) (key namespace : string) (s : Server) :
  option StructuredLessonResponse :=
  match cache s with
  | Down => None
  | Up db =>
      match db !! (namespace ++ ":" ++ key) with
      | Some (v, expires) => if now <? expires then Some v else None
      | None => None
      end
  end.

(** [set_cache(key, value, ttl, namespace)] *)
Definition set_cache (now : Z) (key : string) (value : StructuredLessonResponse)
    (ttl : Z) (namespace : string) (s : Server) : bool * Server :=
  match cache s with
  | Down => (false, s)
  | Up db =>
      (true,
       {| cache := Up (<[namespace ++ ":" ++ key := (value, now + ttl * second)]> db);
          upstream_calls := upstream_calls s |})
  end.

Definition social_words : list string :=
  [ "hello"; "hi"; "hey"; "thank"; "thanks";
    "good morning"; "good afternoon"; "good evening"; "how are you" ].

(** [is_social_greeting(topic)] *)
Definition is_social_greeting (topic : string) : bool :=
  bool_decide (Text.strip (Text.lower topic) ∈ social_words).

(** A request suspended on the upstream call: the topic as sent, the
    stripped topic and the cache key. *)
Record Suspended := {
  body_topic : string;
  stripped_topic : string;
  cache_key : string
}.

(** The data put in place of a completion that does not parse. *)
Definition fallback_data (t : string) : Json.json :=
  Json.JObj
    [ ("introduction",
       Json.JObj [ ("definition", Json.JStr ("Learn about " ++ t));
                   ("relevance", Json.JStr "") ]);
      ("sections",
       Json.JArr
         [ Json.JObj [ ("title", Json.JStr ("Introduction to " ++ t));
                       ("content", Json.JStr ("Overview of " ++ t ++ ".")) ] ]);
      ("classifications", Json.JArr []);
      ("quiz", Json.JArr []) ].

(** The parsed data of a completion: the strict parse, the parse after
    repair, or the fallback data. *)
Definition parse_completion (t : string) (content : option string) : Json.json :=
  let content := Text.strip (default "" content) in
  let content := Normalizer.extract_fenced content in
  let content := Normalizer.extract_object content in
  match Json.loads content with
  | Some data => data
  | None =>
      match Json.loads (Normalizer.repair content) with
      | Some data => data
      | None => fallback_data t
      end
  end.

Section Endpoint.

(** The response built for a social greeting; its text lies outside the
    alphabet of the model. *)
Variable greeting : StructuredLessonResponse.

(** The response assembled from the parsed data and validated (sections,
    quiz, introduction, classifications, diagram); [None] where the
    assembly or the validation raises. *)
Variable assemble : Json.json -> option StructuredLessonResponse.

(** [structured_lesson(body)] up to the upstream call: a cached lesson or
    the greeting is answered at once; otherwise the upstream is called and
    the request waits for it. *)
Definition structured_lesson_begin (now : Z) (body : StructuredLessonRequest)
    (s : Server) : (Http + Suspended) * Server :=
  let topic := Text.strip (topic body) in
  let cache_key := get_cache_key topic in
  match get_cache now cache_key "lessons" s with
  | Some cached_result => (inl (Ok200 cached_result), s)
  | None =>
      if is_social_greeting topic then
        (inl (Ok200 greeting), snd (set_cache now cache_key greeting 7200 "lessons" s))
      else
        (inr {| body_topic := Main.topic body; stripped_topic := topic;
                cache_key := cache_key |},
         {| cache := cache s; upstream_calls := S (upstream_calls s) |})
  end.

(** [structured_lesson(body)] from the return of the upstream call: an
    exception of the call, or of anything after it, becomes status 500. *)
Definition structured_lesson_finish (now : Z) (p : Suspended) (upstream : Chat.Upstream)
    (s : Server) : Http * Server :=
  match upstream with
  | Chat.Raises => (HttpError 500, s)
  | Chat.Returns content =>
      let data := parse_completion (body_topic p) content in
      match assemble data with
      | Some response =>
          (Ok200 response, snd (set_cache now (cache_key p) response 7200 "lessons" s))
      | None => (HttpError 500, s)
      end
  end.

End Endpoint.

End Main.

(** ** Further functions of main.py: extraction, parsing with fallback and
       the assembly of the lesson response *)

Module MainParsing.

Import Json.

(** [clean_and_extract_json(content)] *)
Definition clean_and_extract_json (content : string) : string :=
  Normalizer.extract_object (Normalizer.extract_fenced (Text.strip content)).

(** [create_fallback_lesson(topic)] *)
Definition create_fallback_lesson (topic : string) : json :=
  JObj
    [ ("introduction", JObj [ ("definition", JStr ("Learn about " ++ topic)) ]);
      ("sections",
       JArr [ JObj [ ("title", JStr ("Introduction to " ++ topic));
                     ("content", JStr ("This covers the basics of " ++ topic ++ ".")) ] ]);
      ("classifications", JArr []);
      ("quiz_questions",
       JArr [ JObj [ ("question", JStr ("What is " ++ topic ++ "?"));
                     ("options", JArr [ JStr "A) A concept"; JStr "B) A skill";
                                        JStr "C) Both" ]);
                     ("correct_answer", JStr "C) Both") ] ]) ].

(** [parse_lesson_content(content, topic)] *)
Definition parse_lesson_content (content topic : string) : json :=
  match loads content with
  | Some data => data
  | None =>
      match loads (Normalizer.repair content) with
      | Some data => data
      | None => create_fallback_lesson topic
      end
  end.

(** The items of [process_quiz]: the dicts that carry a question, options
    and a correct answer, as the triple of these three values. *)
Fixpoint collect_quiz (items : list json) : list (json * json * json) :=
  match items with
  | [] => []
  | JObj fields :: items' =>
      match dict_get "question" fields, dict_get "options" fields,
            dict_get "correct_answer" fields with
      | Some q, Some o, Some a => (q, o, a) :: collect_quiz items'
      | _, _, _ => collect_quiz items'
      end
  | _ :: items' => collect_quiz items'
  end.

(** [process_quiz(data)]; [None] where the Python code raises. *)
Definition process_quiz (data : json) : option (list (json * json * json)) :=
  match data with
  | JObj fields =>
      match dict_get "quiz_questions" fields with
      | Some v =>
          match Normalizer.iterate v with
          | Some items => Some (collect_quiz items)
          | None => None
          end
      | None => Some []
      end
  | _ => None
  end.

(** [safe_process_sections()] and [safe_process_quiz()] of
    [structured_lesson]: an exception gives the empty list. *)
Definition safe_process_sections (data : json) : list Normalizer.SectionItem :=
  default [] (Normalizer.process_sections data).

Definition safe_process_quiz (data : json) : list (json * json * json) :=
  default [] (process_quiz data).

Definition within (lo hi : nat) (s : string) : bool :=
  (lo <=? String.length s)%nat && (String.length s <=? hi)%nat.

(** [QuizItem(q=.., options=.., answer=..)] from parsed values: the bounds
    of the fields, then the validators.  A value that is not a string, or
    a list of strings for the options, is refused. *)
Fixpoint strings_of (items : list json) : option (list string) :=
  match items with
  | [] => Some []
  | JStr s :: items' =>
      match strings_of items' with
      | Some rest => Some (s :: rest)
      | None => None
      end
  | _ :: _ => None
  end.

Definition make_quiz_item (q o a : json) : option Main.QuizItem :=
  match q, o, a with
  | JStr q, JArr items, JStr a =>
      match strings_of items with
      | Some opts =>
          if within 5 500 q && within 1 200 a
             && (2 <=? List.length opts)%nat && (List.length opts <=? 6)%nat
          then Some {| Main.q := Normalizer.sanitize_text q;
                       Main.options :=
                         List.map Normalizer.sanitize_text
                           (List.filter
                              (fun option => negb (String.eqb (Text.strip option) ""))
                              opts);
                       Main.answer := Normalizer.sanitize_text a |}
          else None
      | None => None
      end
  | _, _, _ => None
  end.

Fixpoint make_quiz (items : list (json * json * json)) : option (list Main.QuizItem) :=
  match items with
  | [] => Some []
  | (q, o, a) :: items' =>
      match make_quiz_item q o a, make_quiz items' with
      | Some item, Some rest => Some (item :: rest)
      | _, _ => None
      end
  end.

(** [ClassificationItem(type=.., description=..)] *)
Definition make_classification (t d : json) : option Main.ClassificationItem :=
  match t, d with
  | JStr t, JStr d =>
      if within 1 100 t && within 1 500 d
      then Some {| Main.type := Normalizer.sanitize_text t;
                   Main.description := Normalizer.sanitize_text d |}
      else None
  | _, _ => None
  end.

(** The classifications of the response: the dicts with a type and a
    description, each validated. *)
Fixpoint collect_classifications (items : list json) :
  option (list Main.ClassificationItem) :=
  match items with
  | [] => Some []
  | JObj fields :: items' =>
      match dict_get "type" fields, dict_get "description" fields with
      | Some t, Some d =>
          match make_classification t d, collect_classifications items' with
          | Some item, Some rest => Some (item :: rest)
          | _, _ => None
          end
      | _, _ => collect_classifications items'
      end
  | _ :: items' => collect_classifications items'
  end.

Section Assemble.

(** [str(value)] of a parsed value that is not a string, as an f-string
    renders it. *)
Variable py_str : json -> string.

Definition format_value (v : option json) : string :=
  match v with
  | None => ""
  | Some (JStr s) => s
  | Some v => py_str v
  end.

(** [intro_str] *)
Definition intro_str (fields : list (string * json)) : option string :=
  match dict_get "introduction" fields with
  | Some (JObj intro) =>
      Some (Text.strip (format_value (dict_get "definition" intro)
                        ++ String (Text.chr 10) EmptyString
                        ++ format_value (dict_get "relevance" intro)))
  | _ => None
  end.

(** The validator of [introduction] and [diagram]: the text is sanitised
    unless it is empty. *)
Definition sanitize_if_any (s : string) : string :=
  match s with
  | EmptyString => s
  | _ => Normalizer.sanitize_text s
  end.

(** The response [structured_lesson] builds from the parsed data and has
    validated: sections and quiz through their safe wrappers, the
    introduction, the classifications and the diagram, then the bounds of
    [StructuredLessonResponse].  [None] where the Python code raises. *)
Definition assemble_response (data : json) : option Main.StructuredLessonResponse :=
  let sections := safe_process_sections data in
  let quiz := safe_process_quiz data in
  match data with
  | JObj fields =>
      let classification_items :=
        match dict_get "classifications" fields with
        | Some v => Normalizer.iterate v
        | None => Some []
        end in
      let diagram :=
        match dict_get "diagram_description" fields with
        | Some (JStr s) => Some s
        | Some _ => None
        | None => Some ""
        end in
      match classification_items with
      | None => None
      | Some items =>
          match collect_classifications items, diagram, make_quiz quiz with
          | Some classifications, Some diagram, Some quiz =>
              if (match intro_str fields with
                  | Some s => (String.length s <=? 2000)%nat
                  | None => true
                  end)
                 && (List.length classifications <=? 10)%nat
                 && (1 <=? List.length sections)%nat
                 && (List.length sections <=? 20)%nat
                 && (String.length diagram <=? 2000)%nat
                 && (1 <=? List.length quiz)%nat
                 && (List.length quiz <=? 10)%nat
              then Some {| Main.introduction := option_map sanitize_if_any (intro_str fields);
                           Main.classifications := classifications;
                           Main.sections := sections;
                           Main.diagram := sanitize_if_any diagram;
                           Main.quiz := quiz |}
              else None
          | _, _, _ => None
          end
      end
  | _ => None
  end.

End Assemble.

End MainParsing.

(** ** chat.py: the mode prefix of a message *)

Module ChatMode.

(** The characters [\w] matches in a [str] pattern, below U+0100. *)
Definition is_word (c : ascii) : bool :=
  let n := Text.code c in
  ((48 <=? n) && (n <=? 57)) || ((65 <=? n) && (n <=? 90)) || (n =? 95)
  || ((97 <=? n) && (n <=? 122))
  || (n =? 170) || (n =? 178) || (n =? 179) || (n =? 181) || (n =? 185)
  || (n =? 186) || (n =? 188) || (n =? 189) || (n =? 190)
  || ((192 <=? n) && (n <=? 214)) || ((216 <=? n) && (n <=? 246))
  || ((248 <=? n) && (n <=? 255)).

(** The longest prefix of word characters and what follows it. *)
Fixpoint word (s : string) : string * string :=
  match s with
  | String c s' =>
      if is_word c then let '(w, r) := word s' in (String c w, r)
      else (EmptyString, s)
  | EmptyString => (EmptyString, EmptyString)
  end.

(** The text up to the first line feed: what the last group of the
    pattern, any characters but a line feed, matches. *)
Fixpoint first_line (s : string) : string :=
  match s with
  | EmptyString => EmptyString
  | String c s' =>
      if Ascii.eqb c (Text.chr 10) then EmptyString else String c (first_line s')
  end.

(** [extract_mode(message)]: on the stripped message, a slash, one or more
    word characters (the mode), white space, and the rest of the line (the
    text). *)
Definition extract_mode (message : string) : string * string :=
  let stripped := Text.strip message in
  match stripped with
  | String "/" r =>
      match word r with
      | (EmptyString, _) => ("chat", stripped)
      | (mode, rest) =>
          (Text.lower mode, Text.strip (first_line (Text.lstrip rest)))
      end
  | _ => ("chat", stripped)
  end.

(** The keys of [MODE_MAP]. *)
Definition MODE_MAP : list string := ["default"; "maths"; "chat"; "quick"].

(** The mode [chat_endpoint] hands the message to, and the text it
    passes. *)
Definition route (message : string) : string * string :=
  let '(mode, clean_text) := extract_mode message in
  (if bool_decide (mode ∈ MODE_MAP) then mode else "default", clean_text).

End ChatMode.

(** ** The event loop of chat.py as a run of events *)

Module Schedule.

(** A caller enters [_get_or_compute_lesson], or the loop runs one of the
    scheduled [_run] tasks. *)
Inductive event :=
| Enter (cache_key topic : string) (age : option Z) (groq_client : bool)
| RunTask (i : nat) (env : Chat.Compute).

Section Run.

Variable uuid4 : nat -> string.

Definition step (L : Chat.Loop) (e : event) : Chat.Loop :=
  match e with
  | Enter cache_key topic age groq_client =>
      snd (Chat._get_or_compute_lesson cache_key topic age groq_client L)
  | RunTask i env => default L (Chat._run uuid4 i env L)
  end.

Definition exec (events : list event) (L : Chat.Loop) : Chat.Loop :=
  fold_left step events L.

End Run.

End Schedule.

(** * Part II: properties *)

(** ** Hash test vectors and the normalisation of cache keys *)

Example md5_empty : MD5.hexdigest [] = "d41d8cd98f00b204e9800998ecf8427e".
Proof. vm_compute. reflexivity. Qed.

Example md5_abc :
  MD5.hexdigest (Text.encode "abc") = "900150983cd24fb0d6963f7d28e17f72".
Proof. vm_compute. reflexivity. Qed.

Example md5_two_blocks :
  MD5.hexdigest (Text.encode
    "12345678901234567890123456789012345678901234567890123456789012345678901234567890")
  = "57edf4a22be3c955ac49da2e2107b67a".
Proof. vm_compute. reflexivity. Qed.

Example get_cache_key_python : get_cache_key "Python" = "lesson:23eeeb4347bdd26b".
Proof. vm_compute. reflexivity. Qed.

(** ** Properties of the cache keys *)

Section KeyNormalisation.

Import Text.

Fixpoint all_space (s : string) : bool :=
  match s with
  | EmptyString => true
  | String c s' => isspace c && all_space s'
  end.

Lemma append_nil_l (s : string) : "" ++ s = s.
Proof. reflexivity. Qed.

Lemma append_cons (c : ascii) (s t : string) : String c s ++ t = String c (s ++ t).
Proof. reflexivity. Qed.

Ltac string_app := rewrite ?append_nil_l, ?append_cons.

Lemma lower_char_idem c : lower_char (lower_char c) = lower_char c.
Proof.
  destruct c as [[] [] [] [] [] [] [] []]; vm_compute; reflexivity.
Qed.

Lemma isspace_lower_char c : isspace (lower_char c) = isspace c.
Proof.
  destruct c as [[] [] [] [] [] [] [] []]; vm_compute; reflexivity.
Qed.

Lemma lower_idem s : lower (lower s) = lower s.
Proof.
  induction s as [|c s IH]; simpl; [reflexivity|].
  now rewrite lower_char_idem, IH.
Qed.

Lemma lower_app s t : lower (s ++ t) = lower s ++ lower t.
Proof.
  induction s as [|c s IH]; string_app; simpl; [reflexivity|].
  string_app. now rewrite IH.
Qed.

Lemma all_space_lower s : all_space (lower s) = all_space s.
Proof.
  induction s as [|c s IH]; simpl; [reflexivity|].
  now rewrite isspace_lower_char, IH.
Qed.

Lemma lstrip_all_space s : all_space s = true -> lstrip s = "".
Proof.
  induction s as [|c s IH]; simpl; [reflexivity|].
  intros [Hc Hs]%andb_prop. rewrite Hc. auto.
Qed.

Lemma lstrip_pad_left pre s : all_space pre = true -> lstrip (pre ++ s) = lstrip s.
Proof.
  induction pre as [|c pre IH]; string_app; simpl; [reflexivity|].
  intros [Hc Hs]%andb_prop. rewrite Hc. auto.
Qed.

Lemma rstrip_all_space s : all_space s = true -> rstrip s = "".
Proof.
  induction s as [|c s IH]; simpl; [reflexivity|].
  intros [Hc Hs]%andb_prop. rewrite (IH Hs), Hc. reflexivity.
Qed.

Lemma rstrip_pad_right s post : all_space post = true -> rstrip (s ++ post) = rstrip s.
Proof.
  intros Hp. induction s as [|c s IH]; string_app; simpl.
  - now apply rstrip_all_space.
  - now rewrite IH.
Qed.

Lemma strip_pad_right s post : all_space post = true -> strip (s ++ post) = strip s.
Proof.
  intros Hp. unfold strip. induction s as [|c s IH]; string_app; simpl.
  - rewrite (lstrip_all_space _ Hp). reflexivity.
  - destruct (isspace c); [assumption|].
    rewrite <- append_cons. now apply rstrip_pad_right.
Qed.

Lemma strip_pad pre s post :
  all_space pre = true -> all_space post = true ->
  strip (pre ++ s ++ post) = strip s.
Proof.
  intros Hpre Hpost. unfold strip. rewrite lstrip_pad_left by assumption.
  now apply strip_pad_right.
Qed.

Lemma get_cache_key_ext t1 t2 :
  strip (lower t1) = strip (lower t2) -> get_cache_key t1 = get_cache_key t2.
Proof. unfold get_cache_key. now intros ->. Qed.

(** C7, as the code has it: the key of main.py depends on the topic alone,
    and neither letter case nor surrounding white space of the topic
    changes it. *)
Theorem get_cache_key_normalises (topic pre post : string) :
  all_space pre = true -> all_space post = true ->
  get_cache_key (pre ++ topic ++ post) = get_cache_key topic
  /\ get_cache_key (lower topic) = get_cache_key topic
  /\ get_cache_key "Python" = get_cache_key " python ".
Proof.
  intros Hpre Hpost. split; [|split].
  - apply get_cache_key_ext. rewrite !lower_app.
    apply strip_pad; now rewrite all_space_lower.
  - apply get_cache_key_ext. now rewrite lower_idem.
  - apply get_cache_key_ext. vm_compute. reflexivity.
Qed.

End KeyNormalisation.

Lemma get_cache_key_normalises_witness :
  all_space " " = true /\ all_space (String (Text.chr 9) (String (Text.chr 10) "")) = true
  /\ get_cache_key (" " ++ "Machine Learning" ++ String (Text.chr 9) (String (Text.chr 10) ""))
     = get_cache_key "Machine Learning".
Proof.
  split; [reflexivity|]. split; [reflexivity|].
  apply (get_cache_key_normalises "Machine Learning" " "
           (String (Text.chr 9) (String (Text.chr 10) ""))); reflexivity.
Defined.

(** C7 fails for the key of chat.py, which hashes the text as it is given:
    the two topics of the claim get different keys. *)
Lemma lesson_cache_key_case_sensitive :
  lesson_cache_key "Python" (Some 10) = "9947ad5e9c162ce1"
  /\ lesson_cache_key " python " (Some 10) = "3a5b5f4a09975db0"
  /\ lesson_cache_key "python" (Some 10) = "9d70fd1d96299247"
  /\ lesson_cache_key "Python" (Some 10) <> lesson_cache_key " python " (Some 10)
  /\ lesson_cache_key "Python" (Some 10) <> lesson_cache_key "python" (Some 10).
Proof.
  repeat split; try (vm_compute; reflexivity); vm_compute; discriminate.
Qed.

(** ** The normaliser on the fenced document *)

(** C10: the fenced document with a trailing comma.  The fence is removed,
    the strict parse of what is left fails on the comma, the repaired text
    parses, and [process_sections] makes of it exactly one section, titled
    A. *)
Theorem normalizer_repairs_fenced_trailing_comma (topic : string) :
  let extracted :=
    Normalizer.extract_object
      (Normalizer.extract_fenced (Text.strip Normalizer.fenced_input)) in
  extracted
  = Normalizer.lit "{'sections':[{'title':'A','content':'Some content here'}],}"
  /\ Json.parse_value 1024 extracted = Json.Invalid
  /\ Json.loads extracted = None
  /\ Normalizer.repair extracted
     = Normalizer.lit "{'sections':[{'title':'A','content':'Some content here'}]}"
  /\ exists data,
       Normalizer.process_lesson_content Normalizer.fenced_input topic = Some data
       /\ Normalizer.process_sections data
          = Some [ {| Normalizer.title := "A";
                      Normalizer.content := "Some content here" |} ].
Proof.
  cbv zeta. repeat split; try (vm_compute; reflexivity).
  eexists. split; vm_compute; reflexivity.
Qed.

(** ** Clock *)

Lemma second_pos : 0 < second.
Proof. reflexivity. Qed.

(** ** Properties of one TTLCache *)

Section CacheFacts.

Context {V : Type}.

Implicit Types (l : list (string * (V * Z))) (c : TTLCache.t V) (k : string).

Import TTLCache.

Lemma eqb_refl_s k : String.eqb k k = true.
Proof. apply String.eqb_refl. Qed.

Lemma eqb_ne k k' : k <> k' -> String.eqb k k' = false.
Proof. intros H. now apply String.eqb_neq. Qed.

Lemma lookup_remove_eq k l : lookup k (remove k l) = None.
Proof.
  induction l as [|[k' e] l IH]; simpl; [reflexivity|].
  destruct (String.eqb k k') eqn:E; [assumption|].
  simpl. now rewrite E.
Qed.

Lemma lookup_remove_ne k k' l : k <> k' -> lookup k' (remove k l) = lookup k' l.
Proof.
  intros Hne. induction l as [|[k0 e] l IH]; simpl; [reflexivity|].
  destruct (String.eqb k k0) eqn:E.
  - apply String.eqb_eq in E. subst k0.
    rewrite (eqb_ne k' k) by congruence. assumption.
  - simpl. now rewrite IH.
Qed.

Lemma lookup_app k l1 l2 :
  lookup k (l1 ++ l2)%list
  = match lookup k l1 with Some e => Some e | None => lookup k l2 end.
Proof.
  induction l1 as [|[k' e] l1 IH]; simpl; [reflexivity|].
  now destruct (String.eqb k k').
Qed.

Lemma lookup_None_notin k l : lookup k l = None -> k ∉ l.*1.
Proof.
  induction l as [|[k' e] l IH]; simpl; [intros _; apply not_elem_of_nil|].
  destruct (String.eqb k k') eqn:E; [discriminate|].
  apply String.eqb_neq in E. intros H [Hk|Hk]%elem_of_cons; [congruence|].
  now apply IH.
Qed.

Lemma lookup_notin k l : k ∉ l.*1 -> lookup k l = None.
Proof.
  induction l as [|[k' e] l IH]; simpl; [reflexivity|].
  intros [Hk Hl]%not_elem_of_cons. rewrite eqb_ne by assumption. now apply IH.
Qed.

Lemma keys_sweep now l k : k ∈ (sweep now l).*1 -> k ∈ l.*1.
Proof.
  induction l as [|[k' e] l IH]; simpl; [tauto|].
  destruct (now <? snd e); simpl; rewrite !elem_of_cons; tauto.
Qed.

Lemma keys_remove k l k' : k' ∈ (remove k l).*1 -> k' ∈ l.*1 /\ k' <> k.
Proof.
  induction l as [|[k0 e] l IH]; simpl; [intros []%not_elem_of_nil|].
  destruct (String.eqb k k0) eqn:E.
  - intros H. destruct (IH H). rewrite elem_of_cons. tauto.
  - apply String.eqb_neq in E. simpl. rewrite !elem_of_cons.
    intros [->|H]; [split; [tauto|congruence]|].
    destruct (IH H). tauto.
Qed.

Lemma keys_make_room m l k : k ∈ (make_room m l).*1 -> k ∈ l.*1.
Proof.
  induction l as [|[k' e] l IH]; [simpl; tauto|].
  cbn [make_room]. destruct (m <? _); [|tauto].
  intros H. simpl. rewrite elem_of_cons. right. now apply IH.
Qed.

Lemma NoDup_sweep now l : NoDup l.*1 -> NoDup (sweep now l).*1.
Proof.
  induction l as [|[k e] l IH]; simpl; [constructor|].
  intros [Hk Hl]%NoDup_cons.
  destruct (now <? snd e); simpl; [|auto].
  apply NoDup_cons. split; [|auto].
  intros Hin. apply Hk. eapply keys_sweep. exact Hin.
Qed.

Lemma NoDup_remove k l : NoDup l.*1 -> NoDup (remove k l).*1.
Proof.
  induction l as [|[k' e] l IH]; simpl; [constructor|].
  intros [Hk Hl]%NoDup_cons.
  destruct (String.eqb k k'); simpl; [auto|].
  apply NoDup_cons. split; [|auto].
  intros Hin. apply keys_remove in Hin. tauto.
Qed.

Lemma NoDup_make_room m l : NoDup l.*1 -> NoDup (make_room m l).*1.
Proof.
  induction l as [|[k' e] l IH]; [simpl; constructor|].
  cbn [make_room]. destruct (m <? _); [|tauto].
  simpl. intros [_ H]%NoDup_cons. now apply IH.
Qed.

Lemma NoDup_snoc l k (e : V * Z) :
  NoDup l.*1 -> k ∉ l.*1 -> NoDup (l ++ [(k, e)])%list.*1.
Proof.
  intros Hl Hk. rewrite fmap_app. simpl.
  apply NoDup_app. repeat split.
  - assumption.
  - intros x Hx ->%list_elem_of_singleton. now apply Hk.
  - apply NoDup_singleton.
Qed.

(** With distinct keys, sweeping and then looking a key up is looking it up
    and then checking its expiry. *)
Lemma lookup_sweep now k l :
  NoDup l.*1 ->
  lookup k (sweep now l)
  = match lookup k l with
    | Some (v, expires) => if now <? expires then Some (v, expires) else None
    | None => None
    end.
Proof.
  induction l as [|[k' [v e]] l IH]; simpl; [reflexivity|].
  intros [Hk Hl]%NoDup_cons.
  destruct (String.eqb k k') eqn:E.
  - apply String.eqb_eq in E. subst k'.
    destruct (now <? e) eqn:Ht; simpl.
    + now rewrite eqb_refl_s.
    + apply lookup_notin. intros Hin. apply Hk. eapply keys_sweep. exact Hin.
  - destruct (now <? e); simpl; [rewrite E|]; auto.
Qed.

Lemma length_sweep now l : (List.length (sweep now l) <= List.length l)%nat.
Proof. apply List.filter_length_le. Qed.

Lemma length_remove k l : (List.length (remove k l) <= List.length l)%nat.
Proof.
  induction l as [|[k' e] l IH]; simpl; [lia|].
  destruct (String.eqb k k'); simpl; lia.
Qed.

Lemma length_remove_present k l e :
  lookup k l = Some e -> (List.length (remove k l) < List.length l)%nat.
Proof.
  induction l as [|[k' e'] l IH]; simpl; [discriminate|].
  destruct (String.eqb k k').
  - intros _. pose proof (length_remove k l). lia.
  - intros H. simpl. specialize (IH H). lia.
Qed.

Lemma length_make_room m l :
  1 <= m -> Z.of_nat (List.length (make_room m l)) + 1 <= m.
Proof.
  intros Hm. induction l as [|[k' e] l IH]; [simpl; lia|].
  cbn [make_room]. destruct (m <? _) eqn:E; [assumption|].
  apply Z.ltb_ge in E. lia.
Qed.

Lemma make_room_id m l :
  Z.of_nat (List.length l) < m -> make_room m l = l.
Proof.
  intros H. destruct l as [|[k e] l]; [reflexivity|].
  cbn [make_room]. destruct (m <? _) eqn:E; [|reflexivity].
  apply Z.ltb_lt in E. lia.
Qed.

(** The capacity invariant of one cache. *)
Definition bounded c : Prop :=
  Z.of_nat (List.length (links c)) <= Z.max 0 (maxsize c).

Lemma new_ok m ttl : wf (@new V m ttl) /\ bounded (new m ttl) /\ maxsize (@new V m ttl) = m.
Proof. repeat split; [constructor|unfold bounded; simpl; lia]. Qed.

Lemma expire_ok now c :
  wf c -> bounded c -> wf (expire now c) /\ bounded (expire now c).
Proof.
  unfold wf, bounded. simpl. intros Hw Hb. split.
  - now apply NoDup_sweep.
  - pose proof (length_sweep now (links c)). lia.
Qed.

Lemma setitem_ok now k v c :
  wf c -> bounded c ->
  let c' := snd (setitem now k v c) in
  wf c' /\ bounded c' /\ maxsize c' = maxsize c.
Proof.
  intros Hw Hb. destruct (expire_ok now c Hw Hb) as [Hw1 Hb1].
  unfold setitem. destruct (maxsize c <? 1) eqn:Em; cbn [snd].
  - repeat split; assumption.
  - apply Z.ltb_ge in Em. unfold wf, bounded in *. cbn [links maxsize expire] in *.
    destruct (lookup k (sweep now (links c))) as [e|] eqn:El.
    + repeat split.
      * apply NoDup_snoc; [now apply NoDup_remove|].
        intros Hin. apply keys_remove in Hin. tauto.
      * rewrite length_app. simpl.
        pose proof (length_remove_present _ _ _ El). lia.
    + repeat split.
      * apply NoDup_snoc; [now apply NoDup_make_room|].
        intros Hin. apply keys_make_room in Hin.
        now apply (lookup_None_notin _ _ El).
      * rewrite length_app. simpl.
        pose proof (length_make_room (maxsize c) (sweep now (links c)) Em). lia.
Qed.

Lemma get_ok now k c :
  wf c -> bounded c ->
  let c' := snd (get now k c) in
  wf c' /\ bounded c' /\ maxsize c' = maxsize c.
Proof.
  intros Hw Hb. unfold get.
  destruct (lookup k (links c)) as [[v e]|] eqn:El; [|now repeat split].
  destruct (now <? e); [|now repeat split].
  unfold wf, bounded in *. cbn [snd links maxsize]. repeat split.
  - apply NoDup_snoc; [now apply NoDup_remove|].
    intros Hin. apply keys_remove in Hin. tauto.
  - rewrite length_app. simpl.
    pose proof (length_remove_present _ _ _ El). lia.
Qed.

Lemma delitem_ok now k c :
  wf c -> bounded c ->
  let c' := snd (delitem now k c) in
  wf c' /\ bounded c' /\ maxsize c' = maxsize c.
Proof.
  intros Hw Hb. unfold delitem.
  destruct (lookup k (links c)) as [[v e]|]; [|now repeat split].
  unfold wf, bounded in *. cbn [snd links maxsize]. repeat split.
  - now apply NoDup_remove.
  - pose proof (length_remove k (links c)). lia.
Qed.

(** What [get] answers is the value of an entry that has not expired. *)
Lemma get_Some now k c v :
  fst (get now k c) = Some v <->
  exists expires, lookup k (links c) = Some (v, expires) /\ now < expires.
Proof.
  unfold get. destruct (lookup k (links c)) as [[w e]|]; cbn [fst].
  - destruct (now <? e) eqn:Et; cbn [fst]; split.
    + intros [= ->]. exists e. split; [reflexivity|]. now apply Z.ltb_lt.
    + intros (e' & [= -> ->] & _). reflexivity.
    + discriminate.
    + intros (e' & [= -> ->] & Hlt). apply Z.ltb_ge in Et. lia.
  - split; [discriminate|]. intros (e' & H & _). discriminate.
Qed.

End CacheFacts.

(** ** Properties of the repository *)

Section RepositoryFacts.

Context {V : Type}.

Import MemoryCacheRepository.

Implicit Types (r : MemoryCacheRepository.t V) (c : TTLCache.t V).

(** Every cache of the repository has distinct keys, respects its capacity
    and has the capacity given to the constructor. *)
Definition repo_inv r : Prop :=
  forall ns c, _caches r !! ns = Some c ->
    TTLCache.wf c /\ bounded c /\ TTLCache.maxsize c = _default_maxsize r.

Lemma repo_inv_new ttl m : repo_inv (@new V ttl m).
Proof. intros ns c H. simpl in H. now rewrite lookup_empty in H. Qed.

Lemma repo_inv_with_cache ns c r :
  repo_inv r ->
  TTLCache.wf c -> bounded c -> TTLCache.maxsize c = _default_maxsize r ->
  repo_inv (with_cache ns c r).
Proof.
  intros Hr Hw Hb Hm ns' c' H. cbn in H.
  destruct (decide (ns = ns')) as [->|Hne].
  - rewrite lookup_insert_eq in H. injection H as <-. auto.
  - rewrite lookup_insert_ne in H by assumption. now apply (Hr ns' c').
Qed.

Lemma repo_inv_count_error r : repo_inv r -> repo_inv (count_error r).
Proof. intros Hr ns c H. now apply (Hr ns c). Qed.

Lemma _get_cache_ok ns r :
  repo_inv r ->
  let '(c, r') := _get_cache ns r in
  repo_inv r' /\ _default_maxsize r' = _default_maxsize r
  /\ TTLCache.wf c /\ bounded c /\ TTLCache.maxsize c = _default_maxsize r
  /\ _caches r' !! ns = Some c
  /\ (forall ns', ns' <> ns -> _caches r' !! ns' = _caches r !! ns').
Proof.
  intros Hr. unfold _get_cache.
  destruct (_caches r !! ns) as [c|] eqn:E.
  - destruct (Hr ns c E) as (Hw & Hb & Hm). split_and!; auto.
  - destruct (new_ok (V := V) (_default_maxsize r) (_default_ttl r)) as (Hw & Hb & Hm).
    split_and!; auto.
    + now apply repo_inv_with_cache.
    + cbn. apply lookup_insert_eq.
    + intros ns' Hne. cbn. now apply lookup_insert_ne.
Qed.

Lemma step_ok r (call : MemoryCacheRepository.call V) :
  repo_inv r ->
  repo_inv (step r call) /\ _default_maxsize (step r call) = _default_maxsize r.
Proof.
  intros Hr. destruct call as [now k ns|now k v ttl ns|now later k ns|now k ns]; cbn [step].
  - unfold get. pose proof (_get_cache_ok ns r Hr) as H.
    destruct (_get_cache ns r) as [c r'].
    destruct H as (Hr' & Hd & Hw & Hb & Hm & _).
    pose proof (get_ok now k c Hw Hb) as (Hw' & Hb' & Hm').
    destruct (TTLCache.get now k c) as [val c']. cbn [snd] in *.
    assert (repo_inv (with_cache ns c' r')) as Hi
      by (apply repo_inv_with_cache; auto; congruence).
    destruct val; cbn [snd]; split; auto.
  - unfold set. pose proof (_get_cache_ok ns r Hr) as H.
    destruct (_get_cache ns r) as [c r'].
    destruct H as (Hr' & Hd & Hw & Hb & Hm & _).
    destruct (match ttl with Some n => if 0 <? n then Some n else None | None => None end)
      as [n|].
    + destruct (new_ok (V := V) (TTLCache.maxsize c) n) as (Hwn & Hbn & Hmn).
      pose proof (setitem_ok now k v _ Hwn Hbn) as (Hw' & Hb' & Hm').
      destruct (TTLCache.setitem now k v (TTLCache.new (TTLCache.maxsize c) n))
        as [[[]|] temp]; cbn [snd] in *.
      * split; [|assumption]. apply repo_inv_with_cache; auto. congruence.
      * split; [|assumption]. now apply repo_inv_count_error.
    + pose proof (setitem_ok now k v c Hw Hb) as (Hw' & Hb' & Hm').
      destruct (TTLCache.setitem now k v c) as [[[]|] c']; cbn [snd] in *.
      * split; [|assumption]. apply repo_inv_with_cache; auto. congruence.
      * split; [|assumption]. apply repo_inv_count_error.
        apply repo_inv_with_cache; auto. congruence.
  - unfold delete. pose proof (_get_cache_ok ns r Hr) as H.
    destruct (_get_cache ns r) as [c r'].
    destruct H as (Hr' & Hd & Hw & Hb & Hm & _).
    pose proof (delitem_ok later k c Hw Hb) as (Hw' & Hb' & Hm').
    destruct (TTLCache.contains now k c); [|cbn [snd]; auto].
    destruct (TTLCache.delitem later k c) as [[[]|] c']; cbn [snd] in *.
    + split; [|assumption]. apply repo_inv_with_cache; auto. congruence.
    + split; [|assumption]. apply repo_inv_count_error.
      apply repo_inv_with_cache; auto. congruence.
  - unfold exists_. pose proof (_get_cache_ok ns r Hr) as H.
    destruct (_get_cache ns r) as [c r'].
    destruct H as (Hr' & Hd & _). cbn [snd]. auto.
Qed.

Lemma run_ok calls r :
  repo_inv r ->
  repo_inv (run calls r) /\ _default_maxsize (run calls r) = _default_maxsize r.
Proof.
  revert r. induction calls as [|call calls IH]; intros r Hr; [now split|].
  cbn [run fold_left]. destruct (step_ok r call Hr) as [Hs Hd].
  destruct (IH _ Hs) as [Hi Hd']. split; [assumption|].
  unfold run in Hd'. congruence.
Qed.

(** Every state the repository reaches from its construction satisfies the
    invariant. *)
Lemma reachable_ok ttl m calls :
  repo_inv (run calls (@new V ttl m))
  /\ _default_maxsize (run calls (@new V ttl m)) = m.
Proof.
  destruct (run_ok calls (new ttl m) (repo_inv_new ttl m)) as [Hi Hd]. auto.
Qed.

End RepositoryFacts.

Section RepositoryCalls.

Context {V : Type}.

Import MemoryCacheRepository.

Implicit Types (r : MemoryCacheRepository.t V) (c : TTLCache.t V).

(** The cache a call on [ns] works on. *)
Definition cache_of (ns : string) r : TTLCache.t V :=
  match _caches r !! ns with
  | Some c => c
  | None => TTLCache.new (_default_maxsize r) (_default_ttl r)
  end.

(** The cache of [ns] after [set]. *)
Definition cache_after_set (now : Z) (k : string) (v : V) (ttl : option Z) c :
  TTLCache.t V :=
  match ttl with
  | Some n =>
      if 0 <? n then
        match TTLCache.setitem now k v (TTLCache.new (TTLCache.maxsize c) n) with
        | (Some _, temp) => temp
        | (None, _) => c
        end
      else snd (TTLCache.setitem now k v c)
  | None => snd (TTLCache.setitem now k v c)
  end.

Lemma _get_cache_fst ns r : fst (_get_cache ns r) = cache_of ns r.
Proof. unfold _get_cache, cache_of. now destruct (_caches r !! ns). Qed.

Lemma _get_cache_snd ns r :
  _caches (snd (_get_cache ns r)) !! ns = Some (cache_of ns r)
  /\ (forall ns', ns' <> ns -> _caches (snd (_get_cache ns r)) !! ns' = _caches r !! ns')
  /\ _default_maxsize (snd (_get_cache ns r)) = _default_maxsize r
  /\ _default_ttl (snd (_get_cache ns r)) = _default_ttl r.
Proof.
  unfold _get_cache, cache_of. destruct (_caches r !! ns) eqn:E; cbn.
  - auto.
  - split_and!; try reflexivity.
    + apply lookup_insert_eq.
    + intros ns' Hne. now apply lookup_insert_ne.
Qed.

Lemma get_fst now k ns r :
  fst (get now k ns r) = fst (TTLCache.get now k (cache_of ns r)).
Proof.
  unfold get. rewrite <- _get_cache_fst.
  destruct (_get_cache ns r) as [c r']. cbn [fst].
  destruct (TTLCache.get now k c) as [[v|] c']; reflexivity.
Qed.

Lemma set_snd now k v ttl ns r :
  let r' := snd (set now k v ttl ns r) in
  _caches r' !! ns = Some (cache_after_set now k v ttl (cache_of ns r))
  /\ (forall ns', ns' <> ns -> _caches r' !! ns' = _caches r !! ns')
  /\ _default_maxsize r' = _default_maxsize r
  /\ _default_ttl r' = _default_ttl r.
Proof.
  unfold set, cache_after_set. rewrite <- _get_cache_fst.
  destruct (_get_cache_snd ns r) as (Hc & Ho & Hm & Ht).
  rewrite <- _get_cache_fst in Hc.
  destruct (_get_cache ns r) as [c r0]. cbn [fst snd] in *.
  assert (forall c', _caches (with_cache ns c' r0) !! ns = Some c') as Hw
    by (intros c'; cbn; apply lookup_insert_eq).
  assert (forall c' ns', ns' <> ns ->
            _caches (with_cache ns c' r0) !! ns' = _caches r !! ns') as Hw'
    by (intros c' ns' Hne; cbn; rewrite lookup_insert_ne by congruence; auto).
  destruct ttl as [n|]; [destruct (0 <? n)|].
  - destruct (TTLCache.setitem now k v (TTLCache.new (TTLCache.maxsize c) n))
      as [[[]|] temp]; cbn [snd]; unfold count_error;
      cbn [_caches _default_maxsize _default_ttl]; split_and!; auto.
  - destruct (TTLCache.setitem now k v c) as [[[]|] c']; cbn [snd]; unfold count_error;
      cbn [_caches _default_maxsize _default_ttl]; split_and!; auto.
  - destruct (TTLCache.setitem now k v c) as [[[]|] c']; cbn [snd]; unfold count_error;
      cbn [_caches _default_maxsize _default_ttl]; split_and!; auto.
Qed.

Lemma cache_of_set_same now k v ttl ns r :
  cache_of ns (snd (set now k v ttl ns r)) = cache_after_set now k v ttl (cache_of ns r).
Proof.
  destruct (set_snd now k v ttl ns r) as (H & _). unfold cache_of at 1. now rewrite H.
Qed.

Lemma cache_of_set_other now k v ttl ns ns' r :
  ns' <> ns -> cache_of ns' (snd (set now k v ttl ns r)) = cache_of ns' r.
Proof.
  intros Hne. destruct (set_snd now k v ttl ns r) as (_ & H & Hm & Ht).
  unfold cache_of. now rewrite (H ns' Hne), Hm, Ht.
Qed.

Lemma cache_of_reachable ttl m calls ns :
  let c := cache_of ns (run calls (@new V ttl m)) in
  TTLCache.wf c /\ bounded c /\ TTLCache.maxsize c = m.
Proof.
  destruct (reachable_ok (V := V) ttl m calls) as [Hi Hm].
  unfold cache_of. destruct (_caches _ !! ns) as [c|] eqn:E.
  - destruct (Hi ns c E) as (Hw & Hb & Hc). split_and!; auto. congruence.
  - rewrite Hm. apply new_ok.
Qed.

(** A fresh cache of capacity at least 1 holds exactly the entry set. *)
Lemma setitem_new now k (v : V) m ttl :
  1 <= m ->
  TTLCache.setitem now k v (TTLCache.new m ttl)
  = (Some tt, TTLCache.Cache m ttl [(k, (v, now + ttl * second))]).
Proof.
  intros Hm. unfold TTLCache.setitem, TTLCache.new. cbn.
  destruct (m <? 1) eqn:E; [apply Z.ltb_lt in E; lia|reflexivity].
Qed.

End RepositoryCalls.

(** C3: in every state the repository reaches, with a capacity of at least
    1, [set] with a positive time-to-live succeeds, a [get] before the
    time-to-live has run out answers the value, and a [get] from then on
    answers nothing; and whatever the state, [get] answers only the value
    of an entry whose expiry time lies ahead. *)
Theorem cache_round_trip {V : Type} (default_ttl maxsize : Z)
    (calls : list (MemoryCacheRepository.call V)) (ns k : string) (v : V)
    (ttl now now' : Z) :
  1 <= maxsize -> 0 < ttl ->
  let r := MemoryCacheRepository.run calls (MemoryCacheRepository.new default_ttl maxsize) in
  let r1 := snd (MemoryCacheRepository.set now k v (Some ttl) ns r) in
  fst (MemoryCacheRepository.set now k v (Some ttl) ns r) = true
  /\ fst (MemoryCacheRepository.get now k ns r1) = Some v
  /\ (now' < now + ttl * second -> fst (MemoryCacheRepository.get now' k ns r1) = Some v)
  /\ (now + ttl * second <= now' -> fst (MemoryCacheRepository.get now' k ns r1) = None)
  /\ (forall (r' : MemoryCacheRepository.t V) (t : Z) (w : V),
        fst (MemoryCacheRepository.get t k ns r') = Some w ->
        exists expires,
          TTLCache.lookup k (TTLCache.links (cache_of ns r')) = Some (w, expires)
          /\ t < expires).
Proof.
  intros Hm Httl r r1.
  destruct (cache_of_reachable default_ttl maxsize calls ns) as (_ & _ & Hc).
  fold r in Hc.
  assert (cache_of ns r1
          = TTLCache.Cache maxsize ttl [(k, (v, now + ttl * second))]) as Hr1.
  { unfold r1. rewrite cache_of_set_same. unfold cache_after_set.
    destruct (0 <? ttl) eqn:E; [|apply Z.ltb_ge in E; lia].
    rewrite Hc, setitem_new by assumption. reflexivity. }
  assert (forall t, fst (MemoryCacheRepository.get t k ns r1)
                    = if t <? now + ttl * second then Some v else None) as Hget.
  { intros t. rewrite get_fst, Hr1. unfold TTLCache.get. cbn [TTLCache.links TTLCache.lookup].
    rewrite eqb_refl_s. now destruct (t <? now + ttl * second). }
  pose proof second_pos as Hs.
  split_and!.
  - unfold MemoryCacheRepository.set.
    rewrite <- (_get_cache_fst ns r) in Hc.
    destruct (MemoryCacheRepository._get_cache ns r) as [c r0]. cbn [fst] in Hc.
    destruct (0 <? ttl) eqn:E; [|apply Z.ltb_ge in E; lia].
    rewrite Hc, setitem_new by assumption. reflexivity.
  - rewrite Hget. destruct (now <? now + ttl * second) eqn:E; [reflexivity|].
    apply Z.ltb_ge in E. nia.
  - intros Hlt. rewrite Hget. now apply Z.ltb_lt in Hlt as ->.
  - intros Hge. rewrite Hget. now apply Z.ltb_ge in Hge as ->.
  - intros r' t w Hw. rewrite get_fst in Hw. now apply get_Some in Hw.
Qed.

Lemma cache_round_trip_witness :
  1 <= 1000 /\ 0 < 60
  /\ let r := MemoryCacheRepository.run
                [MemoryCacheRepository.CallSet 0 "a" "old" None "lessons"]
                (MemoryCacheRepository.new 3600 1000) in
     let r1 := snd (MemoryCacheRepository.set (5 * second) "k" "v" (Some 60) "lessons" r) in
     fst (MemoryCacheRepository.get (5 * second) "k" "lessons" r1) = Some "v"
     /\ (64 * second < 5 * second + 60 * second ->
         fst (MemoryCacheRepository.get (64 * second) "k" "lessons" r1) = Some "v").
Proof.
  split; [lia|]. split; [lia|].
  destruct (cache_round_trip (V := string) 3600 1000
              [MemoryCacheRepository.CallSet 0 "a" "old" None "lessons"]
              "lessons" "k" "v" 60 (5 * second) (64 * second))
    as (_ & Hnow & Hlater & _); [lia|lia|].
  split; assumption.
Defined.

Section SetFrame.

Context {V : Type}.

Implicit Types (c : TTLCache.t V) (k : string).

(** The namespace's cache takes one more key without evicting: it is not
    full once swept, or it already holds the key. *)
Definition room (now : Z) k c : Prop :=
  TTLCache.live now c < TTLCache.maxsize c \/ TTLCache.contains now k c = true.

Lemma get_fst_lookup now k c :
  fst (TTLCache.get now k c)
  = match TTLCache.lookup k (TTLCache.links c) with
    | Some (v, expires) => if now <? expires then Some v else None
    | None => None
    end.
Proof.
  unfold TTLCache.get. destruct (TTLCache.lookup k (TTLCache.links c)) as [[v e]|];
    [|reflexivity].
  now destruct (now <? e).
Qed.

Lemma lookup_snoc_ne k k' (e : V * Z) l :
  k <> k' -> TTLCache.lookup k (l ++ [(k', e)])%list = TTLCache.lookup k l.
Proof.
  intros Hne. rewrite lookup_app. destruct (TTLCache.lookup k l); [reflexivity|].
  simpl. now rewrite eqb_ne.
Qed.

(** The entries [cache[k2] = v2] leaves in place. *)
Lemma setitem_lookup_other now k1 k2 (v2 : V) c :
  TTLCache.wf c -> k1 <> k2 -> room now k2 c ->
  TTLCache.lookup k1 (TTLCache.links (snd (TTLCache.setitem now k2 v2 c)))
  = TTLCache.lookup k1 (TTLCache.sweep now (TTLCache.links c)).
Proof.
  intros Hw Hne Hroom. unfold TTLCache.setitem.
  destruct (TTLCache.maxsize c <? 1); [reflexivity|].
  cbn [snd TTLCache.links TTLCache.expire].
  rewrite lookup_snoc_ne by assumption.
  destruct (TTLCache.lookup k2 (TTLCache.sweep now (TTLCache.links c))) as [e|] eqn:E.
  - apply lookup_remove_ne. congruence.
  - rewrite make_room_id; [reflexivity|].
    destruct Hroom as [Hlive|Hin]; [exact Hlive|].
    unfold TTLCache.contains in Hin. rewrite lookup_sweep in E by assumption.
    destruct (TTLCache.lookup k2 (TTLCache.links c)) as [[w e]|]; [|discriminate].
    now rewrite Hin in E.
Qed.

Lemma setitem_frame now now' k1 k2 (v2 : V) c :
  TTLCache.wf c -> k1 <> k2 -> room now k2 c -> now <= now' ->
  fst (TTLCache.get now' k1 (snd (TTLCache.setitem now k2 v2 c)))
  = fst (TTLCache.get now' k1 c).
Proof.
  intros Hw Hne Hroom Hle. rewrite !get_fst_lookup.
  rewrite setitem_lookup_other, lookup_sweep by assumption.
  destruct (TTLCache.lookup k1 (TTLCache.links c)) as [[v e]|]; [|reflexivity].
  destruct (now <? e) eqn:E; [reflexivity|].
  apply Z.ltb_ge in E. destruct (now' <? e) eqn:E'; [|reflexivity].
  apply Z.ltb_lt in E'. lia.
Qed.

End SetFrame.

(** C8, as the code has it.  In every state the repository reaches:
    [set] with a positive time-to-live leaves no other key in the
    namespace; [set] without one leaves the answer of [get] for every other
    key as it was, as long as the namespace has room; and in both cases the
    other namespaces answer as before. *)
Theorem set_frame {V : Type} (default_ttl maxsize : Z)
    (calls : list (MemoryCacheRepository.call V)) (ns k1 k2 : string) (v2 : V)
    (now now' : Z) :
  k1 <> k2 ->
  let r := MemoryCacheRepository.run calls (MemoryCacheRepository.new default_ttl maxsize) in
  (forall ttl, 1 <= maxsize -> 0 < ttl ->
     fst (MemoryCacheRepository.get now' k1 ns
            (snd (MemoryCacheRepository.set now k2 v2 (Some ttl) ns r))) = None)
  /\ (forall ttl, (forall n, ttl = Some n -> n <= 0) -> now <= now' ->
        room now k2 (cache_of ns r) ->
        fst (MemoryCacheRepository.get now' k1 ns
               (snd (MemoryCacheRepository.set now k2 v2 ttl ns r)))
        = fst (MemoryCacheRepository.get now' k1 ns r))
  /\ (forall ttl ns' k, ns' <> ns ->
        fst (MemoryCacheRepository.get now' k ns'
               (snd (MemoryCacheRepository.set now k2 v2 ttl ns r)))
        = fst (MemoryCacheRepository.get now' k ns' r)).
Proof.
  intros Hne r.
  destruct (cache_of_reachable default_ttl maxsize calls ns) as (Hw & _ & Hc).
  fold r in Hw, Hc. split_and!.
  - intros ttl Hm Httl. rewrite get_fst, cache_of_set_same. unfold cache_after_set.
    destruct (0 <? ttl) eqn:E; [|apply Z.ltb_ge in E; lia].
    rewrite Hc, setitem_new by assumption.
    rewrite get_fst_lookup. cbn. now rewrite eqb_ne.
  - intros ttl Httl Hle Hroom. rewrite !get_fst, cache_of_set_same.
    assert (cache_after_set now k2 v2 ttl (cache_of ns r)
            = snd (TTLCache.setitem now k2 v2 (cache_of ns r))) as ->.
    { unfold cache_after_set. destruct ttl as [n|]; [|reflexivity].
      destruct (0 <? n) eqn:E; [|reflexivity].
      apply Z.ltb_lt in E. specialize (Httl n eq_refl). lia. }
    now apply setitem_frame.
  - intros ttl ns' k Hns. now rewrite !get_fst, cache_of_set_other.
Qed.

Lemma set_frame_witness :
  "k1" <> "k2"
  /\ let r := MemoryCacheRepository.run
                [MemoryCacheRepository.CallSet 0 "k1" "v1" None "lessons"]
                (MemoryCacheRepository.new 3600 1000) in
     fst (MemoryCacheRepository.get second "k1" "lessons"
            (snd (MemoryCacheRepository.set second "k2" "v2" None "lessons" r)))
     = fst (MemoryCacheRepository.get second "k1" "lessons" r).
Proof.
  split; [discriminate|].
  destruct (set_frame (V := string) 3600 1000
              [MemoryCacheRepository.CallSet 0 "k1" "v1" None "lessons"]
              "lessons" "k1" "k2" "v2" second second) as (_ & H & _);
    [discriminate|].
  apply H; [discriminate|lia|left; vm_compute; reflexivity].
Defined.

(** C8 fails on [set] with a time-to-live.  The key k1 is stored, has not
    expired and the namespace holds one entry of a thousand; after k2 is
    set with a time-to-live in the same namespace, k1 is gone. *)
Lemma set_with_ttl_drops_other_keys :
  let r0 := MemoryCacheRepository.new 3600 1000 in
  let r1 := snd (MemoryCacheRepository.set 0 "k1" "v1" (Some 60) "lessons" r0) in
  let r2 := snd (MemoryCacheRepository.set 0 "k2" "v2" (Some 60) "lessons" r1) in
  fst (MemoryCacheRepository.get 0 "k1" "lessons" r1) = Some "v1"
  /\ TTLCache.live 0 (cache_of "lessons" r1) = 1
  /\ TTLCache.maxsize (cache_of "lessons" r1) = 1000
  /\ fst (MemoryCacheRepository.get 0 "k2" "lessons" r2) = Some "v2"
  /\ fst (MemoryCacheRepository.get 0 "k1" "lessons" r2) = None.
Proof. vm_compute. repeat split; reflexivity. Qed.

(** ** The capacity bound *)

Section MainCacheFacts.

Context {V : Type}.

Import MainCache.

Implicit Types (cs : gmap string (TTLCache.t V)) (c : TTLCache.t V).

(** Every cache is the cache of a configured namespace, with that
    namespace's capacity, distinct keys and no more entries than fit. *)
Definition main_inv cs : Prop :=
  forall ns c, cs !! ns = Some c ->
    TTLCache.wf c /\ bounded c
    /\ exists ttl, (ns, (ttl, TTLCache.maxsize c)) ∈ CACHE_CONFIG.

Lemma main_inv_caches : main_inv (@caches V).
Proof.
  intros ns c H. unfold caches, caches_of in H.
  apply elem_of_list_to_map_2 in H.
  change (List.map ?f ?l) with (f <$> l) in H.
  apply list_elem_of_fmap in H as ([ns' [ttl m]] & [= -> ->] & Hin).
  split_and!; try apply new_ok. exists ttl. exact Hin.
Qed.

Lemma main_inv_insert ns c c' cs :
  main_inv cs -> cs !! ns = Some c ->
  TTLCache.wf c' -> bounded c' -> TTLCache.maxsize c' = TTLCache.maxsize c ->
  main_inv (<[ns := c']> cs).
Proof.
  intros Hi Hc Hw Hb Hm ns0 c0 H.
  destruct (decide (ns = ns0)) as [->|Hne].
  - rewrite lookup_insert_eq in H. injection H as <-.
    destruct (Hi ns0 c Hc) as (_ & _ & Hcfg). rewrite Hm. auto.
  - rewrite lookup_insert_ne in H by assumption. now apply (Hi ns0 c0).
Qed.

Lemma store_all_ok now items c :
  TTLCache.wf c -> bounded c ->
  let c' := store_all now items c in
  TTLCache.wf c' /\ bounded c' /\ TTLCache.maxsize c' = TTLCache.maxsize c.
Proof.
  revert c. induction items as [|[k v] items IH]; intros c Hw Hb; [now split_and!|].
  cbn [store_all].
  destruct (setitem_ok now k v c Hw Hb) as (Hw' & Hb' & Hm').
  destruct (IH _ Hw' Hb') as (Hw2 & Hb2 & Hm2). split_and!; auto. congruence.
Qed.

Lemma main_step_ok cs (call : MainCache.call V) : main_inv cs -> main_inv (step cs call).
Proof.
  intros Hi. destruct call as [now k ns|now k v ttl ns|now ns items]; cbn [step].
  - unfold get_cache. destruct (cs !! ns) as [c|] eqn:E; [|exact Hi].
    destruct (Hi ns c E) as (Hw & Hb & _).
    destruct (expire_ok now c Hw Hb) as [Hw1 Hb1].
    unfold TTLCache.len. destruct (0 <? _).
    + pose proof (get_ok now k _ Hw1 Hb1) as (Hw2 & Hb2 & Hm2).
      destruct (TTLCache.get now k (TTLCache.expire now c)) as [res c2].
      cbn [snd] in *. now apply (main_inv_insert ns c).
    + cbn [snd]. now apply (main_inv_insert ns c).
  - unfold set_cache. destruct (cs !! ns) as [c|] eqn:E; [|exact Hi].
    destruct (Hi ns c E) as (Hw & Hb & _).
    destruct (expire_ok now c Hw Hb) as [Hw1 Hb1].
    unfold TTLCache.len. destruct (0 <? _).
    + pose proof (setitem_ok now k v _ Hw1 Hb1) as (Hw2 & Hb2 & Hm2).
      destruct (TTLCache.setitem now k v (TTLCache.expire now c)) as [[[]|] c2];
        cbn [snd] in *; now apply (main_inv_insert ns c).
    + cbn [snd]. now apply (main_inv_insert ns c).
  - unfold warm_cache. destruct (cs !! ns) as [c|] eqn:E; [|exact Hi].
    destruct (Hi ns c E) as (Hw & Hb & _).
    destruct (expire_ok now c Hw Hb) as [Hw1 Hb1].
    unfold TTLCache.len. destruct (0 <? _).
    + pose proof (store_all_ok now items _ Hw1 Hb1) as (Hw2 & Hb2 & Hm2).
      cbn [snd]. now apply (main_inv_insert ns c).
    + cbn [snd]. now apply (main_inv_insert ns c).
Qed.

Lemma main_run_ok calls cs : main_inv cs -> main_inv (run calls cs).
Proof.
  revert cs. induction calls as [|call calls IH]; intros cs Hi; [exact Hi|].
  cbn [run fold_left]. apply IH. now apply main_step_ok.
Qed.

Lemma CACHE_CONFIG_capacity ns ttl m : (ns, (ttl, m)) ∈ CACHE_CONFIG -> 1 <= m.
Proof.
  unfold CACHE_CONFIG. rewrite !elem_of_cons, elem_of_nil.
  intros [H|[H|[H|[H|[H|[]]]]]]; injection H as -> -> ->; lia.
Qed.

End MainCacheFacts.

(** C9: whatever calls are made, and at whatever clock readings, no
    namespace of the repository holds more entries than its capacity, so
    neither more live ones; a [set] touches the cache of its own namespace
    only; and the same bound holds for the per-namespace caches of main.py
    with the capacities of [CACHE_CONFIG]. *)
Theorem capacity_bound {V : Type} (default_ttl maxsize : Z)
    (calls : list (MemoryCacheRepository.call V)) (ns : string)
    (c : TTLCache.t V) (now : Z) :
  0 <= maxsize ->
  let r := MemoryCacheRepository.run calls (MemoryCacheRepository.new default_ttl maxsize) in
  MemoryCacheRepository._caches r !! ns = Some c ->
  (Z.of_nat (List.length (TTLCache.links c)) <= maxsize
   /\ TTLCache.live now c <= maxsize)
  /\ (forall t k v ttl ns', ns' <> ns ->
        MemoryCacheRepository._caches
          (snd (MemoryCacheRepository.set t k v ttl ns' r)) !! ns = Some c)
  /\ (forall (mcalls : list (MainCache.call V)) mns mc,
        MainCache.run mcalls MainCache.caches !! mns = Some mc ->
        exists ttl max_size,
          (mns, (ttl, max_size)) ∈ MainCache.CACHE_CONFIG
          /\ Z.of_nat (List.length (TTLCache.links mc)) <= max_size
          /\ TTLCache.live now mc <= max_size).
Proof.
  intros Hm r Hc.
  destruct (reachable_ok (V := V) default_ttl maxsize calls) as [Hi Hd].
  destruct (Hi ns c Hc) as (Hw & Hb & Hmax).
  unfold bounded in Hb. rewrite Hmax, Hd in Hb.
  pose proof (length_sweep now (TTLCache.links c)) as Hs.
  split_and!.
  - lia.
  - unfold TTLCache.live. lia.
  - intros t k v ttl ns' Hne.
    destruct (set_snd t k v ttl ns' r) as (_ & Ho & _).
    cbv zeta in Ho. now rewrite Ho.
  - intros mcalls mns mc Hmc.
    destruct (main_run_ok mcalls _ (main_inv_caches (V := V)) mns mc Hmc)
      as (_ & Hb' & ttl & Hin).
    exists ttl, (TTLCache.maxsize mc). split; [exact Hin|].
    pose proof (CACHE_CONFIG_capacity _ _ _ Hin).
    pose proof (length_sweep now (TTLCache.links mc)).
    unfold bounded in Hb'. unfold TTLCache.live. lia.
Qed.

(** Three keys set into a repository of capacity 2. *)
Definition three_sets : list (MemoryCacheRepository.call string) :=
  [ MemoryCacheRepository.CallSet 0 "a" "1" None "lessons";
    MemoryCacheRepository.CallSet 1 "b" "2" None "lessons";
    MemoryCacheRepository.CallSet 2 "c" "3" None "lessons" ].

Lemma capacity_bound_witness :
  0 <= 2
  /\ exists c,
       MemoryCacheRepository._caches
         (MemoryCacheRepository.run three_sets (MemoryCacheRepository.new 3600 2))
         !! "lessons" = Some c
       /\ List.map fst (TTLCache.links c) = ["b"; "c"]
       /\ Z.of_nat (List.length (TTLCache.links c)) <= 2.
Proof.
  split; [lia|]. eexists. split; [vm_compute; reflexivity|].
  split; [reflexivity|].
  eapply (capacity_bound (V := string) 3600 2 three_sets "lessons" _ 0); [lia|].
  vm_compute. reflexivity.
Defined.

(** ** Properties of the in-memory rate limiter *)

Section RateLimitFacts.

Import RateLimit.

Implicit Types (m : Middleware) (K : string) (b t : Z).

(** The time stamps stored under a key. *)
Definition entries m K : list Z := default [] (memory_store m !! K).

(** The minute window of index [b]. *)
Definition in_minute b t : Prop :=
  b * (60 * second) <= t < (b + 1) * (60 * second).

(** Every clock reading of the pass falls in the minute window [b]. *)
Definition inside b (clock : Readings) : Prop :=
  in_minute b (at_minute_key clock) /\ in_minute b (at_hour_key clock)
  /\ in_minute b (at_minute_check clock) /\ in_minute b (at_minute_sweep clock)
  /\ in_minute b (at_hour_check clock) /\ in_minute b (at_hour_sweep clock).

Definition mkey (ip ep : string) b : string :=
  "rate_limit:" ++ ip ++ ":" ++ ep ++ ":minute:" ++ pretty b.

Definition hkey (ip ep : string) b : string :=
  "rate_limit:" ++ ip ++ ":" ++ ep ++ ":hour:" ++ pretty b.

Lemma in_minute_div b t : in_minute b t -> t / (60 * second) = b.
Proof.
  intros [Hl Hu]. pose proof second_pos. symmetry.
  apply (Z.div_unique_pos t (60 * second) b (t - b * (60 * second))); lia.
Qed.

Lemma in_minute_hour b t : in_minute b t -> t / (3600 * second) = b / 60.
Proof.
  intros H. pose proof second_pos.
  replace (3600 * second) with (60 * second * 60) by lia.
  rewrite <- Z.div_div by lia. now rewrite (in_minute_div b t H).
Qed.

Lemma minute_key_inside ip ep b t : in_minute b t -> minute_key ip ep t = mkey ip ep b.
Proof. intros H. unfold minute_key, mkey. now rewrite (in_minute_div b t H). Qed.

Lemma hour_key_inside ip ep b t : in_minute b t -> hour_key ip ep t = hkey ip ep (b / 60).
Proof. intros H. unfold hour_key, hkey. now rewrite (in_minute_hour b t H). Qed.

Lemma mkey_inj ip ep b b' : mkey ip ep b = mkey ip ep b' -> b = b'.
Proof.
  unfold mkey. intros H. repeat apply (inj (String.app _)) in H.
  now apply (inj pretty) in H.
Qed.

Lemma hkey_inj ip ep b b' : hkey ip ep b = hkey ip ep b' -> b = b'.
Proof.
  unfold hkey. intros H. repeat apply (inj (String.app _)) in H.
  now apply (inj pretty) in H.
Qed.

Lemma mkey_hkey ip ep b b' : mkey ip ep b <> hkey ip ep b'.
Proof.
  unfold mkey, hkey. intros H. do 4 apply (inj (String.app _)) in H.
  discriminate H.
Qed.

Lemma filter_all (p : Z -> bool) (l : list Z) :
  Forall (fun x => p x = true) l -> List.filter p l = l.
Proof.
  induction 1 as [|x l Hx _ IH]; simpl; [reflexivity|]. now rewrite Hx, IH.
Qed.

Lemma cleanup_entries t m K :
  entries (cleanup_memory_store t m) K
  = List.filter (fun x => t - x <? 3600 * second) (entries m K).
Proof.
  unfold entries, cleanup_memory_store. cbn [memory_store with_store].
  rewrite lookup_omap. destruct (memory_store m !! K) as [ts|]; simpl; [|reflexivity].
  now destruct (List.filter _ ts).
Qed.

(** The stamps under [K] once the sweep of a check has run, if it was due. *)
Definition swept (tc ts : Z) m K : list Z :=
  if cleanup_interval m * second <? tc - last_cleanup m
  then List.filter (fun x => ts - x <? 3600 * second) (entries m K)
  else entries m K.

Lemma swept_nil tc ts m K : entries m K = [] -> swept tc ts m K = [].
Proof. unfold swept. intros ->. now destruct (_ <? _). Qed.

Lemma swept_length tc ts m K :
  (List.length (swept tc ts m K) <= List.length (entries m K))%nat.
Proof.
  unfold swept. destruct (_ <? _); [apply List.filter_length_le|lia].
Qed.

Lemma swept_inside b tc ts m K :
  Forall (in_minute b) (entries m K) -> in_minute b ts ->
  swept tc ts m K = entries m K.
Proof.
  intros Hes Hts. unfold swept. destruct (_ <? _); [|reflexivity].
  apply filter_all. eapply Forall_impl; [exact Hes|].
  intros x Hx. apply Z.ltb_lt. unfold in_minute in *. pose proof second_pos. lia.
Qed.

Lemma window_inside b tc (l : list Z) :
  Forall (in_minute b) l -> in_minute b tc ->
  List.filter (fun x => tc - 60 * second <? x) l = l.
Proof.
  intros Hl Htc. apply filter_all. eapply Forall_impl; [exact Hl|].
  intros x Hx. apply Z.ltb_lt. unfold in_minute in *. lia.
Qed.

(** What one in-memory check answers and what it leaves in the store. *)
Lemma check_memory_spec K limit window tc ts m :
  let kept := List.filter (fun x => tc - window * second <? x) (swept tc ts m K) in
  let n := Z.of_nat (List.length kept) in
  let res := check_rate_limit_memory K limit window tc ts m in
  fst res = (n <? limit, if n <? limit then n + 1 else n)
  /\ entries (snd res) K = (if n <? limit then (kept ++ [tc])%list else kept)
  /\ (forall K', K' <> K -> entries (snd res) K' = swept tc ts m K')
  /\ (forall ep, limits_of (snd res) ep = limits_of m ep).
Proof.
  intros kept n res. subst res kept n. unfold check_rate_limit_memory, swept.
  set (m1 := if cleanup_interval m * second <? tc - last_cleanup m
             then with_last_cleanup tc (cleanup_memory_store ts m) else m).
  assert (forall K', entries m1 K'
            = if cleanup_interval m * second <? tc - last_cleanup m
              then List.filter (fun x => ts - x <? 3600 * second) (entries m K')
              else entries m K') as Hm1.
  { intros K'. subst m1. destruct (_ <? _); [|reflexivity].
    apply cleanup_entries. }
  assert (forall ep, limits_of m1 ep = limits_of m ep) as Hl.
  { intros ep. subst m1. now destruct (_ <? _). }
  rewrite <- (Hm1 K). fold (entries m1 K).
  destruct (Z.of_nat (List.length (List.filter _ (entries m1 K))) <? limit);
    cbn [fst snd]; (split_and!; [reflexivity| | |exact Hl]).
  - unfold entries at 1. cbn. now rewrite lookup_insert_eq.
  - intros K' Hne. rewrite <- Hm1. unfold entries. cbn.
    now rewrite lookup_insert_ne by congruence.
  - unfold entries at 1. cbn. now rewrite lookup_insert_eq.
  - intros K' Hne. rewrite <- Hm1. unfold entries. cbn.
    now rewrite lookup_insert_ne by congruence.
Qed.

End RateLimitFacts.

Section RateLimitWindow.

Import RateLimit.

Implicit Types (m : Middleware) (K : string) (b t : Z).

(** One pass through [dispatch] on the in-memory store. *)
Definition memory_pass (request : Request) (clock : Readings) m : Outcome * Middleware :=
  let ip := get_client_ip request in
  let ep := path request in
  let pm := fst (limits_of m ep) in
  let ph := snd (limits_of m ep) in
  let r1 := check_rate_limit_memory (minute_key ip ep (at_minute_key clock)) pm 60
              (at_minute_check clock) (at_minute_sweep clock) m in
  let r2 := check_rate_limit_memory (hour_key ip ep (at_hour_key clock)) ph 3600
              (at_hour_check clock) (at_hour_sweep clock) (snd r1) in
  ((if negb (fst (fst r1)) then TooManyRequests 60 pm (Z.max 0 (pm - snd (fst r1)))
    else if negb (fst (fst r2)) then TooManyRequests 3600 ph (Z.max 0 (ph - snd (fst r2)))
    else Allowed (Z.max 0 (pm - snd (fst r1))) (Z.max 0 (ph - snd (fst r2)))),
   snd r2).

(** The Redis check is the in-memory check, and leaves Redis alone. *)
Lemma check_redis_is_memory K limit window t ts redis m :
  check_rate_limit_redis K limit window t ts redis m
  = (fst (check_rate_limit_memory K limit window t ts m),
     (redis, snd (check_rate_limit_memory K limit window t ts m))).
Proof.
  unfold check_rate_limit_redis. cbn [_client].
  now destruct (check_rate_limit_memory K limit window t ts m).
Qed.

(** Whatever the Redis side is, [dispatch] is that pass. *)
Lemma dispatch_is_memory_pass request clock redis m :
  path request ∉ exempt_paths ->
  dispatch request clock redis m
  = (fst (memory_pass request clock m), (redis, snd (memory_pass request clock m))).
Proof.
  intros Hp. unfold dispatch, memory_pass.
  rewrite bool_decide_eq_false_2 by assumption.
  destruct (limits_of m (path request)) as [pm ph]. cbn [fst snd].
  destruct redis as [| |db]; rewrite ?check_redis_is_memory;
    destruct (check_rate_limit_memory _ pm 60 _ _ m) as [[mok mc] m1]; cbn [fst snd];
    rewrite ?check_redis_is_memory;
    destruct (check_rate_limit_memory _ ph 3600 _ _ m1) as [[hok hc] m2]; cbn [fst snd];
    destruct mok, hok; reflexivity.
Qed.

(** Without a serving Redis, [dispatch] is that pass. *)
Lemma dispatch_memory request clock redis m :
  (forall db, redis <> Serving db) -> path request ∉ exempt_paths ->
  dispatch request clock redis m
  = (fst (memory_pass request clock m), (redis, snd (memory_pass request clock m))).
Proof. intros _ Hp. now apply dispatch_is_memory_pass. Qed.

Lemma dispatch_memory_outcome request clock redis m :
  (forall db, redis <> Serving db) -> path request ∉ exempt_paths ->
  fst (dispatch request clock redis m) = fst (memory_pass request clock m).
Proof. intros Hr Hp. now rewrite dispatch_memory. Qed.

Lemma dispatch_memory_redis request clock redis m :
  (forall db, redis <> Serving db) -> path request ∉ exempt_paths ->
  fst (snd (dispatch request clock redis m)) = redis.
Proof. intros Hr Hp. now rewrite dispatch_memory. Qed.

Lemma dispatch_memory_state request clock redis m :
  (forall db, redis <> Serving db) -> path request ∉ exempt_paths ->
  snd (snd (dispatch request clock redis m)) = snd (memory_pass request clock m).
Proof. intros Hr Hp. now rewrite dispatch_memory. Qed.

(** The state of one client and endpoint in the minute window [b]: the
    limits, [n] stamps under the minute key, all of this window, and at
    most [h] stamps under the hour key. *)
Definition Core (ip ep : string) b (pm ph : Z) (n h : nat) m : Prop :=
  limits_of m ep = (pm, ph)
  /\ List.length (entries m (mkey ip ep b)) = n
  /\ Forall (in_minute b) (entries m (mkey ip ep b))
  /\ (List.length (entries m (hkey ip ep (b / 60))) <= h)%nat.

Lemma memory_pass_core request clock m b pm ph n h :
  Core (get_client_ip request) (path request) b pm ph n h m ->
  inside b clock -> Z.of_nat h < ph ->
  let res := memory_pass request clock m in
  (if Z.of_nat n <? pm
   then (exists rh, fst res = Allowed (Z.max 0 (pm - (Z.of_nat n + 1))) rh)
        /\ Core (get_client_ip request) (path request) b pm ph (S n) (S h) (snd res)
   else fst res = TooManyRequests 60 pm (Z.max 0 (pm - Z.of_nat n))
        /\ Core (get_client_ip request) (path request) b pm ph n (S h) (snd res))
  /\ (forall K, K <> mkey (get_client_ip request) (path request) b ->
        K <> hkey (get_client_ip request) (path request) (b / 60) ->
        entries m K = [] -> entries (snd res) K = []).
Proof.
  set (ip := get_client_ip request). set (ep := path request).
  intros (Hlim & Hn & Hes & Hh) (Hmk & Hhk & Hmc & Hms & Hhc & Hhs) Hph res.
  subst res. unfold memory_pass. fold ip ep. rewrite Hlim. cbn [fst snd].
  rewrite (minute_key_inside ip ep b _ Hmk), (hour_key_inside ip ep b _ Hhk).
  pose proof (check_memory_spec (mkey ip ep b) pm 60
                (at_minute_check clock) (at_minute_sweep clock) m) as H1.
  cbv zeta in H1. destruct H1 as (R1 & E1 & O1 & L1).
  set (r1 := check_rate_limit_memory (mkey ip ep b) pm 60 _ _ m) in *.
  rewrite (swept_inside b _ _ m _ Hes Hms), (window_inside b _ _ Hes Hmc), Hn in R1, E1.
  pose proof (check_memory_spec (hkey ip ep (b / 60)) ph 3600
                (at_hour_check clock) (at_hour_sweep clock) (snd r1)) as H2.
  cbv zeta in H2. destruct H2 as (R2 & E2 & O2 & L2).
  set (r2 := check_rate_limit_memory (hkey ip ep (b / 60)) ph 3600 _ _ (snd r1)) in *.
  set (kept := List.filter _ (swept _ _ (snd r1) (hkey ip ep (b / 60)))) in *.
  assert (List.length kept <= h)%nat as Hk.
  { subst kept. etransitivity; [apply List.filter_length_le|].
    etransitivity; [apply swept_length|].
    rewrite (O1 (hkey ip ep (b / 60))) by (intros Heq; symmetry in Heq; exact (mkey_hkey _ _ _ _ Heq)).
    etransitivity; [apply swept_length|exact Hh]. }
  assert ((Z.of_nat (List.length kept) <? ph) = true) as Hadm by (apply Z.ltb_lt; lia).
  rewrite Hadm in R2, E2.
  assert (forall l, Forall (in_minute b) l ->
            entries (snd r1) (mkey ip ep b) = l ->
            entries (snd r2) (mkey ip ep b) = l) as Hkeep.
  { intros l Hl El. rewrite O2 by apply mkey_hkey.
    rewrite (swept_inside b); [exact El| |exact Hhs]. now rewrite El. }
  assert (List.length (entries (snd r2) (hkey ip ep (b / 60))) <= S h)%nat as Hh2.
  { rewrite E2, length_app. simpl. lia. }
  assert (limits_of (snd r2) ep = (pm, ph)) as Hlim2 by now rewrite L2, L1.
  split.
  - rewrite R1, R2. cbn [fst snd].
    destruct (Z.of_nat n <? pm) eqn:En; cbn [negb].
    + split; [eexists; reflexivity|].
      assert (Forall (in_minute b)
                (entries m (mkey ip ep b) ++ [at_minute_check clock])%list) as Hall
        by (apply Forall_app; split; [assumption|now constructor]).
      specialize (Hkeep _ Hall E1). unfold Core. rewrite Hkeep.
      split_and!; auto. rewrite length_app. simpl. lia.
    + split; [reflexivity|].
      specialize (Hkeep _ Hes E1). unfold Core. rewrite Hkeep. split_and!; auto.
  - intros K HKm HKh HK. rewrite O2 by assumption. apply swept_nil.
    rewrite O1 by assumption. now apply swept_nil.
Qed.

Definition is_allowed (o : Outcome) : Prop :=
  match o with
  | Allowed _ _ => True
  | _ => False
  end.

(** As long as the minute and the hour quota last, every pass of a run in
    the minute window [b] is admitted. *)
Lemma allowed_run request redis b pm ph clocks :
  (forall db, redis <> Serving db) -> path request ∉ exempt_paths ->
  Forall (inside b) clocks ->
  forall m n h,
  Core (get_client_ip request) (path request) b pm ph n h m ->
  Z.of_nat (n + List.length clocks) <= pm ->
  Z.of_nat (h + List.length clocks) <= ph ->
  let res := dispatch_all request clocks redis m in
  Forall is_allowed (fst res)
  /\ List.length (fst res) = List.length clocks
  /\ fst (snd res) = redis
  /\ Core (get_client_ip request) (path request) b pm ph
        (n + List.length clocks) (h + List.length clocks) (snd (snd res))
  /\ (forall K, K <> mkey (get_client_ip request) (path request) b ->
         K <> hkey (get_client_ip request) (path request) (b / 60) ->
         entries m K = [] -> entries (snd (snd res)) K = []).
Proof.
  intros Hr Hp. induction 1 as [|clock clocks Hc Hcs IH]; intros m n h HC Hn Hh.
  - cbn. rewrite !Nat.add_0_r. split_and!; auto.
  - cbn [dispatch_all List.length] in *. rewrite dispatch_memory by assumption.
    destruct (memory_pass_core request clock m b pm ph n h HC Hc ltac:(lia))
      as [Hpass Hother].
    destruct (Z.of_nat n <? pm) eqn:En; [|apply Z.ltb_ge in En; lia].
    destruct Hpass as [[rh Ho] HC'].
    specialize (IH _ _ _ HC' ltac:(lia) ltac:(lia)).
    destruct (dispatch_all request clocks redis (snd (memory_pass request clock m)))
      as [os [redis' m']].
    cbn [fst snd] in *. destruct IH as (Hos & Hlen & Hred & HC2 & Hother2).
    split_and!; auto.
    + constructor; [now rewrite Ho|assumption].
    + simpl. now rewrite Hlen.
    + replace (n + S (List.length clocks))%nat with (S n + List.length clocks)%nat
        by lia.
      replace (h + S (List.length clocks))%nat with (S h + List.length clocks)%nat
        by lia.
      exact HC2.
Qed.

End RateLimitWindow.

(** C5: a client that has no request on record for an endpoint limited to
    5 calls a minute, served from the in-memory store.  Five passes whose
    clock readings fall in one minute window are admitted, a sixth pass in
    that window is refused with status 429, and a pass in the next window
    is admitted again. *)
Theorem rate_limit_boundary (request : RateLimit.Request) (redis : RateLimit.Redis)
    (m0 : RateLimit.Middleware) (b per_hour : Z)
    (clocks : list RateLimit.Readings) (sixth next : RateLimit.Readings) :
  (forall db, redis <> RateLimit.Serving db) ->
  RateLimit.path request ∉ RateLimit.exempt_paths ->
  RateLimit.limits_of m0 (RateLimit.path request) = (5, per_hour) ->
  6 < per_hour ->
  let ip := RateLimit.get_client_ip request in
  let ep := RateLimit.path request in
  entries m0 (mkey ip ep b) = [] ->
  entries m0 (hkey ip ep (b / 60)) = [] ->
  entries m0 (mkey ip ep (b + 1)) = [] ->
  entries m0 (hkey ip ep ((b + 1) / 60)) = [] ->
  List.length clocks = 5%nat ->
  Forall (inside b) clocks -> inside b sixth -> inside (b + 1) next ->
  let first_five := RateLimit.dispatch_all request clocks redis m0 in
  let sixth_pass :=
    RateLimit.dispatch request sixth (fst (snd first_five)) (snd (snd first_five)) in
  let next_pass :=
    RateLimit.dispatch request next (fst (snd sixth_pass)) (snd (snd sixth_pass)) in
  List.length (fst first_five) = 5%nat
  /\ Forall is_allowed (fst first_five)
  /\ fst sixth_pass = RateLimit.TooManyRequests 60 5 0
  /\ is_allowed (fst next_pass).
Proof.
  intros Hr Hp Hlim Hph ip ep Hm Hh Hm' Hh' Hlen Hin H6 H7 first_five sixth_pass next_pass.
  assert (Core ip ep b 5 per_hour 0 0 m0) as HC0.
  { unfold Core. rewrite Hm, Hh. split_and!; auto. }
  destruct (allowed_run request redis b 5 per_hour clocks Hr Hp Hin m0 0%nat 0%nat HC0
              ltac:(lia) ltac:(lia)) as (Hadm & Hl5 & Hred & HC5 & Hother5).
  fold first_five in Hadm, Hl5, Hred, HC5, Hother5. rewrite Hlen in *. cbn [Nat.add] in HC5.
  subst sixth_pass next_pass. rewrite Hred.
  rewrite (dispatch_memory_redis request sixth redis _ Hr Hp).
  rewrite (dispatch_memory_state request sixth redis _ Hr Hp).
  rewrite !dispatch_memory_outcome by assumption.
  destruct (memory_pass_core request sixth _ b 5 per_hour 5 5 HC5 H6 ltac:(lia))
    as [[Ho6 HC6] Hother6].
  set (m6 := snd (memory_pass request sixth (snd (snd first_five)))) in *.
  assert (forall K, K <> mkey ip ep b -> K <> hkey ip ep (b / 60) ->
            entries m0 K = [] -> entries m6 K = []) as Hother.
  { intros K H1 H2 H3. apply Hother6; [exact H1|exact H2|].
    apply Hother5; assumption. }
  assert (Core ip ep (b + 1) 5 per_hour 0 6 m6) as HC7.
  { destruct HC6 as (Hl6 & _ & _ & Hh6). unfold Core.
    rewrite (Hother (mkey ip ep (b + 1))); [| |apply mkey_hkey|assumption].
    - split_and!; auto.
      destruct (decide ((b + 1) / 60 = b / 60)) as [->|Hne]; [exact Hh6|].
      rewrite (Hother (hkey ip ep ((b + 1) / 60))); [simpl; lia| | |assumption].
      + intros Heq. symmetry in Heq. exact (mkey_hkey _ _ _ _ Heq).
      + intros Heq%hkey_inj. contradiction.
    - intros Heq%mkey_inj. lia. }
  destruct (memory_pass_core request next m6 (b + 1) 5 per_hour 0 6 HC7 H7 ltac:(lia))
    as [[[rh Ho7] _] _].
  split_and!.
  - exact Hl5.
  - exact Hadm.
  - rewrite Ho6. reflexivity.
  - rewrite Ho7. exact I.
Qed.

(** A development middleware with the default limit of 5 calls a minute,
    one client, and seven passes: six in the minute window 28333333 and one
    in the next. *)
Definition sample_request : RateLimit.Request :=
  {| RateLimit.path := "/api/history";
     RateLimit.x_forwarded_for := Some "203.0.113.7, 10.0.0.1";
     RateLimit.x_real_ip := None;
     RateLimit.client_host := Some "10.0.0.1" |}.

Definition sample_start : Z := 28333333 * (60 * second).

Lemma rate_limit_boundary_witness :
  let first_five :=
    RateLimit.dispatch_all sample_request
      (List.map (fun i => RateLimit.at_once (sample_start + i * second)) [0; 1; 2; 3; 4])
      RateLimit.Unreachable (RateLimit.new 5 1000 false sample_start) in
  let sixth_pass :=
    RateLimit.dispatch sample_request (RateLimit.at_once (sample_start + 59 * second))
      (fst (snd first_five)) (snd (snd first_five)) in
  let next_pass :=
    RateLimit.dispatch sample_request (RateLimit.at_once (sample_start + 60 * second))
      (fst (snd sixth_pass)) (snd (snd sixth_pass)) in
  List.length (fst first_five) = 5%nat
  /\ Forall is_allowed (fst first_five)
  /\ fst sixth_pass = RateLimit.TooManyRequests 60 5 0
  /\ is_allowed (fst next_pass).
Proof.
  apply (rate_limit_boundary sample_request RateLimit.Unreachable
           (RateLimit.new 5 1000 false sample_start) 28333333 1000).
  - discriminate.
  - apply (bool_decide_unpack _). vm_compute. exact I.
  - vm_compute. reflexivity.
  - lia.
  - reflexivity.
  - reflexivity.
  - reflexivity.
  - reflexivity.
  - reflexivity.
  - repeat constructor; vm_compute; try discriminate; reflexivity.
  - repeat split; vm_compute; try discriminate; reflexivity.
  - repeat split; vm_compute; try discriminate; reflexivity.
Defined.



(** With a Redis server holding a sorted set for the key, the check still
    answers from the memory store, and the sorted set is as it was. *)
Lemma redis_check_answers_from_memory :
  let db : gmap string (gmap string Z) := {[ "k" := {[ "100" := 100 ]} ]} in
  let m := RateLimit.with_store {[ "k" := [100 * second] ]}
             (RateLimit.new 1 10 false 0) in
  let res := RateLimit.check_rate_limit_redis "k" 1 60 (101 * second) (101 * second)
               (RateLimit.Serving db) m in
  fst res = (false, 1)
  /\ fst (snd res) = RateLimit.Serving db
  /\ RateLimit.memory_store (snd (snd res)) !! "k" = Some [100 * second].
Proof.
  vm_compute. split_and!; reflexivity.
Qed.

(** ** Properties of the in-flight deduplication *)

Section Dedup.

Import Chat.

Variable uuid4 : nat -> string.

Implicit Types (L : Loop) (key : string).

Lemma first_caller_creates key topic age client L :
  _INFLIGHT_LESSONS L !! key = None ->
  _get_or_compute_lesson key topic age client L
  = (List.length (futures L),
     {| _INFLIGHT_LESSONS := <[key := List.length (futures L)]> (_INFLIGHT_LESSONS L);
        futures := (futures L ++ [None])%list;
        tasks := (tasks L ++ [ {| task_future := List.length (futures L);
                                  task_key := key; task_topic := topic;
                                  task_age := age; task_client := client |} ])%list;
        computations := computations L;
        drawn := drawn L |}).
Proof. intros H. unfold _get_or_compute_lesson. now rewrite H. Qed.

Lemma later_caller_joins key topic age client L fut :
  _INFLIGHT_LESSONS L !! key = Some fut -> futures L !! fut = Some None ->
  _get_or_compute_lesson key topic age client L = (fut, L).
Proof.
  intros Hk Hf. unfold _get_or_compute_lesson, done. now rewrite Hk, Hf.
Qed.

Lemma later_callers_join key callers L fut :
  _INFLIGHT_LESSONS L !! key = Some fut -> futures L !! fut = Some None ->
  enter_all key callers L = (List.repeat fut (List.length callers), L).
Proof.
  intros Hk Hf. induction callers as [|[[topic age] client] callers IH]; [reflexivity|].
  cbn [enter_all]. rewrite (later_caller_joins _ _ _ _ _ _ Hk Hf), IH. reflexivity.
Qed.

(** The result a [_run] task gives its future. *)
Definition settled (t : Task) (env : Compute) (drawn : nat) : Lesson :=
  match env with
  | Computes upstream =>
      fst (_compute_structured_lesson uuid4 (task_key t) (task_topic t)
             (task_age t) (if task_client t then Some upstream else None) drawn)
  | Breaks =>
      ({| id := Some (uuid4 (S drawn));
          introduction := Some (error_message (task_topic t));
          classifications := [];
          sections := sections (_stub_lesson (task_topic t) (task_age t) "");
          diagram := "";
          quiz := quiz (_stub_lesson (task_topic t) (task_age t) "") |}, "stub")
  end.

(** The course of [N] concurrent calls for one key, none of them in
    flight before: all wait on one future, one task is scheduled, and
    running it awaits the computation once, settles the future, clears the
    key and hands every caller the same result. *)
Lemma dedup_run key first rest env L :
  _INFLIGHT_LESSONS L !! key = None ->
  let started := enter_all key (first :: rest) L in
  let fut := List.length (futures L) in
  let task :=
    {| task_future := fut; task_key := key; task_topic := first.1.1;
       task_age := first.1.2; task_client := first.2 |} in
  fst started = List.repeat fut (S (List.length rest))
  /\ tasks (snd started) = (tasks L ++ [task])%list
  /\ computations (snd started) = computations L
  /\ exists L',
       _run uuid4 (List.length (tasks L)) env (snd started) = Some L'
       /\ computations L' = S (computations L)
       /\ tasks L' = tasks L
       /\ _INFLIGHT_LESSONS L' !! key = None
       /\ Forall (fun f => awaited f L' = Received (settled task env (drawn L)))
                 (fst started).
Proof.
  intros Hk started fut task. destruct first as [[topic age] client].
  subst started. cbn [enter_all].
  rewrite (first_caller_creates _ _ _ _ _ Hk).
  set (L1 := Build_Loop _ _ _ _ _).
  rewrite (later_callers_join key rest L1 fut).
  2: { cbn. apply lookup_insert_eq. }
  2: { cbn. rewrite lookup_app_r by reflexivity. now rewrite Nat.sub_diag. }
  cbn [fst snd]. split_and!; try reflexivity.
  assert (tasks L1 !! List.length (tasks L) = Some task) as Ht.
  { cbn. rewrite lookup_app_r by reflexivity. now rewrite Nat.sub_diag. }
  unfold _run. rewrite Ht.
  assert (exists d,
            (match env with
             | Computes upstream =>
                 _compute_structured_lesson uuid4 (task_key task) (task_topic task)
                   (task_age task) (if task_client task then Some upstream else None)
                   (drawn L1)
             | Breaks =>
                 (({| id := Some (uuid4 (S (drawn L1)));
                      introduction :=
                        introduction (_stub_lesson (task_topic task) (task_age task)
                                        (uuid4 (drawn L1)));
                      classifications :=
                        classifications (_stub_lesson (task_topic task) (task_age task)
                                           (uuid4 (drawn L1)));
                      sections :=
                        sections (_stub_lesson (task_topic task) (task_age task)
                                    (uuid4 (drawn L1)));
                      diagram :=
                        diagram (_stub_lesson (task_topic task) (task_age task)
                                   (uuid4 (drawn L1)));
                      quiz :=
                        quiz (_stub_lesson (task_topic task) (task_age task)
                                (uuid4 (drawn L1))) |}, "stub"), S (S (drawn L1)))
             end) = (settled task env (drawn L), d)) as [d ->].
  { destruct env as [upstream|]; cbn [settled drawn L1].
    - eexists. apply surjective_pairing.
    - eexists. reflexivity. }
  eexists. split; [reflexivity|]. split_and!.
  - reflexivity.
  - cbn. rewrite delete_middle. apply app_nil_r.
  - cbn. apply lookup_delete_eq.
  - apply Forall_forall. intros f Hf.
    apply list_elem_of_In in Hf.
    change (In f (List.repeat fut (S (List.length rest)))) in Hf.
    apply List.repeat_spec in Hf. subst f.
    unfold awaited. cbn.
    rewrite list_lookup_insert_eq by (rewrite length_app; simpl; lia).
    reflexivity.
Qed.

End Dedup.

(** C1, as the code has it.  In chat.py, [N] calls of
    [_get_or_compute_lesson] for one key, none in flight before and all
    entered before the [_run] task runs, wait on one future; one task is
    scheduled; running it awaits the computation exactly once and every
    caller receives the same result.  In main.py, a request that misses the
    cache and is no greeting calls the upstream itself. *)
Theorem inflight_dedup (uuid4 : nat -> string)
    (key : string) (first : string * option Z * bool)
    (rest : list (string * option Z * bool)) (env : Chat.Compute) (L : Chat.Loop) :
  Chat._INFLIGHT_LESSONS L !! key = None ->
  let started := Chat.enter_all key (first :: rest) L in
  (exists fut L',
     fst started = List.repeat fut (S (List.length rest))
     /\ List.length (Chat.tasks (snd started)) = S (List.length (Chat.tasks L))
     /\ Chat.computations (snd started) = Chat.computations L
     /\ Chat._run uuid4 (List.length (Chat.tasks L)) env (snd started) = Some L'
     /\ Chat.computations L' = S (Chat.computations L)
     /\ Chat.tasks L' = Chat.tasks L
     /\ exists result,
          Forall (fun f => Chat.awaited f L' = Chat.Received result) (fst started))
  /\ (forall greeting now body s,
        Main.get_cache now (get_cache_key (Text.strip (Main.topic body))) "lessons" s = None ->
        Main.is_social_greeting (Text.strip (Main.topic body)) = false ->
        exists p,
          Main.structured_lesson_begin greeting now body s
          = (inr p, {| Main.cache := Main.cache s;
                       Main.upstream_calls := S (Main.upstream_calls s) |})).
Proof.
  intros Hk started. split.
  - destruct (dedup_run uuid4 key first rest env L Hk)
      as (Hf & Ht & Hc & L' & Hrun & Hc' & Ht' & _ & Hall).
    exists (List.length (Chat.futures L)), L'. fold started in Hf, Ht, Hc, Hrun, Hall.
    split_and!; auto.
    + rewrite Ht, length_app. simpl. lia.
    + eexists. exact Hall.
  - intros greeting now body s Hmiss Hg. unfold Main.structured_lesson_begin.
    rewrite Hmiss, Hg. eexists. reflexivity.
Qed.

(** The key of chat.py for the topic Photosynthesis at age 10. *)
Definition photosynthesis_key : string := lesson_cache_key "Photosynthesis" (Some 10).

(** Three callers of one key on an idle loop. *)
Definition three_callers : list (string * option Z * bool) :=
  [ ("Photosynthesis", Some 10, true);
    ("Photosynthesis", Some 10, true);
    ("Photosynthesis", Some 10, true) ].

Lemma inflight_dedup_witness :
  Chat._INFLIGHT_LESSONS Chat.empty_loop !! photosynthesis_key = None
  /\ exists L',
       Chat._run pretty 0
         (Chat.Computes (Chat.Returns (Some "{}")))
         (snd (Chat.enter_all photosynthesis_key three_callers Chat.empty_loop)) = Some L'
       /\ Chat.computations L' = 1%nat.
Proof.
  split; [apply lookup_empty|].
  destruct (inflight_dedup pretty photosynthesis_key
              ("Photosynthesis", Some 10, true)
              [("Photosynthesis", Some 10, true); ("Photosynthesis", Some 10, true)]
              (Chat.Computes (Chat.Returns (Some "{}"))) Chat.empty_loop (lookup_empty _))
    as [(fut & L' & _ & _ & _ & Hrun & Hc & _) _].
  exists L'. split; [exact Hrun|exact Hc].
Defined.

(** A stand-in for the greeting response. *)
Definition no_greeting : Main.StructuredLessonResponse :=
  {| Main.introduction := None; Main.classifications := []; Main.sections := [];
     Main.diagram := ""; Main.quiz := [] |}.

(** C1 fails on the endpoint of main.py: two requests for one topic, the
    second made while the first waits for the upstream, both miss the cache
    and the upstream is called twice. *)
Lemma structured_lesson_calls_upstream_twice :
  let body := {| Main.topic := "Photosynthesis"; Main.age := Some 10 |} in
  let s0 := {| Main.cache := Main.Up ∅; Main.upstream_calls := 0 |} in
  let first := Main.structured_lesson_begin no_greeting 0 body s0 in
  let second := Main.structured_lesson_begin no_greeting 0 body (snd first) in
  (exists p, fst first = inr p) /\ (exists p, fst second = inr p)
  /\ Main.upstream_calls (snd second) = 2%nat
  /\ Main.upstream_calls (snd second) <> 1%nat.
Proof.
  vm_compute. split_and!; try (eexists; reflexivity); congruence.
Qed.

(** C4, as the code has it.  When the awaited computation breaks, the
    [_run] task settles the future with the stub lesson, tagged stub and
    given a second identifier: every waiter receives that lesson as a
    result, none the exception, and the key leaves the registry. *)
Theorem compute_failure_settles_with_stub (uuid4 : nat -> string)
    (key : string) (first : string * option Z * bool)
    (rest : list (string * option Z * bool)) (L : Chat.Loop) :
  Chat._INFLIGHT_LESSONS L !! key = None ->
  let started := Chat.enter_all key (first :: rest) L in
  exists L',
    Chat._run uuid4 (List.length (Chat.tasks L)) Chat.Breaks (snd started) = Some L'
    /\ Chat._INFLIGHT_LESSONS L' !! key = None
    /\ Chat.tasks L' = Chat.tasks L
    /\ Forall (fun f =>
         exists lesson,
           Chat.awaited f L' = Chat.Received (lesson, "stub")
           /\ Chat.id lesson = Some (uuid4 (S (Chat.drawn L)))
           /\ Chat.sections lesson
              = Chat.sections (Chat._stub_lesson first.1.1 first.1.2 ""))
         (fst started).
Proof.
  intros Hk started.
  destruct (dedup_run uuid4 key first rest Chat.Breaks L Hk)
    as (_ & _ & _ & L' & Hrun & _ & Ht' & Hk' & Hall).
  fold started in Hrun, Hall. exists L'. split_and!; auto.
  eapply Forall_impl; [exact Hall|]. intros f Hf. cbn in Hf.
  eexists. split; [exact Hf|]. split; reflexivity.
Qed.

Lemma compute_failure_settles_with_stub_witness :
  Chat._INFLIGHT_LESSONS Chat.empty_loop !! photosynthesis_key = None
  /\ exists L',
       Chat._run pretty 0 Chat.Breaks
         (snd (Chat.enter_all photosynthesis_key three_callers Chat.empty_loop)) = Some L'
       /\ Chat._INFLIGHT_LESSONS L' !! photosynthesis_key = None.
Proof.
  split; [apply lookup_empty|].
  destruct (compute_failure_settles_with_stub pretty
              photosynthesis_key ("Photosynthesis", Some 10, true)
              [("Photosynthesis", Some 10, true); ("Photosynthesis", Some 10, true)]
              Chat.empty_loop (lookup_empty _))
    as (L' & Hrun & Hk & _).
  exists L'. split; [exact Hrun|exact Hk].
Defined.

(** C4 fails: the computation breaks, and what the waiter receives is a
    lesson, not the exception. *)
Lemma compute_failure_is_not_propagated :
  let started := Chat.enter_all photosynthesis_key three_callers Chat.empty_loop in
  fst started = [0%nat; 0%nat; 0%nat]
  /\ exists L',
       Chat._run pretty 0 Chat.Breaks (snd started) = Some L'
       /\ Chat.awaited 0 L'
          = Chat.Received
              ({| Chat.id := Some "1";
                  Chat.introduction := Some (Chat.error_message "Photosynthesis");
                  Chat.classifications := [];
                  Chat.sections :=
                    Chat.sections (Chat._stub_lesson "Photosynthesis" (Some 10) "");
                  Chat.diagram := "";
                  Chat.quiz := Chat.quiz (Chat._stub_lesson "Photosynthesis" (Some 10) "") |},
               "stub")
       /\ Chat.awaited 0 L' <> Chat.Raised.
Proof.
  split; [vm_compute; reflexivity|]. eexists.
  split; [vm_compute; reflexivity|]. split; [vm_compute; reflexivity|discriminate].
Qed.

(** C2, as the code has it.  In chat.py an upstream call that raises ends
    in the stub lesson: [_compute_structured_lesson] returns it tagged
    stub, with fixed text naming the topic and a fresh identifier, and the
    callers waiting on the key all receive it.  In main.py the endpoint
    answers an upstream call that raises with status 500 and leaves the
    cache as it was. *)
Theorem upstream_failure_stub_or_500 (uuid4 : nat -> string)
    (key topic : string) (age : option Z)
    (rest : list (string * option Z * bool)) (L : Chat.Loop) :
  Chat._INFLIGHT_LESSONS L !! key = None ->
  let started := Chat.enter_all key ((topic, age, true) :: rest) L in
  (forall cache_key drawn,
     Chat._compute_structured_lesson uuid4 cache_key topic age
       (Some Chat.Raises) drawn
     = ((Chat._stub_lesson topic age (uuid4 drawn), "stub"), S drawn))
  /\ (exists L',
        Chat._run uuid4 (List.length (Chat.tasks L))
          (Chat.Computes Chat.Raises) (snd started) = Some L'
        /\ Forall (fun f =>
             Chat.awaited f L'
             = Chat.Received (Chat._stub_lesson topic age (uuid4 (Chat.drawn L)), "stub"))
             (fst started))
  /\ (forall assemble now p s,
        Main.structured_lesson_finish assemble now p Chat.Raises s
        = (Main.HttpError 500, s)).
Proof.
  intros Hk started. split_and!.
  - reflexivity.
  - destruct (dedup_run uuid4 key (topic, age, true) rest
                (Chat.Computes Chat.Raises) L Hk)
      as (_ & _ & _ & L' & Hrun & _ & _ & _ & Hall).
    exists L'. split; [exact Hrun|exact Hall].
  - reflexivity.
Qed.

Lemma upstream_failure_stub_or_500_witness :
  Chat._INFLIGHT_LESSONS Chat.empty_loop !! photosynthesis_key = None
  /\ exists L',
       Chat._run pretty 0 (Chat.Computes Chat.Raises)
         (snd (Chat.enter_all photosynthesis_key three_callers Chat.empty_loop)) = Some L'
       /\ Forall (fun f =>
            Chat.awaited f L'
            = Chat.Received (Chat._stub_lesson "Photosynthesis" (Some 10) "0", "stub"))
            (fst (Chat.enter_all photosynthesis_key three_callers Chat.empty_loop)).
Proof.
  split; [apply lookup_empty|].
  destruct (upstream_failure_stub_or_500 pretty
              photosynthesis_key "Photosynthesis" (Some 10)
              [("Photosynthesis", Some 10, true); ("Photosynthesis", Some 10, true)]
              Chat.empty_loop (lookup_empty _))
    as (_ & (L' & Hrun & Hall) & _).
  exists L'. split; [exact Hrun|exact Hall].
Defined.

(** C2 fails on the endpoint of main.py: the cache is empty, the topic is
    no greeting, the upstream call raises, and the answer is status 500. *)
Lemma structured_lesson_upstream_failure_is_500 :
  let body := {| Main.topic := "Photosynthesis"; Main.age := Some 10 |} in
  let s0 := {| Main.cache := Main.Up ∅; Main.upstream_calls := 0 |} in
  let first := Main.structured_lesson_begin no_greeting 0 body s0 in
  exists p,
    fst first = inr p
    /\ fst (Main.structured_lesson_finish (fun _ => None) 0 p Chat.Raises (snd first))
       = Main.HttpError 500.
Proof. vm_compute. eexists. split; reflexivity. Qed.

(** * Part III: further properties of the code *)

(** ** The repository: delete, exists, counters and the time-to-live of a
       namespace *)

Section RepositoryMore.

Context {V : Type}.

Import MemoryCacheRepository.

Implicit Types (r : MemoryCacheRepository.t V) (c : TTLCache.t V).

(** The cache of the namespace after [delete]: an entry that had not
    expired at the membership test is gone, whatever the second reading of
    the clock is. *)
Definition cache_after_delete (now : Z) (k : string) c : TTLCache.t V :=
  if TTLCache.contains now k c
  then TTLCache.Cache (TTLCache.maxsize c) (TTLCache.ttl c)
         (TTLCache.remove k (TTLCache.links c))
  else c.

(** The entry of [k] had not expired at [now] and has at [later]. *)
Definition expires_between (now later : Z) (k : string) c : Prop :=
  exists v expires,
    TTLCache.lookup k (TTLCache.links c) = Some (v, expires)
    /\ now < expires <= later.

Lemma delitem_snd now later k c :
  TTLCache.contains now k c = true ->
  snd (TTLCache.delitem later k c) = cache_after_delete now k c.
Proof.
  intros H. unfold cache_after_delete. rewrite H.
  unfold TTLCache.contains, TTLCache.delitem in *.
  now destruct (TTLCache.lookup k (TTLCache.links c)) as [[v e]|].
Qed.

Lemma delitem_fst now later k c :
  TTLCache.contains now k c = true ->
  fst (TTLCache.delitem later k c) = None <-> expires_between now later k c.
Proof.
  intros H. unfold TTLCache.contains, TTLCache.delitem, expires_between in *.
  destruct (TTLCache.lookup k (TTLCache.links c)) as [[v e]|]; [|discriminate].
  apply Z.ltb_lt in H. cbn [fst]. destruct (later <? e) eqn:E; split.
  - discriminate.
  - intros (v' & e' & [= -> ->] & Hb). apply Z.ltb_lt in E. lia.
  - intros _. exists v, e. apply Z.ltb_ge in E. split; [reflexivity|lia].
  - reflexivity.
Qed.

(** What [delete] answers and what it leaves. *)
Lemma delete_spec now later k ns r :
  let res := delete now later k ns r in
  let c := cache_of ns r in
  _caches (snd res) !! ns = Some (cache_after_delete now k c)
  /\ (forall ns', ns' <> ns -> _caches (snd res) !! ns' = _caches r !! ns')
  /\ _default_maxsize (snd res) = _default_maxsize r
  /\ _default_ttl (snd res) = _default_ttl r
  /\ hits (snd res) = hits r
  /\ misses (snd res) = misses r
  /\ (fst res = false <-> expires_between now later k c)
  /\ errors (snd res) = errors r + (if fst res then 0 else 1).
Proof.
  cbv zeta. unfold delete. rewrite <- _get_cache_fst.
  destruct (_get_cache_snd ns r) as (Hs & Ho & Hm & Ht).
  assert (hits (snd (_get_cache ns r)) = hits r
          /\ misses (snd (_get_cache ns r)) = misses r
          /\ errors (snd (_get_cache ns r)) = errors r) as (Hh & Hmi & He).
  { unfold _get_cache. now destruct (_caches r !! ns). }
  rewrite <- _get_cache_fst in Hs.
  destruct (_get_cache ns r) as [c r0]. cbn [fst snd] in *.
  destruct (TTLCache.contains now k c) eqn:Ec.
  - pose proof (delitem_snd now later k c Ec) as Hd.
    pose proof (delitem_fst now later k c Ec) as Hf.
    destruct (TTLCache.delitem later k c) as [[[]|] c']; cbn [fst snd] in *; subst c';
      (split_and!; auto;
       [ cbn; apply lookup_insert_eq
       | intros ns' Hne; cbn; rewrite lookup_insert_ne by congruence; auto
       | | ]).
    + split; [discriminate|]. intros H. apply Hf in H. discriminate.
    + cbn. lia.
    + split; [intros _; now apply Hf|reflexivity].
    + cbn. lia.
  - cbn [fst snd]. split_and!; auto.
    + unfold cache_after_delete. now rewrite Ec.
    + split; [discriminate|]. intros (v & e & Hl & Hb).
      unfold TTLCache.contains in Ec. rewrite Hl in Ec. apply Z.ltb_ge in Ec. lia.
    + lia.
Qed.

Lemma cache_of_delete_same now later k ns r :
  cache_of ns (snd (delete now later k ns r)) = cache_after_delete now k (cache_of ns r).
Proof.
  destruct (delete_spec now later k ns r) as (H & _). unfold cache_of at 1. now rewrite H.
Qed.

Lemma cache_of_delete_other now later k ns ns' r :
  ns' <> ns -> cache_of ns' (snd (delete now later k ns r)) = cache_of ns' r.
Proof.
  intros Hne. destruct (delete_spec now later k ns r) as (_ & H & Hm & Ht & _).
  unfold cache_of. now rewrite (H ns' Hne), Hm, Ht.
Qed.

(** What [get] answers for [k'] after the deletion of [k]. *)
Lemma delete_lookup now now' k k' c :
  now <= now' ->
  fst (TTLCache.get now' k' (cache_after_delete now k c))
  = if String.eqb k k' then None else fst (TTLCache.get now' k' c).
Proof.
  intros Hle. rewrite !get_fst_lookup. unfold cache_after_delete, TTLCache.contains.
  destruct (String.eqb k k') eqn:E.
  - apply String.eqb_eq in E. subst k'.
    destruct (TTLCache.lookup k (TTLCache.links c)) as [[v e]|] eqn:El.
    + destruct (now <? e) eqn:Et.
      * cbn [TTLCache.links]. now rewrite lookup_remove_eq.
      * rewrite El. apply Z.ltb_ge in Et.
        destruct (now' <? e) eqn:Et'; [apply Z.ltb_lt in Et'; lia|reflexivity].
    + now rewrite El.
  - apply String.eqb_neq in E.
    destruct (TTLCache.lookup k (TTLCache.links c)) as [[v e]|]; [|reflexivity].
    destruct (now <? e); [|reflexivity].
    cbn [TTLCache.links]. now rewrite lookup_remove_ne.
Qed.

End RepositoryMore.

(** X1: after [delete(key, namespace)] the key is absent from then on, in
    whatever state the repository was and whatever [delete] answered;
    every other key of the namespace and every other namespace answers as
    before.  [delete] answers false, and counts one error, exactly when
    the entry had not expired at the membership test and has expired when
    the deletion reads the clock again; otherwise it answers true and
    counts none. *)
Theorem delete_then_get {V : Type} (r : MemoryCacheRepository.t V)
    (now later now' : Z) (k ns : string) :
  now <= now' ->
  let res := MemoryCacheRepository.delete now later k ns r in
  fst (MemoryCacheRepository.get now' k ns (snd res)) = None
  /\ (forall k', k' <> k ->
        fst (MemoryCacheRepository.get now' k' ns (snd res))
        = fst (MemoryCacheRepository.get now' k' ns r))
  /\ (forall k' ns', ns' <> ns ->
        fst (MemoryCacheRepository.get now' k' ns' (snd res))
        = fst (MemoryCacheRepository.get now' k' ns' r))
  /\ (fst res = false <-> expires_between now later k (cache_of ns r))
  /\ MemoryCacheRepository.errors (snd res)
     = MemoryCacheRepository.errors r + (if fst res then 0 else 1).
Proof.
  intros Hle res. subst res.
  destruct (delete_spec now later k ns r) as (_ & _ & _ & _ & _ & _ & Hf & He).
  split_and!.
  - rewrite get_fst, cache_of_delete_same, delete_lookup by assumption.
    now rewrite eqb_refl_s.
  - intros k' Hne. rewrite !get_fst, cache_of_delete_same, delete_lookup by assumption.
    now rewrite eqb_ne by congruence.
  - intros k' ns' Hne. now rewrite !get_fst, cache_of_delete_other.
  - exact Hf.
  - exact He.
Qed.

Lemma delete_then_get_witness :
  let r := snd (MemoryCacheRepository.set 0 "k" "v" (Some 60) "math"
                  (MemoryCacheRepository.new 3600 1000)) in
  let res := MemoryCacheRepository.delete (59 * second) (60 * second) "k" "math" r in
  fst (MemoryCacheRepository.get (59 * second) "k" "math" r) = Some "v"
  /\ fst res = false
  /\ MemoryCacheRepository.errors (snd res) = 1
  /\ fst (MemoryCacheRepository.get (61 * second) "k" "math" (snd res)) = None.
Proof.
  split; [vm_compute; reflexivity|]. split; [vm_compute; reflexivity|].
  split; [vm_compute; reflexivity|].
  apply (delete_then_get (V := string) _ (59 * second) (60 * second) (61 * second)).
  vm_compute. discriminate.
Defined.

(** X2: [exists(key, namespace)] answers true exactly when [get] would
    answer a value, and unlike [get] it moves no counter and leaves the
    entries of the namespace and their order as they are. *)
Theorem exists_agrees_with_get {V : Type} (r : MemoryCacheRepository.t V)
    (now : Z) (k ns : string) :
  let res := MemoryCacheRepository.exists_ now k ns r in
  (fst res = true <-> exists v, fst (MemoryCacheRepository.get now k ns r) = Some v)
  /\ MemoryCacheRepository.hits (snd res) = MemoryCacheRepository.hits r
  /\ MemoryCacheRepository.misses (snd res) = MemoryCacheRepository.misses r
  /\ MemoryCacheRepository.errors (snd res) = MemoryCacheRepository.errors r
  /\ cache_of ns (snd res) = cache_of ns r.
Proof.
  cbv zeta. unfold MemoryCacheRepository.exists_.
  pose proof (_get_cache_fst ns r) as Hc.
  pose proof (_get_cache_snd ns r) as (Hs & _ & Hm & Ht).
  assert (MemoryCacheRepository.hits (snd (MemoryCacheRepository._get_cache ns r))
          = MemoryCacheRepository.hits r
          /\ MemoryCacheRepository.misses (snd (MemoryCacheRepository._get_cache ns r))
             = MemoryCacheRepository.misses r
          /\ MemoryCacheRepository.errors (snd (MemoryCacheRepository._get_cache ns r))
             = MemoryCacheRepository.errors r) as (Hh & Hmi & He).
  { unfold MemoryCacheRepository._get_cache.
    now destruct (MemoryCacheRepository._caches r !! ns). }
  destruct (MemoryCacheRepository._get_cache ns r) as [c r0]. cbn [fst snd] in *.
  subst c. split_and!; auto.
  - rewrite get_fst, get_fst_lookup. unfold TTLCache.contains.
    destruct (TTLCache.lookup k (TTLCache.links (cache_of ns r))) as [[v e]|].
    + destruct (now <? e).
      * split; eauto.
      * split; [discriminate|]. intros [w H]. discriminate.
    + split; [discriminate|]. intros [w H]. discriminate.
  - unfold cache_of at 1. now rewrite Hs.
Qed.

Section RepositoryCounters.

Context {V : Type}.

Import MemoryCacheRepository.

Implicit Types (r : MemoryCacheRepository.t V).

(** The number of [get] calls in a run. *)
Fixpoint gets (calls : list (call V)) : Z :=
  match calls with
  | [] => 0
  | CallGet _ _ _ :: calls' => 1 + gets calls'
  | _ :: calls' => gets calls'
  end.

(** The [delete] calls of a run whose second reading of the clock is
    later than the first. *)
Fixpoint slow_deletes (calls : list (call V)) : Z :=
  match calls with
  | [] => 0
  | CallDelete now later _ _ :: calls' =>
      (if now <? later then 1 else 0) + slow_deletes calls'
  | _ :: calls' => slow_deletes calls'
  end.

Lemma _get_cache_counters ns r :
  hits (snd (_get_cache ns r)) = hits r
  /\ misses (snd (_get_cache ns r)) = misses r
  /\ errors (snd (_get_cache ns r)) = errors r.
Proof. unfold _get_cache. now destruct (_caches r !! ns). Qed.

Lemma step_counters r (c : call V) :
  repo_inv r -> 1 <= _default_maxsize r ->
  hits (step r c) + misses (step r c)
  = hits r + misses r + gets [c]
  /\ errors r <= errors (step r c) <= errors r + slow_deletes [c].
Proof.
  intros Hi Hm. pose proof (@_get_cache_ok V) as Hok.
  destruct c as [now k ns|now k v ttl ns|now later k ns|now k ns];
    cbn [step gets slow_deletes].
  - unfold get. destruct (_get_cache_counters ns r) as (Hh & Hmi & He).
    destruct (_get_cache ns r) as [c r0]. cbn [snd] in *.
    destruct (TTLCache.get now k c) as [[v|] c']; cbn; lia.
  - unfold set. destruct (_get_cache_counters ns r) as (Hh & Hmi & He).
    specialize (Hok ns r Hi).
    destruct (_get_cache ns r) as [c r0]. cbn [snd] in *.
    destruct Hok as (_ & _ & _ & _ & Hc & _).
    assert (forall c1, TTLCache.maxsize c1 = TTLCache.maxsize c ->
              exists c2, TTLCache.setitem now k v c1 = (Some tt, c2)) as Hset.
    { intros c1 Hc1. unfold TTLCache.setitem.
      destruct (TTLCache.maxsize c1 <? 1) eqn:E; [apply Z.ltb_lt in E; lia|].
      eexists. reflexivity. }
    destruct (match ttl with Some n => if 0 <? n then Some n else None | None => None end)
      as [n|].
    + destruct (Hset (TTLCache.new (TTLCache.maxsize c) n) eq_refl) as [c2 ->].
      cbn. lia.
    + destruct (Hset c eq_refl) as [c2 ->]. cbn. lia.
  - destruct (delete_spec now later k ns r) as (_ & _ & _ & _ & Hh & Hmi & Hf & He).
    rewrite Hh, Hmi, He. split; [lia|].
    destruct (fst (delete now later k ns r)); [destruct (now <? later); lia|].
    destruct Hf as [Hf _]. destruct (Hf eq_refl) as (v & e & _ & Hb).
    destruct (now <? later) eqn:E; [lia|]. apply Z.ltb_ge in E. lia.
  - unfold exists_. destruct (_get_cache_counters ns r) as (Hh & Hmi & He).
    destruct (_get_cache ns r) as [c r0]. cbn in *. lia.
Qed.

Lemma slow_deletes_cons (c : call V) calls :
  slow_deletes (c :: calls) = slow_deletes [c] + slow_deletes calls.
Proof. destruct c; cbn; lia. Qed.

Lemma run_counters calls r :
  repo_inv r -> 1 <= _default_maxsize r ->
  hits (run calls r) + misses (run calls r) = hits r + misses r + gets calls
  /\ errors r <= errors (run calls r) <= errors r + slow_deletes calls.
Proof.
  revert r. induction calls as [|c calls IH]; intros r Hi Hm; [cbn; lia|].
  cbn [run fold_left]. destruct (step_ok r c Hi) as [Hi' Hm'].
  destruct (step_counters r c Hi Hm) as [Hs He].
  destruct (IH (step r c) Hi' ltac:(lia)) as [Hs' He']. unfold run in *.
  rewrite Hs', (slow_deletes_cons c calls).
  assert (gets (c :: calls) = gets [c] + gets calls) as -> by (destruct c; cbn; lia).
  lia.
Qed.

End RepositoryCounters.

(** X3: in a repository of capacity at least 1, after any run of calls the
    hits and the misses add up to the number of [get] calls made; [get],
    [set] and [exists] count no error, and the errors counted are at most
    as many as the [delete] calls whose two readings of the clock differ:
    the only error is a deletion of an entry that expires between its
    membership test and its removal. *)
Theorem counters_account_for_gets {V : Type} (default_ttl maxsize : Z)
    (calls : list (MemoryCacheRepository.call V)) :
  1 <= maxsize ->
  let r := MemoryCacheRepository.run calls (MemoryCacheRepository.new default_ttl maxsize) in
  MemoryCacheRepository.hits r + MemoryCacheRepository.misses r = gets calls
  /\ 0 <= MemoryCacheRepository.errors r <= slow_deletes calls.
Proof.
  intros Hm r.
  destruct (run_counters calls (MemoryCacheRepository.new default_ttl maxsize)
              (repo_inv_new default_ttl maxsize) Hm) as [Hs He].
  fold r in Hs, He. cbn in Hs, He. split; lia.
Qed.

Lemma counters_account_for_gets_witness :
  1 <= 2
  /\ let calls :=
       (three_sets ++ [ MemoryCacheRepository.CallGet 3 "a" "lessons";
                        MemoryCacheRepository.CallGet 3 "c" "lessons";
                        MemoryCacheRepository.CallSet 4 "d" "v" (Some 1) "lessons";
                        MemoryCacheRepository.CallDelete (4 + second - 1) (4 + second)
                          "d" "lessons" ])%list in
     let r := MemoryCacheRepository.run calls (MemoryCacheRepository.new 3600 2) in
     MemoryCacheRepository.hits r = 1 /\ MemoryCacheRepository.misses r = 1
     /\ MemoryCacheRepository.errors r = 1
     /\ MemoryCacheRepository.hits r + MemoryCacheRepository.misses r = gets calls.
Proof.
  split; [lia|]. split; [vm_compute; reflexivity|]. split; [vm_compute; reflexivity|].
  split; [vm_compute; reflexivity|].
  apply (counters_account_for_gets (V := string) 3600 2). lia.
Defined.

Section NamespaceTtl.

Context {V : Type}.

Import MemoryCacheRepository.

Implicit Types (r : MemoryCacheRepository.t V) (c : TTLCache.t V).

(** The time-to-live a namespace has after one more call: a [set] with a
    positive [ttl] on that namespace gives it that [ttl]. *)
Definition ttl_step (ns : string) (current : Z) (c : call V) : Z :=
  match c with
  | CallSet _ _ _ (Some n) ns' =>
      if (0 <? n) && String.eqb ns' ns then n else current
  | _ => current
  end.

(** The time-to-live of a namespace after a run: that of the last [set]
    that gave it a positive one, or the default of the constructor. *)
Definition namespace_ttl (default_ttl : Z) (ns : string) (calls : list (call V)) : Z :=
  fold_left (ttl_step ns) calls default_ttl.

Lemma get_snd now k ns r :
  let r' := snd (get now k ns r) in
  _caches r' !! ns = Some (snd (TTLCache.get now k (cache_of ns r)))
  /\ (forall ns', ns' <> ns -> _caches r' !! ns' = _caches r !! ns')
  /\ _default_maxsize r' = _default_maxsize r
  /\ _default_ttl r' = _default_ttl r.
Proof.
  unfold get. rewrite <- _get_cache_fst.
  destruct (_get_cache_snd ns r) as (_ & Ho & Hm & Ht).
  destruct (_get_cache ns r) as [c r0]. cbn [fst snd] in *.
  destruct (TTLCache.get now k c) as [[v|] c']; cbn [snd]; cbn; split_and!; auto;
    try apply lookup_insert_eq;
    intros ns' Hne; rewrite lookup_insert_ne by congruence; auto.
Qed.

Lemma exists_snd now k ns r :
  snd (exists_ now k ns r) = snd (_get_cache ns r).
Proof. unfold exists_. now destruct (_get_cache ns r). Qed.

Lemma cache_of_get_cache ns ns' r : cache_of ns (snd (_get_cache ns' r)) = cache_of ns r.
Proof.
  destruct (_get_cache_snd ns' r) as (Hs & Ho & Hm & Ht). unfold cache_of at 1.
  destruct (decide (ns = ns')) as [->|Hne].
  - now rewrite Hs.
  - rewrite (Ho ns Hne), Hm, Ht. reflexivity.
Qed.

Lemma ttl_get now k c : TTLCache.ttl (snd (TTLCache.get now k c)) = TTLCache.ttl c.
Proof.
  unfold TTLCache.get. destruct (TTLCache.lookup k (TTLCache.links c)) as [[v e]|];
    [|reflexivity].
  now destruct (now <? e).
Qed.

Lemma ttl_setitem now k (v : V) c :
  TTLCache.ttl (snd (TTLCache.setitem now k v c)) = TTLCache.ttl c.
Proof. unfold TTLCache.setitem. now destruct (TTLCache.maxsize c <? 1). Qed.

Lemma ttl_delete now k c : TTLCache.ttl (cache_after_delete now k c) = TTLCache.ttl c.
Proof. unfold cache_after_delete. now destruct (TTLCache.contains now k c). Qed.

Lemma step_ttl ns r (c : call V) :
  repo_inv r -> 1 <= _default_maxsize r ->
  TTLCache.ttl (cache_of ns (step r c)) = ttl_step ns (TTLCache.ttl (cache_of ns r)) c.
Proof.
  intros Hi Hm.
  destruct c as [now k ns'|now k v ttl ns'|now later k ns'|now k ns']; cbn [step ttl_step].
  - destruct (get_snd now k ns' r) as (Hs & Ho & Hd & Ht). cbv zeta in *.
    unfold cache_of at 1. destruct (decide (ns = ns')) as [->|Hne].
    + rewrite Hs. apply ttl_get.
    + rewrite (Ho ns Hne), Hd, Ht. reflexivity.
  - destruct (decide (ns = ns')) as [->|Hne].
    + rewrite cache_of_set_same. unfold cache_after_set.
      assert (TTLCache.maxsize (cache_of ns' r) = _default_maxsize r) as Hc.
      { unfold cache_of. destruct (_caches r !! ns') as [c|] eqn:E; [|reflexivity].
        now destruct (Hi ns' c E) as (_ & _ & ?). }
      destruct ttl as [n|]; [|apply ttl_setitem].
      rewrite eqb_refl_s, andb_true_r.
      destruct (0 <? n); [|apply ttl_setitem].
      rewrite setitem_new by lia. reflexivity.
    + rewrite cache_of_set_other by assumption.
      destruct ttl as [n|]; [|reflexivity].
      rewrite (eqb_ne ns' ns) by congruence. now rewrite andb_false_r.
  - destruct (decide (ns = ns')) as [->|Hne].
    + rewrite cache_of_delete_same. apply ttl_delete.
    + now rewrite cache_of_delete_other.
  - rewrite exists_snd. now rewrite cache_of_get_cache.
Qed.

Lemma run_ttl ns calls r :
  repo_inv r -> 1 <= _default_maxsize r ->
  TTLCache.ttl (cache_of ns (run calls r))
  = fold_left (ttl_step ns) calls (TTLCache.ttl (cache_of ns r)).
Proof.
  revert r. induction calls as [|c calls IH]; intros r Hi Hm; [reflexivity|].
  cbn [run fold_left]. destruct (step_ok r c Hi) as [Hi' Hm'].
  unfold run in IH. rewrite IH by (auto; lia). now rewrite step_ttl.
Qed.

(** The entry [cache[k] = v] leaves under [k], in a cache of capacity at
    least 1. *)
Lemma setitem_lookup_same now k (v : V) c :
  1 <= TTLCache.maxsize c ->
  TTLCache.lookup k (TTLCache.links (snd (TTLCache.setitem now k v c)))
  = Some (v, now + TTLCache.ttl c * second).
Proof.
  intros Hm. unfold TTLCache.setitem.
  destruct (TTLCache.maxsize c <? 1) eqn:E; [apply Z.ltb_lt in E; lia|].
  cbn [snd TTLCache.links TTLCache.expire]. rewrite lookup_app.
  assert (TTLCache.lookup k
            match TTLCache.lookup k (TTLCache.sweep now (TTLCache.links c)) with
            | Some _ => TTLCache.remove k (TTLCache.sweep now (TTLCache.links c))
            | None => TTLCache.make_room (TTLCache.maxsize c)
                        (TTLCache.sweep now (TTLCache.links c))
            end = None) as ->.
  { destruct (TTLCache.lookup k (TTLCache.sweep now (TTLCache.links c))) eqn:El.
    - apply lookup_remove_eq.
    - apply lookup_notin. intros Hin%keys_make_room.
      now apply (lookup_None_notin _ _ El). }
  cbn. now rewrite eqb_refl_s.
Qed.

End NamespaceTtl.

(** X4: in a repository of capacity at least 1, a namespace keeps the
    time-to-live of the last [set] that gave it a positive one, and the
    default of the constructor before any such [set]; a [set] without a
    time-to-live stores its entry for exactly that long. *)
Theorem set_without_ttl_uses_namespace_ttl {V : Type} (default_ttl maxsize : Z)
    (calls : list (MemoryCacheRepository.call V)) (ns k : string) (v : V)
    (ttl : option Z) (t t' : Z) :
  1 <= maxsize -> (forall n, ttl = Some n -> n <= 0) ->
  let r := MemoryCacheRepository.run calls (MemoryCacheRepository.new default_ttl maxsize) in
  TTLCache.ttl (cache_of ns r) = namespace_ttl default_ttl ns calls
  /\ fst (MemoryCacheRepository.get t' k ns
            (snd (MemoryCacheRepository.set t k v ttl ns r)))
     = if t' <? t + namespace_ttl default_ttl ns calls * second then Some v else None.
Proof.
  intros Hm Httl r.
  assert (TTLCache.ttl (cache_of ns r) = namespace_ttl default_ttl ns calls) as Hns.
  { unfold r. rewrite run_ttl; [reflexivity|apply repo_inv_new|exact Hm]. }
  split; [exact Hns|].
  destruct (cache_of_reachable default_ttl maxsize calls ns) as (_ & _ & Hc).
  fold r in Hc. rewrite get_fst, cache_of_set_same.
  assert (cache_after_set t k v ttl (cache_of ns r)
          = snd (TTLCache.setitem t k v (cache_of ns r))) as ->.
  { unfold cache_after_set. destruct ttl as [n|]; [|reflexivity].
    destruct (0 <? n) eqn:E; [|reflexivity].
    apply Z.ltb_lt in E. specialize (Httl n eq_refl). lia. }
  rewrite get_fst_lookup, setitem_lookup_same by lia. now rewrite Hns.
Qed.

Lemma set_without_ttl_uses_namespace_ttl_witness :
  1 <= 1000
  /\ let r := MemoryCacheRepository.run
                [MemoryCacheRepository.CallSet 0 "a" "1" (Some 60) "lessons"]
                (MemoryCacheRepository.new 3600 1000) in
     let r' := snd (MemoryCacheRepository.set 0 "b" "2" None "lessons" r) in
     fst (MemoryCacheRepository.get (59 * second) "b" "lessons" r') = Some "2"
     /\ fst (MemoryCacheRepository.get (60 * second) "b" "lessons" r') = None.
Proof.
  split; [lia|].
  pose proof (fun t' =>
    set_without_ttl_uses_namespace_ttl (V := string) 3600 1000
      [MemoryCacheRepository.CallSet 0 "a" "1" (Some 60) "lessons"]
      "lessons" "b" "2" None 0 t' ltac:(lia) ltac:(discriminate)) as H.
  cbv zeta in *. split.
  - destruct (H (59 * second)) as [_ ->]. vm_compute. reflexivity.
  - destruct (H (60 * second)) as [_ ->]. vm_compute. reflexivity.
Defined.

(** ** The in-process caches of main.py never take an entry *)

Section MainCacheEmpty.

Context {V : Type}.

Import MainCache.

Implicit Types (cs : gmap string (TTLCache.t V)).

Definition all_empty cs : Prop :=
  forall ns c, cs !! ns = Some c -> TTLCache.links c = [].

Lemma all_empty_caches_of config : all_empty (@caches_of V config).
Proof.
  intros ns c H. unfold caches_of in H. apply elem_of_list_to_map_2 in H.
  change (List.map ?f ?l) with (f <$> l) in H.
  apply list_elem_of_fmap in H as ([ns' [ttl m]] & [= -> ->] & _). reflexivity.
Qed.

Lemma all_empty_insert ns c cs :
  all_empty cs -> TTLCache.links c = [] -> all_empty (<[ns := c]> cs).
Proof.
  intros Hcs Hc ns' c' H. destruct (decide (ns = ns')) as [->|Hne].
  - rewrite lookup_insert_eq in H. now injection H as <-.
  - rewrite lookup_insert_ne in H by assumption. now apply (Hcs ns' c').
Qed.

Lemma len_empty now (c : TTLCache.t V) :
  TTLCache.links c = [] ->
  fst (TTLCache.len now c) = 0 /\ TTLCache.links (snd (TTLCache.len now c)) = [].
Proof. intros H. unfold TTLCache.len, TTLCache.expire. cbn. now rewrite H. Qed.

Lemma step_all_empty cs (c : MainCache.call V) : all_empty cs -> all_empty (step cs c).
Proof.
  intros Hcs. destruct c as [now k ns|now k v ttl ns|now ns items]; cbn [step].
  - unfold get_cache. destruct (cs !! ns) as [c|] eqn:E; [|exact Hcs].
    destruct (len_empty now c (Hcs ns c E)) as [Hn Hl].
    destruct (TTLCache.len now c) as [n c1]. cbn [fst snd] in *. subst n.
    cbn [snd]. now apply all_empty_insert.
  - unfold set_cache. destruct (cs !! ns) as [c|] eqn:E; [|exact Hcs].
    destruct (len_empty now c (Hcs ns c E)) as [Hn Hl].
    destruct (TTLCache.len now c) as [n c1]. cbn [fst snd] in *. subst n.
    cbn [snd]. now apply all_empty_insert.
  - unfold warm_cache. destruct (cs !! ns) as [c|] eqn:E; [|exact Hcs].
    destruct (len_empty now c (Hcs ns c E)) as [Hn Hl].
    destruct (TTLCache.len now c) as [n c1]. cbn [fst snd] in *. subst n.
    cbn [snd]. now apply all_empty_insert.
Qed.

Lemma run_all_empty calls cs : all_empty cs -> all_empty (run calls cs).
Proof.
  revert cs. induction calls as [|c calls IH]; intros cs H; [exact H|].
  cbn [run fold_left]. apply IH. now apply step_all_empty.
Qed.

End MainCacheEmpty.

(** X5: the in-process caches main.py falls back to never take an entry.
    Whatever calls were made before, [set_cache] and [warm_cache] answer
    false, [get_cache] answers nothing, and every cache is still empty:
    the test [if cache:] is false for a cache without entries. *)
Theorem fallback_caches_stay_empty {V : Type} (calls : list (MainCache.call V))
    (now : Z) (key namespace : string) (value : V) (ttl : option Z)
    (keys_values : list (string * V)) :
  let cs := MainCache.run calls MainCache.caches in
  fst (MainCache.set_cache now key value ttl namespace cs) = false
  /\ fst (MainCache.warm_cache now namespace keys_values cs) = false
  /\ fst (MainCache.get_cache now key namespace cs) = None
  /\ fst (MainCache.get_cache now key namespace
            (snd (MainCache.set_cache now key value ttl namespace cs))) = None
  /\ forall ns c, cs !! ns = Some c -> TTLCache.links c = [].
Proof.
  intros cs.
  assert (all_empty cs) as Hcs by (apply run_all_empty, all_empty_caches_of).
  assert (forall cs' : gmap string (TTLCache.t V), all_empty cs' ->
            fst (MainCache.get_cache now key namespace cs') = None) as Hget.
  { intros cs' H. unfold MainCache.get_cache.
    destruct (cs' !! namespace) as [c|] eqn:E; [|reflexivity].
    destruct (len_empty now c (H namespace c E)) as [Hn Hl].
    destruct (TTLCache.len now c) as [n c1]. cbn [fst snd] in *. now subst n. }
  split_and!.
  - unfold MainCache.set_cache. destruct (cs !! namespace) as [c|] eqn:E; [|reflexivity].
    destruct (len_empty now c (Hcs namespace c E)) as [Hn Hl].
    destruct (TTLCache.len now c) as [n c1]. cbn [fst snd] in *. now subst n.
  - unfold MainCache.warm_cache. destruct (cs !! namespace) as [c|] eqn:E; [|reflexivity].
    destruct (len_empty now c (Hcs namespace c E)) as [Hn Hl].
    destruct (TTLCache.len now c) as [n c1]. cbn [fst snd] in *. now subst n.
  - now apply Hget.
  - apply Hget.
    apply (step_all_empty cs (MainCache.SetCache now key value ttl namespace) Hcs).
  - exact Hcs.
Qed.

(** ** The rate limiter: sweep, bounds of one check, the hour window, the
       client identity and the Redis side *)

Section RateLimitMore.

Import RateLimit.

Implicit Types (m : Middleware) (K : string) (b t : Z).

Lemma Forall_filter_keep (p : Z -> bool) (l : list Z) :
  Forall (fun x => p x = true) (List.filter p l).
Proof.
  apply List.Forall_forall. intros x Hx%List.filter_In. tauto.
Qed.

Lemma cleanup_store t m K :
  memory_store (cleanup_memory_store t m) !! K
  = match memory_store m !! K with
    | Some stamps =>
        match List.filter (fun x => t - x <? 3600 * second) stamps with
        | [] => None
        | kept => Some kept
        end
    | None => None
    end.
Proof.
  unfold cleanup_memory_store. cbn [memory_store with_store]. rewrite lookup_omap.
  now destruct (memory_store m !! K).
Qed.

End RateLimitMore.

(** X6: after [cleanup_memory_store] every stamp left is less than an hour
    old, in its old order, no key is left with an empty list, no key
    appears that was not there, and the limits are untouched. *)
Theorem cleanup_keeps_recent_stamps (t : Z) (m : RateLimit.Middleware) (K : string) :
  let m' := RateLimit.cleanup_memory_store t m in
  Forall (fun x => t - x < 3600 * second) (entries m' K)
  /\ entries m' K = List.filter (fun x => t - x <? 3600 * second) (entries m K)
  /\ RateLimit.memory_store m' !! K <> Some []
  /\ (RateLimit.memory_store m !! K = None -> RateLimit.memory_store m' !! K = None)
  /\ (forall ep, RateLimit.limits_of m' ep = RateLimit.limits_of m ep)
  /\ RateLimit.last_cleanup m' = RateLimit.last_cleanup m.
Proof.
  cbv zeta. split_and!; try reflexivity.
  - rewrite cleanup_entries. eapply Forall_impl; [apply Forall_filter_keep|].
    intros x Hx. now apply Z.ltb_lt.
  - apply cleanup_entries.
  - rewrite cleanup_store. destruct (RateLimit.memory_store m !! K) as [stamps|];
      [|discriminate].
    destruct (List.filter _ stamps); discriminate.
  - intros H. now rewrite cleanup_store, H.
Qed.

(** X7: after one in-memory check with a positive window, every stamp kept
    under the key lies inside the window that ends at the check, the count
    reported is the number of stamps kept, an allowed request reports at
    most the limit, and the key holds no more stamps than the larger of the
    limit and what it held before. *)
Theorem check_memory_bounds (K : string) (limit window tc ts : Z)
    (m : RateLimit.Middleware) :
  0 < window ->
  let res := RateLimit.check_rate_limit_memory K limit window tc ts m in
  Forall (fun x => tc - window * second < x) (entries (snd res) K)
  /\ snd (fst res) = Z.of_nat (List.length (entries (snd res) K))
  /\ (fst (fst res) = true -> snd (fst res) <= limit)
  /\ Z.of_nat (List.length (entries (snd res) K))
     <= Z.max limit (Z.of_nat (List.length (entries m K))).
Proof.
  intros Hw. pose proof (check_memory_spec K limit window tc ts m) as H.
  cbv zeta in *. destruct H as (R & E & _ & _). rewrite R, E. cbn [fst snd].
  set (kept := List.filter _ (swept tc ts m K)).
  assert (Forall (fun x => tc - window * second < x) kept) as Hk.
  { eapply Forall_impl; [apply Forall_filter_keep|]. intros x Hx. now apply Z.ltb_lt. }
  assert (List.length kept <= List.length (entries m K))%nat as Hl.
  { etransitivity; [apply List.filter_length_le|apply swept_length]. }
  pose proof second_pos.
  destruct (Z.of_nat (List.length kept) <? limit) eqn:En.
  - apply Z.ltb_lt in En. split_and!.
    + apply Forall_app. split; [exact Hk|]. constructor; [nia|constructor].
    + rewrite length_app. simpl. lia.
    + intros _. lia.
    + rewrite length_app. simpl. lia.
  - apply Z.ltb_ge in En. split_and!; [exact Hk|reflexivity|discriminate|lia].
Qed.

Lemma check_memory_bounds_witness :
  0 < 60
  /\ let m := RateLimit.with_store {[ "k" := [0; 50 * second; 100 * second] ]}
                (RateLimit.new 2 10 false 0) in
     let res := RateLimit.check_rate_limit_memory "k" 2 60 (101 * second) (101 * second) m in
     entries (snd res) "k" = [50 * second; 100 * second]
     /\ snd (fst res) = Z.of_nat (List.length (entries (snd res) "k")).
Proof.
  split; [lia|]. split; [vm_compute; reflexivity|].
  apply (check_memory_bounds "k" 2 60 (101 * second) (101 * second)). lia.
Defined.

Section HourWindow.

Import RateLimit.

Implicit Types (m : Middleware) (K : string) (b t : Z).

(** The hour window of index [h]. *)
Definition in_hour (h t : Z) : Prop :=
  h * (3600 * second) <= t < (h + 1) * (3600 * second).

Lemma in_minute_in_hour b t : in_minute b t -> in_hour (b / 60) t.
Proof.
  intros H. pose proof second_pos as Hs. pose proof (in_minute_hour b t H) as Hd.
  unfold in_hour. rewrite <- Hd.
  pose proof (Z.mul_div_le t (3600 * second) ltac:(lia)).
  pose proof (Z.mul_succ_div_gt t (3600 * second) ltac:(lia)).
  unfold Z.succ in *. lia.
Qed.

Lemma hour_all_kept h tc ts m K :
  Forall (in_hour h) (entries m K) -> in_hour h tc -> in_hour h ts ->
  List.filter (fun x => tc - 3600 * second <? x) (swept tc ts m K) = entries m K.
Proof.
  intros Hes Htc Hts.
  assert (swept tc ts m K = entries m K) as ->.
  { unfold swept. destruct (_ <? _); [|reflexivity]. apply filter_all.
    eapply Forall_impl; [exact Hes|]. intros x Hx. apply Z.ltb_lt.
    unfold in_hour in *. lia. }
  apply filter_all. eapply Forall_impl; [exact Hes|]. intros x Hx. apply Z.ltb_lt.
  unfold in_hour in *. lia.
Qed.

End HourWindow.

(** X8: the hour window counts the requests the minute limit refuses.
    For a client whose minute quota in the window [b] is used up and whose
    hour stamps all lie in the current hour, below the hourly limit, a
    further pass in that minute is refused with status 429 and a retry
    delay of 60, and still adds one stamp under the hour key. *)
Theorem refused_pass_consumes_hour_quota (request : RateLimit.Request)
    (redis : RateLimit.Redis) (m : RateLimit.Middleware) (b pm ph : Z) (n h : nat)
    (clock : RateLimit.Readings) :
  (forall db, redis <> RateLimit.Serving db) ->
  RateLimit.path request ∉ RateLimit.exempt_paths ->
  let ip := RateLimit.get_client_ip request in
  let ep := RateLimit.path request in
  Core ip ep b pm ph n h m ->
  pm <= Z.of_nat n ->
  List.length (entries m (hkey ip ep (b / 60))) = h ->
  Forall (in_hour (b / 60)) (entries m (hkey ip ep (b / 60))) ->
  Z.of_nat h < ph ->
  inside b clock ->
  let res := RateLimit.dispatch request clock redis m in
  fst res = RateLimit.TooManyRequests 60 pm (Z.max 0 (pm - Z.of_nat n))
  /\ List.length (entries (snd (snd res)) (hkey ip ep (b / 60))) = S h
  /\ List.length (entries (snd (snd res)) (mkey ip ep b)) = n.
Proof.
  intros Hr Hp ip ep HC Hn Hlen Hin Hph Hclock res. subst res.
  rewrite (dispatch_memory_outcome request clock redis m Hr Hp).
  rewrite (dispatch_memory_state request clock redis m Hr Hp).
  destruct (memory_pass_core request clock m b pm ph n h HC Hclock Hph) as [Hpass _].
  fold ip ep in Hpass.
  destruct (Z.of_nat n <? pm) eqn:En; [apply Z.ltb_lt in En; lia|].
  destruct Hpass as [Ho HC']. split; [exact Ho|].
  destruct HC' as (_ & Hn' & _ & _). split; [|exact Hn'].
  destruct HC as (Hlim & _ & _ & _).
  destruct Hclock as (Hmk & Hhk & Hmc & Hms & Hhc & Hhs).
  unfold memory_pass. fold ip ep. rewrite Hlim. cbn [fst snd].
  rewrite (minute_key_inside ip ep b _ Hmk), (hour_key_inside ip ep b _ Hhk).
  pose proof (check_memory_spec (mkey ip ep b) pm 60
                (RateLimit.at_minute_check clock) (RateLimit.at_minute_sweep clock) m) as H1.
  cbv zeta in H1. destruct H1 as (_ & _ & O1 & _).
  set (m1 := snd (RateLimit.check_rate_limit_memory (mkey ip ep b) pm 60 _ _ m)) in *.
  assert (entries m1 (hkey ip ep (b / 60)) = entries m (hkey ip ep (b / 60))) as Hsame.
  { rewrite O1 by (intros Heq; symmetry in Heq; exact (mkey_hkey _ _ _ _ Heq)).
    unfold swept. destruct (RateLimit.cleanup_interval m * second <? _); [|reflexivity].
    apply filter_all.
    eapply Forall_impl; [exact Hin|]. intros x Hx. apply Z.ltb_lt.
    pose proof (in_minute_in_hour b _ Hms) as Hh'. unfold in_hour in *. lia. }
  pose proof (check_memory_spec (hkey ip ep (b / 60)) ph 3600
                (RateLimit.at_hour_check clock) (RateLimit.at_hour_sweep clock) m1) as H2.
  cbv zeta in H2. destruct H2 as (_ & E2 & _ & _).
  rewrite (hour_all_kept (b / 60)) in E2.
  - rewrite Hsame, Hlen in E2.
    destruct (Z.of_nat h <? ph) eqn:Eh; [|apply Z.ltb_ge in Eh; lia].
    rewrite E2, length_app, Hlen. simpl. lia.
  - now rewrite Hsame.
  - now apply in_minute_in_hour.
  - now apply in_minute_in_hour.
Qed.

(** A middleware whose client has used up a minute limit of 2. *)
Definition used_up : RateLimit.Middleware :=
  snd (snd (RateLimit.dispatch_all sample_request
              [RateLimit.at_once sample_start; RateLimit.at_once (sample_start + second)]
              RateLimit.NotConfigured (RateLimit.new 2 1000 false sample_start))).

Lemma refused_pass_consumes_hour_quota_witness :
  let res := RateLimit.dispatch sample_request (RateLimit.at_once (sample_start + 2 * second))
               RateLimit.NotConfigured used_up in
  fst res = RateLimit.TooManyRequests 60 2 0
  /\ List.length (entries (snd (snd res))
                    (hkey (RateLimit.get_client_ip sample_request)
                       (RateLimit.path sample_request) (28333333 / 60))) = 3%nat.
Proof.
  destruct (refused_pass_consumes_hour_quota sample_request RateLimit.NotConfigured
              used_up 28333333 2 1000 2 2
              (RateLimit.at_once (sample_start + 2 * second))) as (Ho & Hh & _).
  - discriminate.
  - apply (bool_decide_unpack _). vm_compute. exact I.
  - unfold Core. split_and!.
    + vm_compute. reflexivity.
    + vm_compute. reflexivity.
    + apply (bool_decide_unpack _). vm_compute. exact I.
    + vm_compute. lia.
  - lia.
  - vm_compute. reflexivity.
  - apply (bool_decide_unpack _). vm_compute. exact I.
  - lia.
  - repeat split; vm_compute; try discriminate; reflexivity.
  - split; [exact Ho|exact Hh].
Defined.

Section ClientIdentity.

Import RateLimit.

(** No comma among the characters of [s]. *)
Fixpoint comma_free (s : string) : bool :=
  match s with
  | EmptyString => true
  | String c s' => negb (Ascii.eqb c ",") && comma_free s'
  end.

Lemma first_field_app (ip rest : string) :
  comma_free ip = true -> first_field (ip ++ String "," rest) = ip.
Proof.
  induction ip as [|c ip IH]; intros H; rewrite ?append_nil_l, ?append_cons.
  - reflexivity.
  - cbn [comma_free] in H. apply andb_prop in H as [Hc Hip].
    cbn [first_field]. destruct (Ascii.eqb c ","); [discriminate|].
    now rewrite IH.
Qed.

End ClientIdentity.

(** X9: the client identity is taken from the header alone.  When
    X-Forwarded-For holds a comma-free entry followed by a comma,
    [get_client_ip] is that entry stripped, whatever follows the comma,
    whatever X-Real-IP says and whatever the address of the connection is. *)
Theorem client_ip_is_first_forwarded_entry (ip rest : string)
    (request : RateLimit.Request) :
  comma_free ip = true ->
  RateLimit.x_forwarded_for request = Some (ip ++ String "," rest) ->
  RateLimit.get_client_ip request = Text.strip ip.
Proof.
  intros Hip Hx. unfold RateLimit.get_client_ip. rewrite Hx.
  assert (RateLimit.nonempty (Some (ip ++ String "," rest)) = Some (ip ++ String "," rest)) as ->.
  { destruct ip; rewrite ?append_nil_l, ?append_cons; reflexivity. }
  now rewrite first_field_app.
Qed.

Lemma client_ip_is_first_forwarded_entry_witness :
  RateLimit.get_client_ip
    {| RateLimit.path := "/api/chat";
       RateLimit.x_forwarded_for := Some " 10.0.0.1 , 203.0.113.9";
       RateLimit.x_real_ip := Some "198.51.100.7";
       RateLimit.client_host := Some "192.0.2.1" |}
  = "10.0.0.1".
Proof.
  rewrite (client_ip_is_first_forwarded_entry " 10.0.0.1 " " 203.0.113.9");
    vm_compute; reflexivity.
Defined.

Section RedisUntouched.

Import RateLimit.



End RedisUntouched.


(** ** The in-flight registry of chat.py over any schedule *)

Section ScheduleFacts.

Import Chat Schedule.

Variable uuid4 : nat -> string.

Implicit Types (L : Loop) (t : Task).

(** What holds of the loop whatever callers enter and whichever tasks
    run: a registered key has a scheduled task, a scheduled task is
    registered under its key with a pending future, a pending future has a
    scheduled task, no two scheduled tasks share a key or a future, and
    every future created was computed or is scheduled. *)
Definition loop_inv L : Prop :=
  (forall k f, _INFLIGHT_LESSONS L !! k = Some f ->
     exists t, t ∈ tasks L /\ task_key t = k /\ task_future t = f)
  /\ (forall t, t ∈ tasks L ->
        _INFLIGHT_LESSONS L !! task_key t = Some (task_future t)
        /\ futures L !! task_future t = Some None)
  /\ (forall f, futures L !! f = Some None -> exists t, t ∈ tasks L /\ task_future t = f)
  /\ NoDup (task_key <$> tasks L)
  /\ NoDup (task_future <$> tasks L)
  /\ List.length (futures L) = (computations L + List.length (tasks L))%nat.

Lemma loop_inv_empty : loop_inv empty_loop.
Proof.
  unfold loop_inv, empty_loop. cbn. split_and!.
  - intros k f H. now rewrite lookup_empty in H.
  - intros t H. now apply elem_of_nil in H.
  - intros f H. discriminate.
  - constructor.
  - constructor.
  - reflexivity.
Qed.

Lemma loop_inv_enter key topic age client L :
  loop_inv L -> loop_inv (snd (_get_or_compute_lesson key topic age client L)).
Proof.
  intros (Ha & Hb & Hc & Hd & He & Hf).
  destruct (_INFLIGHT_LESSONS L !! key) as [fut|] eqn:E.
  - destruct (Ha _ _ E) as (t & Ht & Hk & Hfut). destruct (Hb t Ht) as [_ Hp].
    rewrite Hfut in Hp. rewrite (later_caller_joins _ _ _ _ _ _ E Hp). cbn [snd].
    now split_and!.
  - rewrite (first_caller_creates _ _ _ _ _ E). cbn [snd].
    set (new := Build_Task _ _ _ _ _).
    unfold loop_inv. cbn [_INFLIGHT_LESSONS futures tasks computations].
    assert (forall t, t ∈ tasks L -> task_key t <> key) as Hkey.
    { intros t Ht Heq. destruct (Hb t Ht) as [Hr _]. rewrite Heq in Hr. congruence. }
    assert (forall t, t ∈ tasks L -> task_future t <> List.length (futures L)) as Hfut.
    { intros t Ht Heq. destruct (Hb t Ht) as [_ Hp]. apply lookup_lt_Some in Hp. lia. }
    split_and!.
    + intros k f H. apply lookup_insert_Some in H as [[<- <-]|[Hne H]].
      * exists new. split; [|split; reflexivity]. apply elem_of_app. right.
        now apply list_elem_of_singleton.
      * destruct (Ha _ _ H) as (t & Ht & Hk & Hft). exists t.
        split; [|split; assumption]. apply elem_of_app. now left.
    + intros t Ht. apply elem_of_app in Ht as [Ht|Ht].
      * destruct (Hb t Ht) as [Hr Hp]. split.
        -- rewrite lookup_insert_ne; [exact Hr|]. intros Heq. now apply (Hkey t Ht).
        -- now apply lookup_app_l_Some.
      * apply list_elem_of_singleton in Ht. subst t. cbn. split.
        -- apply lookup_insert_eq.
        -- now apply list_lookup_middle.
    + intros f H. apply lookup_app_Some in H as [H|[Hle H]].
      * destruct (Hc f H) as (t & Ht & Hft). exists t. split; [|exact Hft].
        apply elem_of_app. now left.
      * exists new. split; [apply elem_of_app; right; now apply list_elem_of_singleton|].
        cbn. apply lookup_lt_Some in H. cbn in H. lia.
    + rewrite fmap_app. apply NoDup_app. split_and!; [exact Hd| |apply NoDup_singleton].
      intros x Hx Hin. apply list_elem_of_singleton in Hin. subst x.
      apply list_elem_of_fmap in Hx as (t & Heq & Ht). symmetry in Heq.
      now apply (Hkey t Ht).
    + rewrite fmap_app. apply NoDup_app. split_and!; [exact He| |apply NoDup_singleton].
      intros x Hx Hin. apply list_elem_of_singleton in Hin. subst x.
      apply list_elem_of_fmap in Hx as (t & Heq & Ht). symmetry in Heq.
      now apply (Hfut t Ht).
    + rewrite !length_app. simpl. lia.
Qed.

(** What running the [i]-th task does to the loop. *)
Lemma run_task i env L t :
  tasks L !! i = Some t ->
  exists d,
    _run uuid4 i env L
    = Some {| _INFLIGHT_LESSONS := delete (task_key t) (_INFLIGHT_LESSONS L);
              futures := <[task_future t := Some (settled uuid4 t env (drawn L))]>
                           (futures L);
              tasks := delete i (tasks L);
              computations := S (computations L);
              drawn := d |}.
Proof.
  intros Ht. unfold _run. rewrite Ht. destruct env as [upstream|]; cbn [settled].
  - destruct (_compute_structured_lesson _ _ _ _ _ _) as [result d]. now exists d.
  - eexists. reflexivity.
Qed.

Lemma delete_split {A} (l : list A) i x :
  l !! i = Some x -> exists l1 l2, l = (l1 ++ x :: l2)%list /\ delete i l = (l1 ++ l2)%list.
Proof.
  intros H. exists (take i l), (drop (S i) l). split.
  - symmetry. now apply take_drop_middle.
  - apply delete_take_drop.
Qed.

Lemma NoDup_fmap_middle {A B} (g : A -> B) (l1 l2 : list A) x :
  NoDup (g <$> (l1 ++ x :: l2)%list) ->
  NoDup (g <$> (l1 ++ l2)%list) /\ (forall y, y ∈ (l1 ++ l2)%list -> g y <> g x).
Proof.
  rewrite !fmap_app, fmap_cons. intros H.
  apply NoDup_app in H as (H1 & H12 & H2). apply NoDup_cons in H2 as [Hx H2]. split.
  - apply NoDup_app. split_and!; [exact H1| |exact H2].
    intros z Hz Hz2. apply (H12 z Hz). now right.
  - intros y Hy Heq. apply elem_of_app in Hy as [Hy|Hy].
    + apply (H12 (g x)); [|now left]. rewrite <- Heq. now apply list_elem_of_fmap_2.
    + apply Hx. rewrite <- Heq. now apply list_elem_of_fmap_2.
Qed.

Lemma loop_inv_run i env L L' :
  loop_inv L -> _run uuid4 i env L = Some L' -> loop_inv L'.
Proof.
  intros (Ha & Hb & Hc & Hd & He & Hf) Hrun.
  destruct (tasks L !! i) as [t|] eqn:Ht; [|unfold _run in Hrun; now rewrite Ht in Hrun].
  destruct (run_task i env L t Ht) as [d Heq]. rewrite Heq in Hrun.
  injection Hrun as <-.
  destruct (delete_split _ _ _ Ht) as (l1 & l2 & Hl & Hdel).
  unfold loop_inv. cbn [_INFLIGHT_LESSONS futures tasks computations]. rewrite Hdel.
  rewrite Hl in Hd, He.
  destruct (NoDup_fmap_middle _ _ _ _ Hd) as [Hd' Hkey].
  destruct (NoDup_fmap_middle _ _ _ _ He) as [He' Hfut].
  assert (forall y, y ∈ tasks L -> y = t \/ y ∈ (l1 ++ l2)%list) as Hin.
  { intros y Hy. rewrite Hl in Hy. apply elem_of_app in Hy as [Hy|Hy].
    - right. apply elem_of_app. now left.
    - apply elem_of_cons in Hy as [Hy|Hy]; [now left|]. right. apply elem_of_app. now right. }
  assert (forall y, y ∈ (l1 ++ l2)%list -> y ∈ tasks L) as Hsub.
  { intros y Hy. rewrite Hl. apply elem_of_app in Hy as [Hy|Hy]; apply elem_of_app;
      [now left|right; now right]. }
  assert (t ∈ tasks L) as Htin by (eapply list_elem_of_lookup_2; exact Ht).
  destruct (Hb t Htin) as [Hrt Hpt].
  split_and!.
  - intros k f H. apply lookup_delete_Some in H as [Hne H].
    destruct (Ha _ _ H) as (y & Hy & Hk & Hft). exists y. split; [|split; assumption].
    destruct (Hin y Hy) as [->|Hy']; [congruence|exact Hy'].
  - intros y Hy. destruct (Hb y (Hsub y Hy)) as [Hr Hp]. split.
    + rewrite lookup_delete_ne; [exact Hr|]. intros Heq'. now apply (Hkey y Hy).
    + rewrite list_lookup_insert_ne; [exact Hp|]. intros Heq'. now apply (Hfut y Hy).
  - intros f H. destruct (decide (f = task_future t)) as [->|Hne].
    + rewrite list_lookup_insert_eq in H by (eapply lookup_lt_Some; exact Hpt). discriminate.
    + rewrite list_lookup_insert_ne in H by congruence.
      destruct (Hc f H) as (y & Hy & Hft). exists y. split; [|exact Hft].
      destruct (Hin y Hy) as [->|Hy']; [congruence|exact Hy'].
  - exact Hd'.
  - exact He'.
  - rewrite length_insert, Hf, Hl, !length_app. simpl. lia.
Qed.

Lemma loop_inv_step L e : loop_inv L -> loop_inv (step uuid4 L e).
Proof.
  intros H. destruct e as [key topic age client|i env]; cbn [step].
  - now apply loop_inv_enter.
  - destruct (_run uuid4 i env L) as [L'|] eqn:E; cbn [default from_option];
      [eapply loop_inv_run; eassumption|exact H].
Qed.

Lemma loop_inv_exec events L : loop_inv L -> loop_inv (exec uuid4 events L).
Proof.
  revert L. induction events as [|e events IH]; intros L H; [exact H|].
  unfold exec. cbn [fold_left]. apply IH. now apply loop_inv_step.
Qed.

(** Running the first scheduled task of each round empties the schedule. *)
Lemma drain envs : forall L,
  loop_inv L -> List.length envs = List.length (tasks L) ->
  let L' := exec uuid4 (RunTask 0 <$> envs) L in
  tasks L' = []
  /\ List.length (futures L') = List.length (futures L)
  /\ computations L' = (computations L + List.length envs)%nat.
Proof.
  induction envs as [|env envs IH]; intros L Hinv Hlen; cbv zeta.
  - cbn. split_and!; [|reflexivity|lia]. destruct (tasks L); [reflexivity|discriminate].
  - destruct (tasks L) as [|t ts] eqn:Ht; [discriminate|].
    assert (tasks L !! 0%nat = Some t) as H0 by now rewrite Ht.
    destruct (run_task 0 env L t H0) as [d Hrun].
    set (L1 := Build_Loop _ _ _ _ _) in Hrun.
    rewrite fmap_cons.
    change (exec uuid4 (RunTask 0 env :: (RunTask 0 <$> envs)) L)
      with (exec uuid4 (RunTask 0 <$> envs)
              (step uuid4 L (RunTask 0 env))).
    assert (step uuid4 L (RunTask 0 env) = L1) as ->
      by (cbn [step]; now rewrite Hrun).
    assert (loop_inv L1) as Hinv1 by (eapply loop_inv_run; eassumption).
    assert (List.length envs = List.length (tasks L1)) as Hlen1.
    { cbn. rewrite Ht. cbn in *. lia. }
    destruct (IH L1 Hinv1 Hlen1) as (H1 & H2 & H3). split_and!.
    + exact H1.
    + rewrite H2. cbn. apply length_insert.
    + rewrite H3. cbn. lia.
Qed.

End ScheduleFacts.

(** X11: whatever callers entered and whichever tasks ran since the process
    started, no two scheduled computations share a key, every registered key
    and every pending future has a scheduled task that will settle it and
    clear the key, and the futures created are as many as the computations
    run and scheduled together. *)
Theorem registry_invariant (uuid4 : nat -> string)
    (events : list Schedule.event) :
  let L := Schedule.exec uuid4 events Chat.empty_loop in
  NoDup (Chat.task_key <$> Chat.tasks L)
  /\ (forall k f, Chat._INFLIGHT_LESSONS L !! k = Some f ->
        Chat.awaited f L = Chat.Pending
        /\ exists t, t ∈ Chat.tasks L /\ Chat.task_key t = k /\ Chat.task_future t = f)
  /\ (forall f, Chat.futures L !! f = Some None ->
        exists t, t ∈ Chat.tasks L /\ Chat.task_future t = f
                  /\ Chat._INFLIGHT_LESSONS L !! Chat.task_key t = Some f)
  /\ List.length (Chat.futures L)
     = (Chat.computations L + List.length (Chat.tasks L))%nat.
Proof.
  intros L.
  destruct (loop_inv_exec uuid4 events _ loop_inv_empty)
    as (Ha & Hb & Hc & Hd & He & Hf). fold L in Ha, Hb, Hc, Hd, He, Hf.
  split_and!; [exact Hd| | |exact Hf].
  - intros k f H. destruct (Ha k f H) as (t & Ht & Hk & Hft). split.
    + destruct (Hb t Ht) as [_ Hp]. unfold Chat.awaited. now rewrite <- Hft, Hp.
    + now exists t.
  - intros f H. destruct (Hc f H) as (t & Ht & Hft). exists t.
    destruct (Hb t Ht) as [Hr _]. rewrite Hft in Hr. now split_and!.
Qed.

(** X12: no caller is left waiting.  After any schedule, once the loop has
    run each scheduled task, every future ever created holds a result, the
    registry and the schedule are empty, and the computations run are as
    many as the futures created. *)
Theorem scheduled_tasks_settle_every_future (uuid4 : nat -> string)
    (events : list Schedule.event) (envs : list Chat.Compute) :
  let L := Schedule.exec uuid4 events Chat.empty_loop in
  List.length envs = List.length (Chat.tasks L) ->
  let L' := Schedule.exec uuid4 (Schedule.RunTask 0 <$> envs) L in
  (forall f, (f < List.length (Chat.futures L))%nat ->
     exists result, Chat.awaited f L' = Chat.Received result)
  /\ Chat._INFLIGHT_LESSONS L' = ∅
  /\ Chat.tasks L' = []
  /\ Chat.computations L' = List.length (Chat.futures L).
Proof.
  intros L Hlen L'.
  pose proof (loop_inv_exec uuid4 events _ loop_inv_empty) as Hinv. fold L in Hinv.
  destruct (drain uuid4 envs L Hinv Hlen) as (Ht & Hl & Hc). fold L' in Ht, Hl, Hc.
  pose proof (loop_inv_exec uuid4 (Schedule.RunTask 0 <$> envs) L Hinv) as Hinv'.
  fold L' in Hinv'. destruct Hinv' as (Ha & Hb & Hc' & _ & _ & Hf).
  rewrite Ht in *. split_and!.
  - intros f Hlt. rewrite <- Hl in Hlt. apply lookup_lt_is_Some in Hlt as [x Hx].
    destruct x as [result|].
    + exists result. unfold Chat.awaited. now rewrite Hx.
    + destruct (Hc' f Hx) as (t & Hin & _). now apply elem_of_nil in Hin.
  - apply map_empty. intros k. destruct (Chat._INFLIGHT_LESSONS L' !! k) as [f|] eqn:E;
      [|reflexivity]. destruct (Ha k f E) as (t & Hin & _). now apply elem_of_nil in Hin.
  - reflexivity.
  - destruct Hinv as (_ & _ & _ & _ & _ & Hf0). rewrite Hc. cbn in Hf. lia.
Qed.

(** Two keys entered twice each on an idle loop. *)
Definition two_keys_schedule : list Schedule.event :=
  [ Schedule.Enter "a" "Atoms" None true; Schedule.Enter "b" "Bees" (Some 9) true;
    Schedule.Enter "a" "Atoms" None true; Schedule.Enter "b" "Bees" (Some 9) false ].

Lemma scheduled_tasks_settle_every_future_witness :
  let L := Schedule.exec pretty two_keys_schedule
             Chat.empty_loop in
  let L' := Schedule.exec pretty
              (Schedule.RunTask 0 <$> [Chat.Breaks; Chat.Computes Chat.Raises]) L in
  List.length (Chat.futures L) = 2%nat /\ Chat.computations L' = 2%nat.
Proof.
  split; [vm_compute; reflexivity|].
  destruct (scheduled_tasks_settle_every_future pretty
              two_keys_schedule [Chat.Breaks; Chat.Computes Chat.Raises])
    as (_ & _ & _ & Hc).
  - vm_compute. reflexivity.
  - rewrite Hc. vm_compute. reflexivity.
Defined.

(** X13: results are not kept.  After any schedule, when a scheduled task
    has run and settled its future, the next caller of the same key does
    not get that result: a new future is created for it and a second
    computation is scheduled. *)
Theorem settled_key_is_computed_again (uuid4 : nat -> string)
    (events : list Schedule.event) (i : nat) (env : Chat.Compute) (t : Chat.Task)
    (topic : string) (age : option Z) (client : bool) :
  let L := Schedule.exec uuid4 events Chat.empty_loop in
  Chat.tasks L !! i = Some t ->
  let L1 := Schedule.step uuid4 L (Schedule.RunTask i env) in
  let again := Chat._get_or_compute_lesson (Chat.task_key t) topic age client L1 in
  Chat.awaited (Chat.task_future t) L1
  = Chat.Received (settled uuid4 t env (Chat.drawn L))
  /\ fst again = List.length (Chat.futures L)
  /\ fst again <> Chat.task_future t
  /\ Chat.awaited (fst again) (snd again) = Chat.Pending
  /\ List.length (Chat.tasks (snd again)) = List.length (Chat.tasks L)
  /\ Chat.computations (snd again) = S (Chat.computations L).
Proof.
  intros L Ht L1 again.
  pose proof (loop_inv_exec uuid4 events _ loop_inv_empty) as Hinv. fold L in Hinv.
  destruct Hinv as (_ & Hb & _ & _ & _ & _).
  assert (t ∈ Chat.tasks L) as Hin by (eapply list_elem_of_lookup_2; exact Ht).
  destruct (Hb t Hin) as [_ Hp]. pose proof (lookup_lt_Some _ _ _ Hp) as Hlt.
  destruct (run_task uuid4 i env L t Ht) as [d Hrun].
  assert (L1 = {| Chat._INFLIGHT_LESSONS := delete (Chat.task_key t) (Chat._INFLIGHT_LESSONS L);
                  Chat.futures := <[Chat.task_future t :=
                                      Some (settled uuid4 t env (Chat.drawn L))]>
                                    (Chat.futures L);
                  Chat.tasks := delete i (Chat.tasks L);
                  Chat.computations := S (Chat.computations L);
                  Chat.drawn := d |}) as HL1.
  { subst L1. cbn [Schedule.step]. now rewrite Hrun. }
  clearbody L1. subst L1. set (L1 := Chat.Build_Loop _ _ _ _ _) in *.
  assert (Chat._INFLIGHT_LESSONS L1 !! Chat.task_key t = None) as Hnone
    by apply lookup_delete_eq.
  subst again. rewrite (first_caller_creates _ _ _ _ _ Hnone). cbn [fst snd].
  assert (List.length (Chat.futures L1) = List.length (Chat.futures L)) as Hlen
    by apply length_insert.
  split_and!.
  - unfold Chat.awaited. cbn. now rewrite list_lookup_insert_eq.
  - exact Hlen.
  - lia.
  - unfold Chat.awaited. cbn [Chat.futures]. now rewrite list_lookup_middle.
  - cbn [Chat.tasks]. rewrite length_app. subst L1. cbn [Chat.tasks].
    rewrite length_delete by (rewrite Ht; eauto).
    apply lookup_lt_Some in Ht. simpl. lia.
  - reflexivity.
Qed.

Lemma settled_key_is_computed_again_witness :
  let L := Schedule.exec pretty two_keys_schedule
             Chat.empty_loop in
  let L1 := Schedule.step pretty L
              (Schedule.RunTask 1 (Chat.Computes Chat.Raises)) in
  let again := Chat._get_or_compute_lesson "b" "Bees" (Some 9) true L1 in
  fst again = 2%nat /\ Chat.computations (snd again) = 1%nat.
Proof.
  destruct (settled_key_is_computed_again pretty
              two_keys_schedule 1 (Chat.Computes Chat.Raises)
              {| Chat.task_future := 1; Chat.task_key := "b"; Chat.task_topic := "Bees";
                 Chat.task_age := Some 9; Chat.task_client := true |}
              "Bees" (Some 9) true) as (_ & H1 & _ & _ & _ & H2).
  - vm_compute. reflexivity.
  - split; [exact H1|exact H2].
Defined.

(** ** The lesson endpoint of main.py: what it serves and what it caches *)

Section EndpointFacts.

Import Json MainParsing.

Variable py_str : json -> string.

Lemma make_quiz_length items quiz :
  make_quiz items = Some quiz -> List.length quiz = List.length items.
Proof.
  revert quiz. induction items as [|[[q o] a] items IH]; intros quiz H; cbn [make_quiz] in H.
  - now injection H as <-.
  - destruct (make_quiz_item q o a); [|discriminate].
    destruct (make_quiz items) as [rest|]; [|discriminate].
    injection H as <-. cbn. now rewrite (IH rest).
Qed.

(** What an assembled response says of the data it was assembled from. *)
Lemma assemble_response_Some data r :
  assemble_response py_str data = Some r ->
  (exists fields v items,
     data = JObj fields /\ dict_get "quiz_questions" fields = Some v
     /\ Normalizer.iterate v = Some items
     /\ List.length (collect_quiz items) = List.length (Main.quiz r))
  /\ Main.sections r = safe_process_sections data
  /\ (1 <= List.length (Main.sections r) <= 20)%nat
  /\ (1 <= List.length (Main.quiz r) <= 10)%nat
  /\ (List.length (Main.classifications r) <= 10)%nat.
Proof.
  unfold assemble_response. destruct data as [| | | | |fields]; try discriminate.
  destruct (match dict_get "classifications" fields with
            | Some v => Normalizer.iterate v
            | None => Some []
            end) as [citems|]; [|discriminate].
  destruct (collect_classifications citems) as [cls|]; [|discriminate].
  destruct (match dict_get "diagram_description" fields with
            | Some (JStr s) => Some s
            | Some _ => None
            | None => Some ""
            end) as [dg|]; [|discriminate].
  destruct (make_quiz (safe_process_quiz (JObj fields))) as [qz|] eqn:Eq; [|discriminate].
  destruct (_ && _) eqn:Ec; [|discriminate]. intros H. injection H as <-.
  cbn [Main.sections Main.quiz Main.classifications].
  repeat (apply andb_prop in Ec as [Ec ?]).
  repeat match goal with
         | H : (_ <=? _)%nat = true |- _ => apply Nat.leb_le in H
         end.
  pose proof (make_quiz_length _ _ Eq) as Hlen.
  split_and!; try lia; try reflexivity.
  unfold safe_process_quiz, process_quiz in Hlen.
  destruct (dict_get "quiz_questions" fields) as [v|] eqn:Ev; [|cbn in Hlen; lia].
  destruct (Normalizer.iterate v) as [items|] eqn:Ei; [|cbn in Hlen; lia].
  exists fields, v, items. cbn in Hlen.
  split_and!; [reflexivity|exact Ev|exact Ei|symmetry; exact Hlen].
Qed.

Lemma fallback_data_is_refused t : assemble_response py_str (Main.fallback_data t) = None.
Proof.
  destruct (assemble_response py_str (Main.fallback_data t)) as [r|] eqn:E; [|reflexivity].
  destruct (assemble_response_Some _ _ E) as [(fields & v & items & Hd & Hq & _) _].
  injection Hd as <-. discriminate.
Qed.

End EndpointFacts.

(** X14: a lesson is served only from data that carry quiz questions.
    For a completion whose parses stay within the model, so that they
    answer as [orjson.loads] does: when the endpoint answers it with status
    200, the parsed data are an object whose key [quiz_questions] holds the
    entries the quiz was made of, one quiz item each, and the response has
    from 1 to 20 sections, from 1 to 10 quiz items and at most 10
    classifications. *)
Theorem served_lesson_shape (py_str : Json.json -> string) (now : Z) (p : Main.Suspended)
    (content : option string) (s s' : Main.Server) (r : Main.StructuredLessonResponse) :
  Normalizer.parses_within
    (Normalizer.extract_object
       (Normalizer.extract_fenced (Text.strip (default "" content)))) = true ->
  Main.structured_lesson_finish (MainParsing.assemble_response py_str) now p
    (Chat.Returns content) s = (Main.Ok200 r, s') ->
  (exists fields v items,
     Main.parse_completion (Main.body_topic p) content = Json.JObj fields
     /\ Json.dict_get "quiz_questions" fields = Some v
     /\ Normalizer.iterate v = Some items
     /\ List.length (MainParsing.collect_quiz items) = List.length (Main.quiz r))
  /\ (1 <= List.length (Main.sections r) <= 20)%nat
  /\ (1 <= List.length (Main.quiz r) <= 10)%nat
  /\ (List.length (Main.classifications r) <= 10)%nat.
Proof.
  unfold Main.structured_lesson_finish. intros _ H.
  destruct (MainParsing.assemble_response py_str _) as [r'|] eqn:E; [|discriminate].
  injection H as <- _.
  destruct (assemble_response_Some py_str _ _ E) as (Hq & _ & Hs & Hz & Hc).
  now split_and!.
Qed.

(** A completion with one section and one quiz question. *)
Definition leaves_completion : string :=
  Normalizer.lit
    "{'sections':[{'title':'Leaves','content':'Leaves make sugar from light.'}],'quiz_questions':[{'question':'What do leaves make?','options':['A) Sugar','B) Sand'],'correct_answer':'A) Sugar'}]}".

Lemma served_lesson_shape_witness :
  let res :=
    Main.structured_lesson_finish (MainParsing.assemble_response (fun _ => "")) 0
      {| Main.body_topic := "Leaves"; Main.stripped_topic := "Leaves";
         Main.cache_key := get_cache_key "Leaves" |}
      (Chat.Returns (Some leaves_completion))
      {| Main.cache := Main.Down; Main.upstream_calls := 1 |} in
  exists r, fst res = Main.Ok200 r /\ (1 <= List.length (Main.quiz r) <= 10)%nat.
Proof.
  intros res.
  assert (exists r s', res = (Main.Ok200 r, s')) as (r & s' & E)
    by (vm_compute; do 2 eexists; reflexivity).
  exists r. split; [now rewrite E|].
  refine (proj1 (proj2 (proj2 (served_lesson_shape _ _ _ _ _ _ _ _ E)))).
  vm_compute. reflexivity.
Defined.

(** X15: the fallback data of the endpoint are never served.  A completion
    that [orjson.loads] refuses both as it is and after the repairs (its
    parses stay within the model and both fail) is replaced by data that
    carry no quiz questions, the response fails its validation, and the
    answer is status 500 with the server unchanged. *)
Theorem unparseable_completion_is_500 (py_str : Json.json -> string) (now : Z)
    (p : Main.Suspended) (content : option string) (s : Main.Server) :
  let text :=
    Normalizer.extract_object
      (Normalizer.extract_fenced (Text.strip (default "" content))) in
  Normalizer.parses_within text = true ->
  Json.loads text = None ->
  Json.loads (Normalizer.repair text) = None ->
  Main.structured_lesson_finish (MainParsing.assemble_response py_str) now p
    (Chat.Returns content) s = (Main.HttpError 500, s).
Proof.
  intros text _ H1 H2. unfold Main.structured_lesson_finish, Main.parse_completion.
  fold text. rewrite H1, H2. now rewrite fallback_data_is_refused.
Qed.

(** A completion that holds a number no double can hold. *)
Definition overflowing_completion : string :=
  Normalizer.lit "{'sections':[],'quiz_questions':[],'weight':1e400}".

Lemma unparseable_completion_is_500_witness :
  Json.loads overflowing_completion = None
  /\ Main.structured_lesson_finish (MainParsing.assemble_response (fun _ => "")) 0
       {| Main.body_topic := "Leaves"; Main.stripped_topic := "Leaves";
          Main.cache_key := get_cache_key "Leaves" |}
       (Chat.Returns (Some overflowing_completion))
       {| Main.cache := Main.Up ∅; Main.upstream_calls := 1 |}
     = (Main.HttpError 500, {| Main.cache := Main.Up ∅; Main.upstream_calls := 1 |}).
Proof.
  split; [vm_compute; reflexivity|].
  apply unparseable_completion_is_500; vm_compute; reflexivity.
Defined.

(** X16: a served lesson is cached for two hours under the key of its
    topic.  When a request missed the cache, went to the upstream and was
    answered with status 200 while the store is up, a request made less
    than 7200 seconds after the answer, for a topic that differs at most in
    letter case and surrounding white space, is answered with the same
    lesson and without a further upstream call. *)
Theorem cached_lesson_is_served (greeting : Main.StructuredLessonResponse)
    (assemble : Json.json -> option Main.StructuredLessonResponse)
    (now0 now now' : Z) (body0 body : Main.StructuredLessonRequest)
    (s0 s1 s2 : Main.Server) (p : Main.Suspended) (upstream : Chat.Upstream)
    (r : Main.StructuredLessonResponse) (db : gmap string (Main.StructuredLessonResponse * Z)) :
  Main.cache s0 = Main.Up db ->
  Main.structured_lesson_begin greeting now0 body0 s0 = (inr p, s1) ->
  Main.structured_lesson_finish assemble now p upstream s1 = (Main.Ok200 r, s2) ->
  Text.strip (Text.lower (Text.strip (Main.topic body)))
  = Text.strip (Text.lower (Text.strip (Main.topic body0))) ->
  now' < now + 7200 * second ->
  Main.structured_lesson_begin greeting now' body s2 = (inl (Main.Ok200 r), s2)
  /\ Main.upstream_calls s2 = S (Main.upstream_calls s0).
Proof.
  intros Hup Hbegin Hfinish Htopic Hnow.
  unfold Main.structured_lesson_begin in Hbegin.
  destruct (Main.get_cache now0 _ "lessons" s0); [discriminate|].
  destruct (Main.is_social_greeting _); [discriminate|].
  injection Hbegin as <- <-.
  unfold Main.structured_lesson_finish in Hfinish. destruct upstream as [|content];
    [discriminate|].
  cbn [Main.body_topic Main.cache_key] in Hfinish.
  destruct (assemble _) as [r'|]; [|discriminate].
  unfold Main.set_cache in Hfinish. cbn [Main.cache Main.upstream_calls] in Hfinish.
  rewrite Hup in Hfinish. cbn [snd] in Hfinish. injection Hfinish as -> <-.
  split; [|reflexivity].
  unfold Main.structured_lesson_begin, Main.get_cache. cbn [Main.cache].
  rewrite (get_cache_key_ext _ _ Htopic), lookup_insert_eq.
  destruct (now' <? now + 7200 * second) eqn:E; [reflexivity|].
  apply Z.ltb_ge in E. lia.
Qed.

Lemma cached_lesson_is_served_witness :
  let s0 := {| Main.cache := Main.Up ∅; Main.upstream_calls := 0 |} in
  let body0 := {| Main.topic := "Leaves"; Main.age := None |} in
  let body := {| Main.topic := "  LEAVES "; Main.age := Some 9 |} in
  exists p s1 r s2,
    Main.structured_lesson_begin no_greeting 0 body0 s0 = (inr p, s1)
    /\ Main.structured_lesson_finish (MainParsing.assemble_response (fun _ => "")) second p
         (Chat.Returns (Some leaves_completion)) s1 = (Main.Ok200 r, s2)
    /\ Main.structured_lesson_begin no_greeting (7000 * second) body s2
       = (inl (Main.Ok200 r), s2).
Proof.
  intros s0 body0 body.
  assert (exists p s1, Main.structured_lesson_begin no_greeting 0 body0 s0 = (inr p, s1))
    as (p & s1 & E1) by (vm_compute; do 2 eexists; reflexivity).
  assert (exists r s2,
            Main.structured_lesson_finish (MainParsing.assemble_response (fun _ => ""))
              second p (Chat.Returns (Some leaves_completion)) s1 = (Main.Ok200 r, s2))
    as (r & s2 & E2).
  { vm_compute in E1. injection E1 as <- <-. vm_compute. do 2 eexists. reflexivity. }
  exists p, s1, r, s2. split_and!; [exact E1|exact E2|].
  apply (cached_lesson_is_served no_greeting _ 0 second (7000 * second) body0 body
           s0 s1 s2 p _ r ∅ eq_refl E1 E2); [vm_compute; reflexivity|reflexivity].
Defined.

(** ** The sanitiser of main.py *)

Section SanitizeFacts.

Import Normalizer.

(** Every character of [s] satisfies [p]. *)
Fixpoint every (p : ascii -> bool) (s : string) : bool :=
  match s with
  | EmptyString => true
  | String c s' => p c && every p s'
  end.

(** What [sanitize_text] lets through: no character it calls dangerous,
    and of the white space the plain space only. *)
Definition clean (c : ascii) : bool :=
  negb (is_dangerous c) && (negb (Text.isspace c) || Ascii.eqb c " ").

(** No two white-space characters next to each other. *)
Fixpoint single_spaced (s : string) : bool :=
  match s with
  | String c s' =>
      match s' with
      | String d _ => negb (Text.isspace c && Text.isspace d) && single_spaced s'
      | EmptyString => true
      end
  | EmptyString => true
  end.

(** The text neither starts nor ends with white space. *)
Definition starts_clean (s : string) : bool :=
  match s with
  | String c _ => negb (Text.isspace c)
  | EmptyString => true
  end.

Lemma every_In p s c : every p s = true -> In c (list_ascii_of_string s) -> p c = true.
Proof.
  induction s as [|d s IH]; cbn; [tauto|].
  intros H%andb_prop [<-|Hin]; tauto.
Qed.

Lemma every_app p s1 s2 : every p (s1 ++ s2) = every p s1 && every p s2.
Proof.
  induction s1 as [|c s1 IH]; rewrite ?append_nil_l, ?append_cons; cbn [every];
    [reflexivity|]. now rewrite IH, andb_assoc.
Qed.

Lemma every_filter p q s :
  (forall c, q c = true -> p c = true) -> every p (Text.filter q s) = true.
Proof.
  intros H. induction s as [|c s IH]; [reflexivity|]. cbn [Text.filter].
  destruct (q c) eqn:E; [|exact IH]. cbn [every]. now rewrite (H c E), IH.
Qed.

Lemma every_lstrip p s : every p s = true -> every p (Text.lstrip s) = true.
Proof.
  induction s as [|c s IH]; [reflexivity|]. cbn [Text.lstrip].
  destruct (Text.isspace c); [|tauto]. cbn [every]. intros H%andb_prop. tauto.
Qed.

Lemma every_rstrip p s : every p s = true -> every p (Text.rstrip s) = true.
Proof.
  induction s as [|c s IH]; [reflexivity|]. cbn [Text.rstrip every].
  intros [Hc Hs]%andb_prop. specialize (IH Hs).
  destruct (Text.rstrip s) as [|d r].
  - destruct (Text.isspace c); [reflexivity|]. cbn. now rewrite Hc.
  - cbn [every] in *. now rewrite Hc, IH.
Qed.

Lemma every_collapse s :
  every (fun c => negb (is_dangerous c)) s = true ->
  every clean (collapse_spaces s) = true.
Proof.
  induction s as [|c s IH]; [reflexivity|]. cbn [every collapse_spaces].
  intros [Hc Hs]%andb_prop. specialize (IH Hs).
  destruct (Text.isspace c) eqn:Ec.
  - destruct s as [|d s]; [reflexivity|].
    destruct (Text.isspace d); [exact IH|]. cbn [every]. now rewrite IH.
  - cbn [every]. rewrite IH. unfold clean. now rewrite Hc, Ec.
Qed.

Lemma collapse_head c s :
  Text.isspace c = false -> collapse_spaces (String c s) = String c (collapse_spaces s).
Proof. intros H. cbn [collapse_spaces]. now rewrite H. Qed.

Lemma single_cons c d s :
  single_spaced (String c (String d s))
  = negb (Text.isspace c && Text.isspace d) && single_spaced (String d s).
Proof. reflexivity. Qed.

Lemma collapse_single s : single_spaced (collapse_spaces s) = true.
Proof.
  induction s as [|c s IH]; [reflexivity|]. cbn [collapse_spaces].
  destruct (Text.isspace c) eqn:Ec.
  - destruct s as [|d s]; [reflexivity|].
    destruct (Text.isspace d) eqn:Ed; [exact IH|].
    rewrite (collapse_head d s Ed) in *. rewrite single_cons, Ed, andb_false_r.
    exact IH.
  - destruct (collapse_spaces s) as [|d r]; [reflexivity|].
    now rewrite single_cons, Ec.
Qed.

Lemma single_lstrip s : single_spaced s = true -> single_spaced (Text.lstrip s) = true.
Proof.
  induction s as [|c s IH]; [reflexivity|]. cbn [Text.lstrip].
  destruct (Text.isspace c); [|tauto]. cbn [single_spaced].
  destruct s; [reflexivity|]. intros H%andb_prop. tauto.
Qed.

Lemma single_rstrip s : single_spaced s = true -> single_spaced (Text.rstrip s) = true.
Proof.
  induction s as [|c s IH]; [reflexivity|]. cbn [Text.rstrip].
  intros H. assert (single_spaced s = true) as Hs.
  { cbn [single_spaced] in H. destruct s; [reflexivity|]. apply andb_prop in H. tauto. }
  specialize (IH Hs). destruct (Text.rstrip s) as [|d r] eqn:Er.
  - now destruct (Text.isspace c).
  - rewrite single_cons, IH, andb_true_r.
    destruct s as [|d' s']; [discriminate|].
    rewrite single_cons in H. apply andb_prop in H as [H _].
    assert (d = d') as ->; [|exact H].
    cbn [Text.rstrip] in Er. destruct (Text.rstrip s'); [|congruence].
    destruct (Text.isspace d'); congruence.
Qed.

Lemma lstrip_starts_clean s : starts_clean (Text.lstrip s) = true.
Proof.
  induction s as [|c s IH]; [reflexivity|]. cbn [Text.lstrip].
  destruct (Text.isspace c) eqn:E; [exact IH|]. cbn. now rewrite E.
Qed.

Lemma starts_clean_lstrip s : starts_clean s = true -> Text.lstrip s = s.
Proof.
  destruct s as [|c s]; [reflexivity|]. cbn. now destruct (Text.isspace c).
Qed.

Lemma rstrip_starts_clean s : starts_clean s = true -> starts_clean (Text.rstrip s) = true.
Proof.
  destruct s as [|c s]; [reflexivity|]. cbn [starts_clean Text.rstrip]. intros H.
  destruct (Text.rstrip s); [|exact H].
  destruct (Text.isspace c) eqn:E; [reflexivity|]. cbn. now rewrite E.
Qed.

Lemma rstrip_idem s : Text.rstrip (Text.rstrip s) = Text.rstrip s.
Proof.
  induction s as [|c s IH]; [reflexivity|]. cbn [Text.rstrip].
  destruct (Text.rstrip s) as [|d r] eqn:Er.
  - destruct (Text.isspace c) eqn:Ec; [reflexivity|]. cbn. now rewrite Ec.
  - change (Text.rstrip (String c (String d r)))
      with (match Text.rstrip (String d r) with
            | EmptyString => if Text.isspace c then EmptyString else String c EmptyString
            | r' => String c r'
            end).
    now rewrite IH.
Qed.

Lemma strip_idem s : Text.strip (Text.strip s) = Text.strip s.
Proof.
  unfold Text.strip. rewrite (starts_clean_lstrip (Text.rstrip (Text.lstrip s))).
  - apply rstrip_idem.
  - apply rstrip_starts_clean, lstrip_starts_clean.
Qed.

Lemma html_escape_safe s :
  every (fun c => negb (Ascii.eqb c "<" || Ascii.eqb c ">" || Ascii.eqb c Json.dquote
                        || Ascii.eqb c "'")) (html_escape s) = true.
Proof.
  induction s as [|c s IH]; [reflexivity|]. cbn [html_escape]. rewrite every_app, IH,
    andb_true_r.
  destruct (Ascii.eqb c "&"); [reflexivity|].
  destruct (Ascii.eqb c "<") eqn:E1; [reflexivity|].
  destruct (Ascii.eqb c ">") eqn:E2; [reflexivity|].
  destruct (Ascii.eqb c Json.dquote) eqn:E3; [reflexivity|].
  destruct (Ascii.eqb c "'") eqn:E4; [reflexivity|].
  cbn [every]. now rewrite E1, E2, E3, E4.
Qed.

End SanitizeFacts.

(** X17: what [sanitize_text] returns is clean whatever it is given: it
    holds no angle bracket, no quote of either kind and no control
    character, its only white space is the plain space, never two in a row
    and never at either end; and the brackets and quotes of the input were
    all escaped, none deleted by the filter. *)
Theorem sanitize_text_is_clean (text : string) :
  let out := Normalizer.sanitize_text text in
  (forall c, In c (list_ascii_of_string out) ->
     Normalizer.is_dangerous c = false /\ (Text.isspace c = true -> c = " "%char))
  /\ single_spaced out = true
  /\ Text.strip out = out
  /\ every (fun c => negb (Ascii.eqb c "<" || Ascii.eqb c ">"
                           || Ascii.eqb c Json.dquote || Ascii.eqb c "'"))
       (Normalizer.html_escape text) = true.
Proof.
  cbv zeta. unfold Normalizer.sanitize_text.
  destruct text as [|c0 text]; [split_and!; try reflexivity; intros c []|].
  set (s := Text.filter _ _). split_and!.
  - intros c Hin.
    assert (every clean (Text.strip (Normalizer.collapse_spaces s)) = true) as H.
    { unfold Text.strip. apply every_rstrip, every_lstrip, every_collapse.
      subst s. now apply every_filter. }
    pose proof (every_In _ _ _ H Hin) as Hc. unfold clean in Hc.
    apply andb_prop in Hc as [Hd Hs]. split.
    + now destruct (Normalizer.is_dangerous c).
    + intros Hsp. rewrite Hsp in Hs. cbn in Hs. now apply Ascii.eqb_eq.
  - unfold Text.strip. apply single_rstrip, single_lstrip, collapse_single.
  - apply strip_idem.
  - apply html_escape_safe.
Qed.

(** ** The mode prefix of chat.py *)

Section ChatModeFacts.

Import ChatMode.

(** The text starts with a character that is not white space. *)
Definition starts_with_text (s : string) : bool :=
  match s with
  | String c _ => negb (Text.isspace c)
  | EmptyString => false
  end.

Lemma word_app w c rest :
  every is_word w = true -> is_word c = false ->
  word (w ++ String c rest) = (w, String c rest).
Proof.
  intros Hw Hc. induction w as [|d w IH]; rewrite ?append_nil_l, ?append_cons.
  - cbn [word]. now rewrite Hc.
  - cbn [every] in Hw. apply andb_prop in Hw as [Hd Hw]. cbn [word].
    now rewrite Hd, (IH Hw).
Qed.

Lemma first_line_app line more :
  every (fun c => negb (Ascii.eqb c (Text.chr 10))) line = true ->
  first_line (line ++ String (Text.chr 10) more) = line.
Proof.
  induction line as [|c line IH]; rewrite ?append_nil_l, ?append_cons; intros H.
  - reflexivity.
  - cbn [every] in H. apply andb_prop in H as [Hc Hl]. cbn [first_line].
    destruct (Ascii.eqb c (Text.chr 10)); [discriminate|]. now rewrite (IH Hl).
Qed.

Lemma lstrip_text s : starts_with_text s = true -> Text.lstrip s = s.
Proof.
  destruct s as [|c s]; [discriminate|]. cbn. now destruct (Text.isspace c).
Qed.

End ChatModeFacts.

(** X18: a message with a mode prefix keeps its first line only.  When the
    stripped message is a slash, a mode word, a space, a line of text and
    then a line feed followed by anything, the mode is the word in lower
    case, the text handed to the handler is that line stripped, what
    follows the line feed is dropped, and the handler is that of the mode
    when the mode is one of the four known and the default handler
    otherwise. *)
Theorem prefixed_message_keeps_first_line (message w line more : string) :
  Text.strip message
  = String "/" (w ++ String " " (line ++ String (Text.chr 10) more)) ->
  w <> "" ->
  every ChatMode.is_word w = true ->
  starts_with_text line = true ->
  every (fun c => negb (Ascii.eqb c (Text.chr 10))) line = true ->
  ChatMode.extract_mode message = (Text.lower w, Text.strip line)
  /\ ChatMode.route message
     = (if bool_decide (Text.lower w ∈ ChatMode.MODE_MAP) then Text.lower w else "default",
        Text.strip line)
  /\ fst (ChatMode.route message) ∈ ChatMode.MODE_MAP.
Proof.
  intros Hs Hne Hw Hl Hnl.
  assert (ChatMode.extract_mode message = (Text.lower w, Text.strip line)) as He.
  { unfold ChatMode.extract_mode. rewrite Hs.
    rewrite (word_app w " " _ Hw eq_refl).
    destruct w as [|c w]; [congruence|].
    change (Text.lstrip (String " " (line ++ String (Text.chr 10) more)))
      with (Text.lstrip (line ++ String (Text.chr 10) more)).
    rewrite lstrip_text.
    - now rewrite first_line_app.
    - destruct line as [|d line]; [discriminate|]. exact Hl. }
  split; [exact He|]. unfold ChatMode.route. rewrite He. split; [reflexivity|].
  cbn [fst]. destruct (bool_decide _) eqn:E.
  - now apply bool_decide_eq_true in E.
  - apply (bool_decide_unpack _). vm_compute. exact I.
Qed.

Lemma prefixed_message_keeps_first_line_witness :
  ChatMode.route
    (" /Quick what is a leaf? " ++ String (Text.chr 10) "And what is a root?")
  = ("quick", "what is a leaf?").
Proof.
  destruct (prefixed_message_keeps_first_line
              (" /Quick what is a leaf? " ++ String (Text.chr 10) "And what is a root?")
              "Quick" "what is a leaf? " "And what is a root?") as (_ & H & _).
  - vm_compute. reflexivity.
  - discriminate.
  - vm_compute. reflexivity.
  - vm_compute. reflexivity.
  - vm_compute. reflexivity.
  - rewrite H. vm_compute. reflexivity.
Defined.

(** ** What the normaliser hands to its callers *)

Section ObjectsOnly.

Import Json.

(** The loop of [parse_value] over the members of one object, with the
    parser of the values and the fuel of the strings as parameters. *)
Definition members_of (value : string -> outcome json) (fuel : nat) :
  nat -> list (string * json) -> string -> outcome json :=
  fix members (n : nat) (acc : list (string * json)) (t : string) : outcome json :=
    match n with
    | O => OutOfFuel
    | S n' =>
        match skip_ws t with
        | String q t0 =>
            if negb (Ascii.eqb q dquote) then Invalid else
            match parse_string fuel t0 with
            | Parsed k t1 =>
                match skip_ws t1 with
                | String ":" t2 =>
                    match value t2 with
                    | Parsed v t3 =>
                        match skip_ws t3 with
                        | String "," t4 => members n' (dict_set k v acc) t4
                        | String "}" t4 => Parsed (JObj (dict_set k v acc)) t4
                        | _ => Invalid
                        end
                    | Invalid => Invalid
                    | OutOfFuel => OutOfFuel
                    | Beyond => Beyond
                    end
                | _ => Invalid
                end
            | Invalid => Invalid
            | OutOfFuel => OutOfFuel
            | Beyond => Beyond
            end
        | EmptyString => Invalid
        end
    end.

Ltac by_char s :=
  destruct s as [|[[] [] [] [] [] [] [] []] ?].

Lemma members_of_object value fuel n : forall acc t v rest,
  members_of value fuel n acc t = Parsed v rest -> exists fields, v = JObj fields.
Proof.
  induction n as [|n IH]; intros acc t v rest H; [discriminate|].
  cbn [members_of] in H. fold (members_of value fuel) in H.
  destruct (skip_ws t) as [|q t0]; [discriminate|].
  destruct (negb (Ascii.eqb q dquote)); [discriminate|].
  destruct (parse_string fuel t0) as [k t1| | |]; try discriminate.
  by_char (skip_ws t1); try discriminate.
  destruct (value _) as [x t3| | |]; try discriminate.
  by_char (skip_ws t3); try discriminate;
    first [ now apply IH in H | injection H as <- _; eauto ].
Qed.

Lemma parse_value_brace depth r v rest :
  parse_value depth (String "{" r) = Parsed v rest -> exists fields, v = JObj fields.
Proof.
  destruct depth as [|depth]; intros H.
  - assert (@Invalid json = Parsed v rest) by exact H. discriminate.
  - assert (match skip_ws r with
            | String "}" rest0 => Parsed (JObj []) rest0
            | _ => members_of (parse_value depth) (S (String.length (String "{" r)))
                     (S (String.length (String "{" r))) [] r
            end = Parsed v rest) as H' by exact H.
    clear H. by_char (skip_ws r);
      first [ injection H' as <- _; eauto
            | exact (members_of_object _ _ _ _ _ _ _ H') ].
Qed.

Lemma startswith_brace s :
  Text.startswith s "{" = true -> exists r, s = String "{" r.
Proof.
  destruct s as [|c s]; [discriminate|]. cbn [Text.startswith].
  destruct (Ascii.eqb_spec "{" c) as [<-|]; [eauto|discriminate].
Qed.

Lemma repair_brace r : exists r', Normalizer.repair (String "{" r) = String "{" r'.
Proof. eexists. reflexivity. Qed.

Lemma loads_brace r v : loads (String "{" r) = Some v -> exists fields, v = JObj fields.
Proof.
  unfold loads. destruct (parse_value 1024 (String "{" r)) as [x rest| | |] eqn:E;
    try discriminate.
  destruct (skip_ws rest); [|discriminate]. intros [= <-].
  eapply parse_value_brace. exact E.
Qed.

End ObjectsOnly.

(** X19: [process_lesson_content] hands its callers a JSON object or
    nothing.  For a completion whose parses stay within the model, so that
    they answer as [orjson.loads] does, a result that is not [None] is an
    object, never a list, a string, a number, a truth value or null. *)
Theorem process_lesson_content_returns_objects (content topic : string) (data : Json.json) :
  Normalizer.parses_within (MainParsing.clean_and_extract_json content) = true ->
  Normalizer.process_lesson_content content topic = Some data ->
  exists fields, data = Json.JObj fields.
Proof.
  intros _. unfold Normalizer.process_lesson_content.
  set (c := Normalizer.extract_object _).
  destruct (Text.startswith c "{") eqn:Es; [|discriminate].
  destruct (startswith_brace _ Es) as [r ->].
  destruct (Text.endswith _ _); [|discriminate]. cbn [andb].
  destruct (Json.loads (String "{" r)) as [d|] eqn:E1.
  - intros [= <-]. now apply loads_brace in E1.
  - destruct (repair_brace r) as [r' ->].
    destruct (Json.loads (String "{" r')) as [d|] eqn:E2; [|discriminate].
    intros [= <-]. now apply loads_brace in E2.
Qed.

Lemma process_lesson_content_returns_objects_witness :
  exists data fields,
    Normalizer.process_lesson_content Normalizer.fenced_input "Leaves" = Some data
    /\ data = Json.JObj fields.
Proof.
  assert (exists data,
            Normalizer.process_lesson_content Normalizer.fenced_input "Leaves" = Some data)
    as [data E] by (vm_compute; eexists; reflexivity).
  assert (Normalizer.parses_within
            (MainParsing.clean_and_extract_json Normalizer.fenced_input) = true) as W
    by (vm_compute; reflexivity).
  destruct (process_lesson_content_returns_objects _ _ _ W E) as [fields ->].
  now exists (Json.JObj fields), fields.
Defined.

(** ** The form of the cache keys *)

Section KeyFormat.

(** A lower-case hexadecimal digit. *)
Definition is_hex (c : ascii) : bool :=
  let n := Text.code c in
  ((48 <=? n) && (n <=? 57)) || ((97 <=? n) && (n <=? 102)).

Lemma le_bytes_range n : forall x, Forall (fun b => 0 <= b < 256) (MD5.le_bytes n x).
Proof.
  induction n as [|n IH]; intros x; cbn [MD5.le_bytes]; constructor.
  - apply Z.mod_pos_bound. lia.
  - apply IH.
Qed.

Lemma le_bytes_length n x : List.length (MD5.le_bytes n x) = n.
Proof. revert x. induction n as [|n IH]; intros x; cbn; [reflexivity|]. now rewrite IH. Qed.

Lemma hex_digit_is_hex n : 0 <= n < 16 -> is_hex (MD5.hex_digit n) = true.
Proof.
  intros H. rewrite <- (Z2Nat.id n) by lia.
  assert (Z.to_nat n < 16)%nat as Hk by lia. revert Hk.
  generalize (Z.to_nat n) as k. intros k Hk.
  do 16 (destruct k as [|k]; [reflexivity|]). lia.
Qed.

Lemma hex_form bs :
  Forall (fun b => 0 <= b < 256) bs ->
  every is_hex (MD5.hex bs) = true
  /\ String.length (MD5.hex bs) = (2 * List.length bs)%nat.
Proof.
  induction 1 as [|b bs Hb _ [IH1 IH2]]; [split; reflexivity|].
  cbn [MD5.hex every String.length List.length]. split.
  - rewrite IH1, !hex_digit_is_hex; [reflexivity| |].
    + apply Z.mod_pos_bound. lia.
    + split; [apply Z.div_pos; lia|apply Z.div_lt_upper_bound; lia].
  - rewrite IH2. lia.
Qed.

Lemma digest_form msg :
  Forall (fun b => 0 <= b < 256) (MD5.digest msg) /\ List.length (MD5.digest msg) = 16%nat.
Proof.
  unfold MD5.digest. destruct (MD5.blocks _ _ _) as [a b c d]. split.
  - repeat (apply Forall_app; split); apply le_bytes_range.
  - now rewrite !length_app, !le_bytes_length.
Qed.

Lemma every_prefix p n : forall s, every p s = true -> every p (substring 0 n s) = true.
Proof.
  induction n as [|n IH]; intros [|c s] H; try reflexivity.
  cbn [every] in H. apply andb_prop in H as [Hc Hs]. cbn [substring every].
  now rewrite Hc, (IH s Hs).
Qed.

Lemma length_prefix n : forall s,
  (n <= String.length s)%nat -> String.length (substring 0 n s) = n.
Proof.
  induction n as [|n IH]; intros [|c s] H; cbn in *; try reflexivity; try lia.
  rewrite IH; [reflexivity|lia].
Qed.

Lemma key_digits msg :
  let k := Text.slice (MD5.hexdigest msg) 0 16 in
  String.length k = 16%nat /\ every is_hex k = true.
Proof.
  cbv zeta. unfold Text.slice, MD5.hexdigest.
  change (Z.to_nat 0) with 0%nat. change (Z.to_nat (16 - 0)) with 16%nat.
  destruct (digest_form msg) as [Hr Hl]. destruct (hex_form _ Hr) as [He Hn].
  split.
  - apply length_prefix. rewrite Hn, Hl. lia.
  - now apply every_prefix.
Qed.

End KeyFormat.

(** X20: the keys have a fixed form whatever the topic, the text and the
    age are: the key of main.py is [lesson:] followed by 16 lower-case
    hexadecimal digits, and the key of chat.py is 16 lower-case hexadecimal
    digits; either keeps half of the 32 digits of the MD5 digest. *)
Theorem cache_keys_are_sixteen_hex_digits (topic text : string) (age : option Z) :
  (exists k, get_cache_key topic = "lesson:" ++ k
             /\ String.length k = 16%nat /\ every is_hex k = true)
  /\ String.length (get_cache_key topic) = 23%nat
  /\ String.length (lesson_cache_key text age) = 16%nat
  /\ every is_hex (lesson_cache_key text age) = true
  /\ (forall msg, String.length (MD5.hexdigest msg) = 32%nat).
Proof.
  unfold get_cache_key, lesson_cache_key.
  pose proof (key_digits (Text.encode (Text.strip (Text.lower topic)))) as [Hl He].
  pose proof (key_digits (Text.encode (text ++ "|" ++ str_opt_int age))) as [Hl' He'].
  split_and!.
  - eexists. split; [reflexivity|]. split; assumption.
  - rewrite !append_cons, append_nil_l. cbn [String.length]. now rewrite Hl.
  - exact Hl'.
  - exact He'.
  - intros msg. unfold MD5.hexdigest. destruct (digest_form msg) as [Hr Hn].
    destruct (hex_form _ Hr) as [_ ->]. now rewrite Hn.
Qed.
